(** * email_receiver: mail retrieval and invoice scoring

    A shallow embedding of the TypeScript services of the repository
    (CacheService, EmailService, InvoiceService, the configuration module and
    the request validation) together with the properties its specification
    states about them.

    Conventions of the embedding.
    - A JavaScript [number] that the code uses as a score, a weight or a
      threshold is an exact rational ([Q]): all constants of the source are
      decimal fractions with one digit, and sums and products are taken
      exactly.  Integers (limits, sizes, message numbers, epoch milliseconds)
      are [Z].
    - A JavaScript string is a [string] of bytes holding its UTF-8 encoding,
      so [includes] and [endsWith] on bytes agree with the source's.
    - Library functions whose behaviour is not part of the repository
      (toLowerCase, parseInt, moment, mailparser, regular expressions, the
      mail server) are parameters: the class [JsRuntime] and the record
      [MailServer].
    - An [async] method is a function of the state monad [M] over [World];
      a rejected promise or a thrown exception is the outcome [Throw]. *)

From Stdlib Require Import ZArith QArith Qminmax Lqa Lia Ascii String Sorted.
From stdpp Require Import base option list strings gmap pretty sorting.

(** ** JavaScript values and string helpers *)

Module Js.

(** Truthiness of a string: only the empty string is falsy. *)
Definition truthy (s : string) : bool := negb (String.eqb s "").

(** Truthiness of an optional string ([undefined] is falsy). *)
Definition truthy_opt (s : option string) : bool :=
  match s with Some s => truthy s | None => false end.

(** [a || b] on strings, where [a] may be undefined. *)
Definition or_else (a : option string) (b : string) : string :=
  match a with
  | Some s => if truthy s then s else b
  | None => b
  end.

(** [n || d] on numbers: [0] and [undefined] are falsy. *)
Definition num_or (n : option Z) (d : Z) : Z :=
  match n with
  | Some v => if (v =? 0)%Z then d else v
  | None => d
  end.

(** [s.includes(k)]. *)
Fixpoint includes (s k : string) : bool :=
  String.prefix k s ||
  match s with
  | EmptyString => false
  | String _ s' => includes s' k
  end.

(** [s.endsWith(k)]. *)
Fixpoint endsWith (s k : string) : bool :=
  String.eqb s k ||
  match s with
  | EmptyString => false
  | String _ s' => endsWith s' k
  end.

(** [parts.join(sep)]. *)
Fixpoint join (sep : string) (parts : list string) : string :=
  match parts with
  | [] => ""
  | [p] => p
  | p :: rest => p +:+ sep +:+ join sep rest
  end.

(** [n.toString()] for an integer. *)
Definition toString (n : Z) : string := pretty n.

(** The relative index of [Array.prototype.slice]: negative counts from the
    end, and the result is clamped to [0, len]. *)
Definition rel_index (len i : Z) : Z :=
  if (i <? 0)%Z then Z.max (len + i) 0 else Z.min i len.

(** [l.slice(start, end)]; [end] absent means the length. *)
Definition slice {A} (l : list A) (start : Z) (end_ : option Z) : list A :=
  let len := Z.of_nat (length l) in
  let k := rel_index len start in
  let final := match end_ with Some e => rel_index len e | None => len end in
  take (Z.to_nat (final - k)) (drop (Z.to_nat k) l).

(** An exception or a rejected promise carries a message. *)
Inductive Result (A : Type) : Type :=
| Ok (a : A)
| Err (message : string).
Arguments Ok {A} a.
Arguments Err {A} message.

(** A non-global regular expression: [exec] gives the match array (the
    whole match, then the groups, an unmatched group being undefined). *)
Record RegExp := { exec : string -> option (list (option string)) }.

Definition test (r : RegExp) (s : string) : bool :=
  match exec r s with Some _ => true | None => false end.

(** [m[i]] of a match array. *)
Definition group (m : list (option string)) (i : nat) : option string :=
  mjoin (m !! i).

End Js.

(** The library functions the services call. *)
Class JsRuntime := {
  (** [String.prototype.toLowerCase]. *)
  toLowerCase : string -> string;
  (** [parseInt(s)]; [None] is NaN. *)
  parseInt : string -> option Z;
  (** [parseFloat(s)]; [None] is NaN. *)
  parseFloat : string -> option Q;
  (** [moment(s, 'YYYY/MM/DD HH:mm')]: the instant in epoch milliseconds;
      [None] is an invalid moment. *)
  moment_since : string -> option Z;
  (** [moment(s, ['YYYY-MM-DD', 'YYYY/MM/DD', 'YYYY年MM月DD日']).toDate()];
      [None] is an invalid date. *)
  moment_invoiceDate : string -> option Z;
  (** [moment(t).startOf('day')] in the server's time zone. *)
  startOfDay : Z -> Z;
  (** The text of the [n]-th identifier [uuidv4()] hands out. *)
  uuid_text : nat -> string;
  (** The match of [/^(\d+)\s+(\d+)$/] on one line of a LIST response. *)
  match_list_line : string -> option (string * string);
}.

(** ** Types of the repository (types/index.ts) *)

Inductive EmailProtocol := IMAP | POP3.

(** The optional [content] buffer of an attachment is not kept. *)
Record EmailAttachment := {
  att_filename : option string;
  att_contentType : option string;
  att_size : Z;
}.

Record EmailMessage := {
  em_id : string;
  em_messageId : string;
  em_from : string;
  em_to : string;
  em_subject : string;
  em_title : string;
  em_body : string;
  em_content : string;
  em_date : Z;
  em_hasAttachments : bool;
  em_attachments : option (list EmailAttachment);
  em_isInvoice : option bool;
  em_createdAt : Z;
}.

Record KeywordBucket := {
  subjects : list string;
  senders : list string;
  amounts : list string;
  companies : list string;
}.

Record InvoiceKeywords := {
  chinese : KeywordBucket;
  english : KeywordBucket;
}.

Record InvoicePatterns := {
  invoiceNumber : Js.RegExp;
  amount : Js.RegExp;
  taxNumber : Js.RegExp;
  date : Js.RegExp;
  company : Js.RegExp;
}.

Record InvoiceScoreWeights := {
  w_subject : Q;
  w_sender : Q;
  w_content : Q;
  w_attachment : Q;
}.

Record InvoiceInfo := {
  ii_id : option string;
  ii_emailId : option string;
  ii_invoiceNumber : option string;
  ii_amount : option Q;
  ii_currency : option string;
  (** [Some None] is an invalid [Date] object. *)
  ii_invoiceDate : option (option Z);
  ii_issuer : option string;
  ii_confidenceScore : option Q;
  ii_createdAt : option Z;
}.

(** ** The configuration module (config/index.ts) *)

Module Config.

Record t := {
  (** [config.storage.enableLocalStorage]. *)
  enableLocalStorage : bool;
  (** [config.invoice.confidenceThreshold]; [None] is NaN. *)
  confidenceThreshold : option Q;
  (** [config.invoice.scoreWeights]. *)
  scoreWeights : InvoiceScoreWeights;
  (** [config.email.attachmentSizeLimit]. *)
  attachmentSizeLimit : Z;
}.

(** The configuration read from the environment variables
    ENABLE_LOCAL_STORAGE and INVOICE_CONFIDENCE_THRESHOLD ([None] when a
    variable is unset).  The threshold is
    [parseFloat(process.env[...] || '0.5')]; [None] is NaN. *)
Definition from_env `{JsRuntime} (ENABLE_LOCAL_STORAGE : option string)
    (INVOICE_CONFIDENCE_THRESHOLD : option string) : t :=
  {| enableLocalStorage :=
       match ENABLE_LOCAL_STORAGE with
       | Some v => String.eqb v "true"
       | None => false
       end;
     confidenceThreshold :=
       if Js.truthy_opt INVOICE_CONFIDENCE_THRESHOLD
       then parseFloat (Js.or_else INVOICE_CONFIDENCE_THRESHOLD "0.5")
       else Some 0.5%Q;
     scoreWeights :=
       {| w_subject := 0.3; w_sender := 0.2; w_content := 0.3; w_attachment := 0.2 |};
     attachmentSizeLimit := 10 * 1024 * 1024 |}.

(** The configuration of a process started with neither variable set. *)
Definition default `{JsRuntime} : t := from_env None None.

End Config.

(** ** The result cache (CacheService.ts) *)

Module CacheService.

Record Item (T : Type) := { data : T; expireTime : Z }.
Arguments data {T} _.
Arguments expireTime {T} _.

(** A [CacheService] object: the map and the default time to live. *)
Record t (T : Type) := { cache : gmap string (Item T); defaultTTL : Z }.
Arguments cache {T} _.
Arguments defaultTTL {T} _.

(** [new CacheService()]: an empty map, five minutes by default. *)
Definition new {T} : t T := {| cache := ∅; defaultTTL := 5 * 60 * 1000 |}.

Section Operations.
Context {T : Type}.

(** [set(key, data, ttl)] at time [now]. *)
Definition set (now : Z) (key : string) (d : T) (ttl : option Z) (c : t T) : t T :=
  let expire := (now + Js.num_or ttl (defaultTTL c))%Z in
  {| cache := <[key := {| data := d; expireTime := expire |}]> (cache c);
     defaultTTL := defaultTTL c |}.

(** [get(key)] at time [now]: an expired entry is deleted and absent. *)
Definition get (now : Z) (key : string) (c : t T) : option T * t T :=
  match cache c !! key with
  | None => (None, c)
  | Some item =>
      if (expireTime item <? now)%Z
      then (None, {| cache := delete key (cache c); defaultTTL := defaultTTL c |})
      else (Some (data item), c)
  end.

(** [delete(key)]. *)
Definition delete (key : string) (c : t T) : bool * t T :=
  (bool_decide (is_Some (cache c !! key)),
   {| cache := base.delete key (cache c); defaultTTL := defaultTTL c |}).

(** [clear()]. *)
Definition clear (c : t T) : t T := {| cache := ∅; defaultTTL := defaultTTL c |}.

(** [cleanup()], the sweep the constructor schedules every minute. *)
Definition cleanup (now : Z) (c : t T) : t T :=
  {| cache := filter (fun kv => ¬ (expireTime kv.2 < now)%Z) (cache c);
     defaultTTL := defaultTTL c |}.

(** [has(key)] at time [now]: an expired entry is deleted and absent. *)
Definition has (now : Z) (key : string) (c : t T) : bool * t T :=
  match cache c !! key with
  | None => (false, c)
  | Some item =>
      if (expireTime item <? now)%Z
      then (false, {| cache := base.delete key (cache c); defaultTTL := defaultTTL c |})
      else (true, c)
  end.

(** The loop of [getStats()]: one more for every entry past its expiry. *)
Definition countExpired (now : Z) (c : t T) : Z :=
  map_fold (fun _ item expiredKeys =>
              if (expireTime item <? now)%Z then (expiredKeys + 1)%Z else expiredKeys)
    0%Z (cache c).

(** [getStats()] at time [now], without the heap usage of the process:
    [totalKeys] and [expiredKeys]. *)
Definition getStats (now : Z) (c : t T) : Z * Z :=
  (Z.of_nat (base.size (cache c)), countExpired now c).
End Operations.

(** The static key builders. *)
Definition getConnectionTestKey (email server : string) (port : Z) : string :=
  "connection_test:" +:+ email +:+ ":" +:+ server +:+ ":" +:+ Js.toString port.

Definition getEmailFetchKey (email mailbox : string) (limit : Z)
    (from since : option string) : string :=
  let params := [email; mailbox; Js.toString limit] in
  let params :=
    if Js.truthy_opt from then params ++ ["from:" +:+ Js.or_else from ""] else params in
  let params :=
    if Js.truthy_opt since then params ++ ["since:" +:+ Js.or_else since ""] else params in
  "email_fetch:" +:+ Js.join ":" params.

Definition getInvoiceDetectionKey (emailId : string) : string :=
  "invoice_detection:" +:+ emailId.

Definition getInvoiceKeywordsKey : string := "invoice_keywords".

End CacheService.

(** ** Results, the world and the monad of asynchronous methods *)

Record EmailFetchResult := {
  success : bool;
  emails : option (list EmailMessage);
  total : Z;
  message : string;
}.

Record Scores := {
  sc_subject : Q;
  sc_sender : Q;
  sc_content : Q;
  sc_attachment : Q;
}.

(** What [detectSingleInvoice] resolves to. *)
Record Detection := {
  emailId : string;
  email : EmailMessage;
  isInvoice : bool;
  confidence : Q;
  scores : Scores;
  invoiceInfo : option InvoiceInfo;
  detectedAt : Z;
  error : option string;
}.

Inductive ConnectionStatus :=
| DISCONNECTED | CONNECTING | CONNECTED | AUTHENTICATED | ERROR.

Inductive LogLevel := LogError | LogWarn.

(** A record written by [logger.error] or [logger.warn]; the records of
    [logger.info] and [logger.debug] are not kept. *)
Record LogRecord := {
  level : LogLevel;
  text : string;
  meta : list (string * string);
}.

Record World := {
  (** [Date.now()]. *)
  clock : Z;
  (** How many identifiers [uuidv4()] has handed out. *)
  uuids : nat;
  (** The error [fs.writeFile] fails with, [None] when writes succeed. *)
  disk_failure : option string;
  (** The paths of the files written so far. *)
  files : list string;
  logs : list LogRecord;
  (** The [cacheService] exported by CacheService.ts, at the keys
      [email_fetch:...] that [fetchEmails] writes. *)
  emailCache : CacheService.t EmailFetchResult;
  (** The [cacheService] constructed in InvoiceService.ts, at the keys
      [invoice_detection:...] that [detectSingleInvoice] reads and writes. *)
  invoiceCache : CacheService.t Detection;
  (** The fields of the [EmailService] instance; a handle is [true] when the
      client object is present and [false] when it is [null]. *)
  imap_handle : bool;
  pop3_handle : bool;
  currentProtocol : EmailProtocol;
  connectionStatus : ConnectionStatus;
}.

Module Async.

Inductive Outcome (A : Type) : Type :=
| Return (a : A)
| Throw (message : string).
Arguments Return {A} a.
Arguments Throw {A} message.

Definition M (A : Type) : Type := World -> Outcome A * World.

Definition ret {A} (a : A) : M A := fun w => (Return a, w).

Definition throw {A} (message : string) : M A := fun w => (Throw message, w).

Definition bind {A B} (m : M A) (k : A -> M B) : M B :=
  fun w =>
    match m w with
    | (Return a, w') => k a w'
    | (Throw e, w') => (Throw e, w')
    end.

(** [try { m } catch (error) { handler(error.message) }]. *)
Definition try_catch {A} (m : M A) (handler : string -> M A) : M A :=
  fun w =>
    match m w with
    | (Return a, w') => (Return a, w')
    | (Throw e, w') => handler e w'
    end.

(** An awaited library call that resolves or rejects. *)
Definition await {A} (r : Js.Result A) : M A :=
  match r with
  | Js.Ok a => ret a
  | Js.Err e => throw e
  end.

Definition update (f : World -> World) : M unit := fun w => (Return tt, f w).

Definition read {A} (f : World -> A) : M A := fun w => (Return (f w), w).

End Async.

Import Async.

Notation "'let*' x ':=' m 'in' k" := (bind m (fun x => k))
  (at level 10, x binder, m at level 100, k at level 200).
Notation "m ';;' k" := (bind m (fun _ => k))
  (at level 100, k at level 200, right associativity).

(** *** Primitive effects *)

Definition set_clock (t : Z) (w : World) : World :=
  {| clock := t; uuids := uuids w; disk_failure := disk_failure w; files := files w;
     logs := logs w; emailCache := emailCache w; invoiceCache := invoiceCache w;
     imap_handle := imap_handle w; pop3_handle := pop3_handle w; currentProtocol := currentProtocol w;
     connectionStatus := connectionStatus w |}.

Definition set_uuids (n : nat) (w : World) : World :=
  {| clock := clock w; uuids := n; disk_failure := disk_failure w; files := files w;
     logs := logs w; emailCache := emailCache w; invoiceCache := invoiceCache w;
     imap_handle := imap_handle w; pop3_handle := pop3_handle w; currentProtocol := currentProtocol w;
     connectionStatus := connectionStatus w |}.

Definition set_files (fs : list string) (w : World) : World :=
  {| clock := clock w; uuids := uuids w; disk_failure := disk_failure w; files := fs;
     logs := logs w; emailCache := emailCache w; invoiceCache := invoiceCache w;
     imap_handle := imap_handle w; pop3_handle := pop3_handle w; currentProtocol := currentProtocol w;
     connectionStatus := connectionStatus w |}.

Definition set_logs (l : list LogRecord) (w : World) : World :=
  {| clock := clock w; uuids := uuids w; disk_failure := disk_failure w; files := files w;
     logs := l; emailCache := emailCache w; invoiceCache := invoiceCache w;
     imap_handle := imap_handle w; pop3_handle := pop3_handle w; currentProtocol := currentProtocol w;
     connectionStatus := connectionStatus w |}.

Definition set_emailCache (c : CacheService.t EmailFetchResult) (w : World) : World :=
  {| clock := clock w; uuids := uuids w; disk_failure := disk_failure w; files := files w;
     logs := logs w; emailCache := c; invoiceCache := invoiceCache w;
     imap_handle := imap_handle w; pop3_handle := pop3_handle w; currentProtocol := currentProtocol w;
     connectionStatus := connectionStatus w |}.

Definition set_invoiceCache (c : CacheService.t Detection) (w : World) : World :=
  {| clock := clock w; uuids := uuids w; disk_failure := disk_failure w; files := files w;
     logs := logs w; emailCache := emailCache w; invoiceCache := c;
     imap_handle := imap_handle w; pop3_handle := pop3_handle w; currentProtocol := currentProtocol w;
     connectionStatus := connectionStatus w |}.

(** The connection fields of the [EmailService] instance. *)
Definition set_connection (i p : bool) (proto : EmailProtocol) (st : ConnectionStatus)
    (w : World) : World :=
  {| clock := clock w; uuids := uuids w; disk_failure := disk_failure w; files := files w;
     logs := logs w; emailCache := emailCache w; invoiceCache := invoiceCache w;
     imap_handle := i; pop3_handle := p; currentProtocol := proto; connectionStatus := st |}.

Section Effects.
Context `{JsRuntime}.

(** [uuidv4()]. *)
Definition uuidv4 : M string :=
  fun w => (Return (uuid_text (uuids w)), set_uuids (S (uuids w)) w).

(** [Date.now()] and [new Date()]. *)
Definition Date_now : M Z := read clock.

Definition logger_error (msg : string) (fields : list (string * string)) : M unit :=
  update (fun w => set_logs (logs w ++ [{| level := LogError; text := msg; meta := fields |}]) w).

Definition logger_warn (msg : string) (fields : list (string * string)) : M unit :=
  update (fun w => set_logs (logs w ++ [{| level := LogWarn; text := msg; meta := fields |}]) w).

(** [DataService.writeJsonFile]: logs and rethrows when the write fails. *)
Definition writeJsonFile (filePath : string) : M unit :=
  fun w =>
    match disk_failure w with
    | None => (Return tt, set_files (files w ++ [filePath]) w)
    | Some e =>
        (logger_error ("写入文件失败: " +:+ filePath) [("error", e)];; throw e) w
    end.

End Effects.

(** ** DataService.ts: the keyword configuration *)

Module DataService.

(** [getInvoiceKeywords()] resolves to a literal. *)
Definition getInvoiceKeywords : Js.Result InvoiceKeywords :=
  Js.Ok
    {| chinese :=
         {| subjects := ["发票"; "电子发票"; "增值税发票"];
            senders := ["财务"; "会计"; "开票"];
            amounts := ["金额"; "总计"; "合计"];
            companies := ["有限公司"; "股份有限公司"; "集团"] |};
       english :=
         {| subjects := ["invoice"; "bill"; "receipt"];
            senders := ["finance"; "accounting"; "billing"];
            amounts := ["amount"; "total"; "sum"];
            companies := ["Ltd."; "Inc."; "Corp."] |} |}.

(** [updateInvoiceKeywords(_keywords)] ignores its argument and resolves. *)
Definition updateInvoiceKeywords (_keywords : InvoiceKeywords) : Js.Result unit :=
  Js.Ok tt.

End DataService.

(** ** InvoiceService.ts *)

Module InvoiceService.
Section Analyzers.
Context `{JsRuntime}.
Local Open Scope Q_scope.

(** The fields of an [InvoiceService] instance the analyzers read. *)
Record t := {
  keywords : InvoiceKeywords;
  patterns : InvoicePatterns;
  scoreWeights : InvoiceScoreWeights;
  confidenceThreshold : Q;
}.

(** [getDefaultKeywords()]. *)
Definition getDefaultKeywords : InvoiceKeywords :=
  {| chinese :=
       {| subjects := ["发票"; "电子发票"; "增值税发票"];
          senders := ["财务"; "会计"; "开票"];
          amounts := ["金额"; "总计"; "合计"];
          companies := ["有限公司"; "股份有限公司"; "集团"] |};
     english :=
       {| subjects := ["invoice"; "bill"; "receipt"];
          senders := ["finance"; "accounting"; "billing"];
          amounts := ["amount"; "total"; "sum"];
          companies := ["Ltd."; "Inc."; "Corp."] |} |}.

(** The literals of the constructor: [this.confidenceThreshold = 0.3] and
    [this.scoreWeights = { subject: 0.5, sender: 0.2, content: 0.1,
    attachment: 0.2 }]. *)
Definition defaultConfidenceThreshold : Q := 0.3.

Definition defaultScoreWeights : InvoiceScoreWeights :=
  {| w_subject := 0.5; w_sender := 0.2; w_content := 0.1; w_attachment := 0.2 |}.

(** An instance with the constructor's threshold and weights.  The five
    regular expressions are literals of the constructor; they are passed in
    as [pats]. *)
Definition configured (kw : InvoiceKeywords) (pats : InvoicePatterns) : t :=
  {| keywords := kw;
     patterns := pats;
     scoreWeights := defaultScoreWeights;
     confidenceThreshold := defaultConfidenceThreshold |}.

(** The constructor, which takes the default keywords. *)
Definition new (pats : InvoicePatterns) : t := configured getDefaultKeywords pats.

(** [for (const k of ks) { if (hit(k)) score += inc }]. *)
Definition add_each (hit : string -> bool) (inc : Q) (ks : list string) (score : Q) : Q :=
  fold_left (fun sc k => if hit k then sc + inc else sc) ks score.

(** [for (const k of ks) { if (hit(k)) { score += inc; break } }]. *)
Definition add_first (hit : string -> bool) (inc : Q) (ks : list string) (score : Q) : Q :=
  if existsb hit ks then score + inc else score.

Definition commonInvoiceKeywords : list string :=
  ["发票"; "电子发票"; "增值税发票"; "invoice"; "bill"; "receipt"].

Definition analyzeSubject (svc : t) (subject : string) : Q :=
  if negb (Js.truthy subject) then 0
  else
    let subjectLower := toLowerCase subject in
    let score := 0 in
    let score :=
      add_each (fun keyword => Js.includes subject keyword) 0.5
        (subjects (chinese (keywords svc))) score in
    let score :=
      add_each (fun keyword => Js.includes subjectLower (toLowerCase keyword)) 0.4
        (subjects (english (keywords svc))) score in
    let score :=
      add_first (fun keyword => Js.includes subject keyword
                                || Js.includes subjectLower (toLowerCase keyword)) 0.6
        commonInvoiceKeywords score in
    Qmin score 1.0.

Definition invoiceDomains : list string :=
  ["tax.gov.cn"; "chinatax.gov.cn"; "taobao.com"; "tmall.com";
   "jd.com"; "invoice"; "billing"; "finance"].

Definition analyzeSender (svc : t) (sender : string) : Q :=
  if negb (Js.truthy sender) then 0
  else
    let senderLower := toLowerCase sender in
    let score := 0 in
    let allSenderKeywords :=
      senders (chinese (keywords svc)) ++ senders (english (keywords svc)) in
    let score :=
      add_each (fun keyword => Js.includes senderLower (toLowerCase keyword)) 0.4
        allSenderKeywords score in
    let score :=
      add_first (fun domain => Js.includes senderLower domain) 0.6
        invoiceDomains score in
    Qmin score 1.0.

Definition analyzeContent (svc : t) (content : string) : Q :=
  if negb (Js.truthy content) then 0
  else
    let score := 0 in
    let contentLower := toLowerCase content in
    let score :=
      if Js.test (invoiceNumber (patterns svc)) content then score + 0.4 else score in
    let score :=
      if Js.test (amount (patterns svc)) content then score + 0.3 else score in
    let score :=
      if Js.test (taxNumber (patterns svc)) content then score + 0.2 else score in
    let score :=
      if Js.test (date (patterns svc)) content then score + 0.2 else score in
    let score :=
      if Js.test (company (patterns svc)) content then score + 0.1 else score in
    let allAmountKeywords :=
      amounts (chinese (keywords svc)) ++ amounts (english (keywords svc)) in
    let score :=
      add_first (fun keyword => Js.includes content keyword
                                || Js.includes contentLower (toLowerCase keyword)) 0.1
        allAmountKeywords score in
    Qmin score 1.0.

Definition invoiceFilenames : list string :=
  ["invoice"; "bill"; "receipt"; "发票"; "账单"; "收据"].

(** The body of the loop over the attachments of [analyzeAttachments]. *)
Definition scoreAttachment (score : Q) (attachment : EmailAttachment) : Q :=
  let filename := Js.or_else (toLowerCase <$> att_filename attachment) "" in
  let contentType := Js.or_else (toLowerCase <$> att_contentType attachment) "" in
  let score :=
    if Js.includes contentType "pdf" || Js.endsWith filename ".pdf"
    then score + 0.8 else score in
  let score :=
    add_first (fun keyword => Js.includes filename (toLowerCase keyword)) 0.6
      invoiceFilenames score in
  let score :=
    if Js.includes contentType "word" || Js.includes contentType "excel"
       || Js.endsWith filename ".doc" || Js.endsWith filename ".docx"
       || Js.endsWith filename ".xls" || Js.endsWith filename ".xlsx"
    then score + 0.3 else score in
  score.

Definition analyzeAttachments (email : EmailMessage) : Q :=
  match em_attachments email with
  | None => 0
  | Some attachments =>
      if negb (em_hasAttachments email) || (length attachments =? 0)%nat then 0
      else Qmin (fold_left scoreAttachment attachments 0) 1.0
  end.

(** The weighted sum both detection paths compute. *)
Definition totalScore (svc : t) (email : EmailMessage) : Q :=
  analyzeSubject svc (em_subject email) * w_subject (scoreWeights svc) +
  analyzeSender svc (em_from email) * w_sender (scoreWeights svc) +
  analyzeContent svc (em_body email) * w_content (scoreWeights svc) +
  analyzeAttachments email * w_attachment (scoreWeights svc).

End Analyzers.

Section Detection.
Context `{JsRuntime}.
(** The imported [config]. *)
Context (config : Config.t).
Local Open Scope Q_scope.

(** [x >= t] on numbers, false when [t] is NaN. *)
Definition num_ge (x : Q) (t : option Q) : bool :=
  match t with Some t => Qle_bool t x | None => false end.

(** [s.replace(/,/g, '')]. *)
Fixpoint remove_commas (s : string) : string :=
  match s with
  | EmptyString => EmptyString
  | String c s' =>
      if Ascii.eqb c ","%char then remove_commas s' else String c (remove_commas s')
  end.

(** [a || b] where both may be undefined. *)
Definition first_truthy (a b : option string) : option string :=
  if Js.truthy_opt a then a else b.

Definition extractInvoiceInfo (svc : t) (email : EmailMessage) (confidenceScore : Q)
    : M InvoiceInfo :=
  let content := em_subject email +:+ " " +:+ em_body email in
  let invoiceNumberMatch := Js.exec (invoiceNumber (patterns svc)) content in
  let invoiceNumber :=
    match invoiceNumberMatch with
    | Some m => first_truthy (Js.group m 1) (Js.group m 2)
    | None => None
    end in
  let amountMatch := Js.exec (amount (patterns svc)) content in
  let amount :=
    match amountMatch with
    | Some m =>
        if Js.truthy_opt (Js.group m 1)
        then parseFloat (remove_commas (Js.or_else (Js.group m 1) ""))
        else None
    | None => None
    end in
  let dateMatch := Js.exec (date (patterns svc)) content in
  let invoiceDate :=
    match dateMatch with
    | Some m => Some (Js.group m 1 ≫= moment_invoiceDate)
    | None => None
    end in
  let companyMatches := Js.exec (company (patterns svc)) content in
  let issuer :=
    match companyMatches with
    | Some m => Js.group m 0
    | None => None
    end in
  let* createdAt := Date_now in
  let* probe := uuidv4 in
  let* id := (if Js.truthy probe then let* u := uuidv4 in ret (Some u) else ret None) in
  let amount_set :=
    match amount with
    | Some a => negb (Qeq_bool a 0)
    | None => false
    end in
  ret {| ii_id := id;
         ii_emailId := Some (em_id email);
         ii_invoiceNumber := if Js.truthy_opt invoiceNumber then invoiceNumber else None;
         ii_amount := if amount_set then amount else None;
         ii_currency := if amount_set then Some "CNY"%string else None;
         ii_invoiceDate := invoiceDate;
         ii_issuer := if Js.truthy_opt issuer then issuer else None;
         ii_confidenceScore := Some confidenceScore;
         ii_createdAt := Some createdAt |}.

(** [DataService.saveInvoiceInfo]: the record is written only when local
    storage is enabled; a failed write is rethrown. *)
Definition saveInvoiceInfo (info : InvoiceInfo) (emailId : string) : M string :=
  let* invoiceId := uuidv4 in
  if negb (Config.enableLocalStorage config) then ret invoiceId
  else
    let fileName := "invoice_" +:+ invoiceId +:+ ".json" in
    writeJsonFile ("invoices/" +:+ fileName);;
    ret invoiceId.

Definition cache_get (key : string) : M (option Detection) :=
  fun w =>
    let '(r, c) := CacheService.get (clock w) key (invoiceCache w) in
    (Return r, set_invoiceCache c w).

Definition cache_set (key : string) (d : Detection) (ttl : Z) : M unit :=
  update (fun w =>
    set_invoiceCache (CacheService.set (clock w) key d (Some ttl) (invoiceCache w)) w).

Definition detectSingleInvoice (svc : t) (email : EmailMessage) : M Detection :=
  let cacheKey := CacheService.getInvoiceDetectionKey (em_id email) in
  let* cachedResult := cache_get cacheKey in
  match cachedResult with
  | Some cached => ret cached
  | None =>
      try_catch
        (let subjectScore := analyzeSubject svc (em_subject email) in
         let senderScore := analyzeSender svc (em_from email) in
         let contentScore := analyzeContent svc (em_body email) in
         let attachmentScore := analyzeAttachments email in
         let totalScore :=
           subjectScore * w_subject (scoreWeights svc) +
           senderScore * w_sender (scoreWeights svc) +
           contentScore * w_content (scoreWeights svc) +
           attachmentScore * w_attachment (scoreWeights svc) in
         let isInvoice := Qle_bool (confidenceThreshold svc) totalScore in
         let* invoiceInfo :=
           (if isInvoice
            then
              let* info := extractInvoiceInfo svc email totalScore in
              saveInvoiceInfo info (em_id email);;
              ret (Some info)
            else ret None) in
         let* now := Date_now in
         let result :=
           {| emailId := em_id email;
              email := email;
              isInvoice := isInvoice;
              confidence := totalScore;
              scores := {| sc_subject := subjectScore; sc_sender := senderScore;
                           sc_content := contentScore; sc_attachment := attachmentScore |};
              invoiceInfo := invoiceInfo;
              detectedAt := now;
              error := None |} in
         cache_set cacheKey result (30 * 60 * 1000);;
         ret result)
        (fun error_message =>
           logger_error "发票检测失败" [("emailId", em_id email); ("error", error_message)];;
           let* now := Date_now in
           let result :=
             {| emailId := em_id email;
                email := email;
                isInvoice := false;
                confidence := 0;
                scores := {| sc_subject := 0; sc_sender := 0;
                             sc_content := 0; sc_attachment := 0 |};
                invoiceInfo := None;
                detectedAt := now;
                error := Some error_message |} in
           cache_set cacheKey result (5 * 60 * 1000);;
           ret result)
  end.

(** What the private [analyzeEmail] resolves to. *)
Record Analysis := {
  an_isInvoice : bool;
  an_confidenceScore : Q;
  an_invoiceInfo : InvoiceInfo;
}.

Definition analyzeEmail (svc : t) (email : EmailMessage) : M Analysis :=
  let subjectScore := analyzeSubject svc (em_subject email) in
  let senderScore := analyzeSender svc (em_from email) in
  let contentScore := analyzeContent svc (em_body email) in
  let attachmentScore := analyzeAttachments email in
  let confidenceScore :=
    subjectScore * w_subject (scoreWeights svc) +
    senderScore * w_sender (scoreWeights svc) +
    contentScore * w_content (scoreWeights svc) +
    attachmentScore * w_attachment (scoreWeights svc) in
  let* invoiceInfo := extractInvoiceInfo svc email confidenceScore in
  ret {| an_isInvoice := num_ge confidenceScore (Config.confidenceThreshold config);
         an_confidenceScore := confidenceScore;
         an_invoiceInfo := invoiceInfo |}.

(** What [detectInvoices] resolves to (InvoiceDetectionResult). *)
Record InvoiceDetail := {
  d_emailId : string;
  d_isInvoice : bool;
  d_subject : string;
  d_confidence : Q;
}.

Record InvoiceDetectionResult := {
  dr_invoices : list EmailMessage;
  dr_count : Z;
  dr_details : list InvoiceDetail;
}.

(** [email.isInvoice = true]. *)
Definition mark_invoice (email : EmailMessage) : EmailMessage :=
  {| em_id := em_id email;
     em_messageId := em_messageId email;
     em_from := em_from email;
     em_to := em_to email;
     em_subject := em_subject email;
     em_title := em_title email;
     em_body := em_body email;
     em_content := em_content email;
     em_date := em_date email;
     em_hasAttachments := em_hasAttachments email;
     em_attachments := em_attachments email;
     em_isInvoice := Some true;
     em_createdAt := em_createdAt email |}.

(** The loop of [detectInvoices]. *)
Fixpoint detect_each (svc : t) (emails invoiceEmails : list EmailMessage)
    : M (list EmailMessage) :=
  match emails with
  | [] => ret invoiceEmails
  | email :: rest =>
      let* detection := analyzeEmail svc email in
      if an_isInvoice detection
         && num_ge (an_confidenceScore detection) (Config.confidenceThreshold config)
      then detect_each svc rest (invoiceEmails ++ [mark_invoice email])
      else detect_each svc rest invoiceEmails
  end.

Definition detectInvoices (svc : t) (emails : list EmailMessage)
    : M InvoiceDetectionResult :=
  try_catch
    (let* invoiceEmails := detect_each svc emails [] in
     let details :=
       (fun email =>
          {| d_emailId := em_id email; d_isInvoice := true;
             d_subject := em_subject email; d_confidence := 0.8 |})
       <$> invoiceEmails in
     ret {| dr_invoices := invoiceEmails;
            dr_count := Z.of_nat (length invoiceEmails);
            dr_details := details |})
    (fun error_message =>
       logger_error "发票检测失败" [("error", error_message)];;
       ret {| dr_invoices := []; dr_count := 0; dr_details := [] |}).

End Detection.

(** *** The keyword configuration

    The module's [cacheService] holds the detection results under
    [invoice_detection:...] (the [invoiceCache] of the world) and the keyword
    configuration under [invoice_keywords]; the latter entry is passed
    explicitly. *)
Section Keywords.

Definition KeywordCache : Type := CacheService.t InvoiceKeywords.

(** [getKeywords()]. *)
Definition getKeywords (svc : t) : InvoiceKeywords := keywords svc.

Definition getInvoiceKeywords (c : KeywordCache) : M (InvoiceKeywords * KeywordCache) :=
  let cacheKey := CacheService.getInvoiceKeywordsKey in
  let* now := Date_now in
  let found := CacheService.get now cacheKey c in
  match found.1 with
  | Some cachedKeywords => ret (cachedKeywords, found.2)
  | None =>
      try_catch
        (let* keywords := await DataService.getInvoiceKeywords in
         let* now := Date_now in
         ret (keywords,
              CacheService.set now cacheKey keywords (Some (10 * 60 * 1000)%Z) found.2))
        (fun error_message =>
           logger_warn "读取发票关键词配置失败，使用默认配置" [("error", error_message)];;
           let defaultKeywords := getDefaultKeywords in
           let* now := Date_now in
           ret (defaultKeywords,
                CacheService.set now cacheKey defaultKeywords (Some (5 * 60 * 1000)%Z) found.2))
  end.

Definition updateInvoiceKeywords (keywords : InvoiceKeywords) (c : KeywordCache)
    : M KeywordCache :=
  try_catch
    (await (DataService.updateInvoiceKeywords keywords);;
     ret (CacheService.delete CacheService.getInvoiceKeywordsKey c).2)
    (fun error_message =>
       logger_error "更新发票关键词配置失败" [("error", error_message)];;
       throw error_message).

End Keywords.

(** *** Statistics over extracted invoices *)
Section Statistics.
Local Open Scope Q_scope.

(** What [getInvoiceStats] returns.  [dateRange] is [None] for the empty
    object, else its [start] and [end]; a date is [None] when it is an
    invalid [Date]. *)
Record InvoiceStats := {
  totalCount : Z;
  totalAmount : Q;
  averageConfidence : Q;
  dateRange : option (option Z * option Z);
}.

(** [a.getTime() - b.getTime() <= 0].  The difference is NaN when a date is
    invalid, which the sort takes for 0; the comparator is then not
    consistent and the order of the engine is implementation-defined, so the
    sort below is the source's only on lists of valid dates. *)
Definition date_le (a b : option Z) : bool :=
  match a, b with
  | Some x, Some y => (x <=? y)%Z
  | _, _ => true
  end.

Fixpoint insert_date (d : option Z) (sorted : list (option Z)) : list (option Z) :=
  match sorted with
  | [] => [d]
  | x :: rest => if date_le d x then d :: x :: rest else x :: insert_date d rest
  end.

(** [dates.sort((a, b) => a.getTime() - b.getTime())]: the stable sort,
    oldest first. *)
Definition sort_dates (l : list (option Z)) : list (option Z) :=
  foldr insert_date [] l.

Definition getInvoiceStats (invoices : list InvoiceInfo) : InvoiceStats :=
  if (length invoices =? 0)%nat
  then {| totalCount := 0; totalAmount := 0; averageConfidence := 0; dateRange := None |}
  else
    let totalAmount :=
      fold_left (fun sum invoice => sum + default 0 (ii_amount invoice)) invoices 0 in
    let averageConfidence :=
      fold_left (fun sum invoice => sum + default 0 (ii_confidenceScore invoice)) invoices 0
      / inject_Z (Z.of_nat (length invoices)) in
    let dates := sort_dates (omap ii_invoiceDate invoices) in
    {| totalCount := Z.of_nat (length invoices);
       totalAmount := totalAmount;
       averageConfidence := averageConfidence;
       dateRange :=
         match dates with
         | [] => None
         | first :: _ => Some (first, default first (last dates))
         end |}.

End Statistics.
End InvoiceService.

(** ** EmailService.ts *)

Record EmailQueryParams := {
  email_address : string;
  password : string;
  imap_server : string;
  port : Z;
  use_ssl : bool;
  mail_box : option string;
  protocol : option EmailProtocol;
  limit : option Z;
  q_from : option string;
  q_since : option string;
  q_to : option string;
}.

(** What mailparser's [simpleParser] resolves to, as far as the service
    reads it. *)
Record AddressEntry := { address : option string; addr_text : option string }.

Inductive AddressInfo :=
| AddrUndefined
| AddrArray (entries : list AddressEntry)
| AddrObject (entry : AddressEntry)
| AddrOther (shown : string).

Record ParsedAttachment := {
  pa_filename : option string;
  pa_contentType : string;
  pa_size : Z;
}.

Record ParsedMail := {
  pm_attachments : option (list ParsedAttachment);
  pm_subject : option string;
  pm_text : option string;
  pm_html : option string;
  pm_from : AddressInfo;
  pm_to : AddressInfo;
  pm_date : option Z;
  pm_messageId : option string;
}.

(** An IMAP search criterion as [buildSearchCriteria] builds it; the date of
    [SINCE] is [None] when it is an invalid [Date]. *)
Inductive SearchCriterion :=
| ALL
| FROM (sender : string)
| TO (recipient : string)
| SINCE (day : option Z).

(** The [returnValue] argument of poplib's [list] event. *)
Inductive ListValue :=
| LvArray (items : list (option string))
| LvObject (fields : list (string * string))
| LvOther.

(** What follows [pop3.list()]: an [error] event, or a [list] event with its
    [resp], [returnValue] and [data] (as the string [dataStr]). *)
Inductive ListEvent :=
| ListError (message : string)
| ListResponse (resp : bool) (returnValue : ListValue) (data : string).

(** What follows a connection attempt. *)
Inductive ConnectEvent :=
| ConnectReady
| ConnectAuthFailed (data : string)
| ConnectError (message : string).

(** When the promise of [simpleParser] settles for a message of an IMAP
    fetch, whose [end] handler starts the parse without anything waiting for
    it: before the [end] event of the fetch; after that event but before
    [fetchEmailsIMAP] goes on from its [await]; while [fetchEmailsIMAP]
    disconnects and saves; or after [fetchEmailsIMAP] has returned. *)
Inductive Settles := BeforeEnd | BeforeResume | BeforeResult | Afterwards.

Definition same_stage (a b : Settles) : bool :=
  match a, b with
  | BeforeEnd, BeforeEnd | BeforeResume, BeforeResume
  | BeforeResult, BeforeResult | Afterwards, Afterwards => true
  | _, _ => false
  end.

(** The mail server and the MIME parser, as the service observes them. *)
Record MailServer := {
  srv_connect : EmailProtocol -> EmailQueryParams -> ConnectEvent;
  srv_openBox : string -> Js.Result unit;
  (** [imap.search]: the UIDs of the matches, oldest first. *)
  srv_search : list SearchCriterion -> Js.Result (list Z);
  (** [imap.fetch]: the sequence number and body of each [message] event,
      in the order in which the parses of the messages settle, or the
      [error] event. *)
  srv_fetch : list Z -> Js.Result (list (Z * string));
  (** When the parse of a fetched message settles. *)
  srv_settles : Z * string -> Settles;
  srv_list : ListEvent;
  (** The [retr] event: the content, or the raw data of a failed status. *)
  srv_retr : option Z -> Js.Result string;
  simpleParser : string -> Js.Result ParsedMail;
}.

(** An entry of the POP3 [emailList]; [None] is NaN. *)
Record ListEntry := { msgNumber : option Z; size : option Z }.

(** What [testConnection] resolves to (ConnectionTestResult). *)
Record ConnectionTestResult := {
  ct_success : bool;
  ct_message : string;
  ct_server : string;
  ct_port : Z;
  ct_ssl : bool;
}.

Module EmailService.
Section Methods.
Context `{JsRuntime}.
Context (config : Config.t).
Context (srv : MailServer).

(** The text of a number in a template string. *)
Definition num_text (n : option Z) : string :=
  match n with Some v => Js.toString v | None => "NaN" end.

Definition status (st : ConnectionStatus) : M unit :=
  update (fun w => set_connection (imap_handle w) (pop3_handle w) (currentProtocol w) st w).

Definition connectIMAP (emailConfig : EmailQueryParams) : M unit :=
  update (fun w => set_connection true (pop3_handle w) IMAP CONNECTED w);;
  match srv_connect srv IMAP emailConfig with
  | ConnectReady => status AUTHENTICATED
  | ConnectAuthFailed e | ConnectError e =>
      status ERROR;;
      logger_error "IMAP连接错误" [("email", email_address emailConfig); ("error", e)];;
      throw e
  end.

Definition connectPOP3 (emailConfig : EmailQueryParams) : M unit :=
  update (fun w => set_connection (imap_handle w) true POP3 CONNECTING w);;
  match srv_connect srv POP3 emailConfig with
  | ConnectReady => status CONNECTED;; status AUTHENTICATED
  | ConnectAuthFailed d =>
      status CONNECTED;;
      status ERROR;;
      logger_error "POP3认证失败" [("email", email_address emailConfig); ("data", d)];;
      throw ("POP3认证失败: " +:+ d)
  | ConnectError e =>
      status ERROR;;
      logger_error "POP3连接错误" [("email", email_address emailConfig); ("error", e)];;
      throw e
  end.

Definition disconnectIMAP : M unit :=
  update (fun w =>
    if imap_handle w
    then set_connection false (pop3_handle w) (currentProtocol w) DISCONNECTED w
    else w).

Definition disconnectPOP3 : M unit :=
  update (fun w =>
    if pop3_handle w
    then set_connection (imap_handle w) false (currentProtocol w) DISCONNECTED w
    else w).

Definition disconnect : M unit :=
  let* proto := read currentProtocol in
  match proto with
  | POP3 => disconnectPOP3
  | IMAP => disconnectIMAP
  end.

(** [extractEmailAddress]. *)
Definition entry_text (e : AddressEntry) : string :=
  if Js.truthy_opt (address e) then Js.or_else (address e) ""
  else Js.or_else (addr_text e) "".

Definition extractEmailAddress (addressInfo : AddressInfo) : string :=
  match addressInfo with
  | AddrUndefined => ""
  | AddrArray entries => Js.join ", " (entry_text <$> entries)
  | AddrObject e => entry_text e
  | AddrOther s => s
  end.

(** [parseEmailMessage(parsed, seqno)]; [id] is the value of [uuidv4()]
    and [now] the value of [new Date()]. *)
Definition parseEmailMessage (id : string) (now : Z) (parsed : ParsedMail)
    (seqno : option Z) : EmailMessage :=
  let attachments :=
    match pm_attachments parsed with
    | Some atts =>
        (fun attachment =>
           {| att_filename := Some (Js.or_else (pa_filename attachment) "unknown");
              att_contentType := Some (pa_contentType attachment);
              att_size := pa_size attachment |})
        <$> List.filter
              (fun attachment =>
                 (pa_size attachment <=? Config.attachmentSizeLimit config)%Z)
              atts
    | None => []
    end in
  let subject := Js.or_else (pm_subject parsed) "" in
  let body :=
    if Js.truthy_opt (pm_text parsed) then Js.or_else (pm_text parsed) ""
    else Js.or_else (pm_html parsed) "" in
  let from := extractEmailAddress (pm_from parsed) in
  let to := extractEmailAddress (pm_to parsed) in
  let date := match pm_date parsed with Some d => d | None => now end in
  let messageId := Js.or_else (pm_messageId parsed) ("seq-" +:+ num_text seqno) in
  {| em_id := id;
     em_messageId := messageId;
     em_from := from;
     em_to := to;
     em_subject := subject;
     em_title := subject;
     em_body := body;
     em_content := body;
     em_date := date;
     em_hasAttachments := negb (length attachments =? 0)%nat;
     em_attachments := Some attachments;
     em_isInvoice := None;
     em_createdAt := now |}.

(** [emails.sort((a, b) => b.date.getTime() - a.date.getTime())]: the
    stable sort, newest first. *)
Fixpoint insert_by_date (e : EmailMessage) (sorted : list EmailMessage)
    : list EmailMessage :=
  match sorted with
  | [] => [e]
  | x :: rest =>
      if (em_date x <=? em_date e)%Z then e :: x :: rest
      else x :: insert_by_date e rest
  end.

Definition sort_newest_first (l : list EmailMessage) : list EmailMessage :=
  foldr insert_by_date [] l.

(** The message built from one parsed mail. *)
Definition push_parsed (parsed : ParsedMail) (seqno : option Z)
    (emails : list EmailMessage) : M (list EmailMessage) :=
  let* id := uuidv4 in
  let* now := Date_now in
  ret (emails ++ [parseEmailMessage id now parsed seqno]).

(** *** The IMAP variant *)

Definition openBox (mailbox : string) : M unit :=
  let* connected := read imap_handle in
  if negb connected then throw "IMAP连接未建立"
  else await (srv_openBox srv mailbox).

Definition buildSearchCriteria (params : EmailQueryParams) : M (list SearchCriterion) :=
  let criteria := [ALL] in
  let criteria :=
    if Js.truthy_opt (q_from params)
    then criteria ++ [FROM (Js.or_else (q_from params) "")] else criteria in
  let criteria :=
    if Js.truthy_opt (q_to params)
    then criteria ++ [TO (Js.or_else (q_to params) "")] else criteria in
  let* criteria :=
    (if Js.truthy_opt (q_since params)
     then
       let sinceDate := startOfDay <$> moment_since (Js.or_else (q_since params) "") in
       ret (criteria ++ [SINCE sinceDate])
     else
       let* now := Date_now in
       let today := startOfDay now in
       ret (criteria ++ [SINCE (Some today)])) in
  ret (if (1 <? length criteria)%nat then Js.slice criteria 1 None else criteria).

Definition searchEmails (criteria : list SearchCriterion) : M (list Z) :=
  let* connected := read imap_handle in
  if negb connected then throw "IMAP连接未建立"
  else
    let* uids := await (srv_search srv criteria) in
    ret (reverse uids).

(** The handler of one fetched message: parse and push, or log and skip. *)
Definition onMessage (emails : list EmailMessage) (msg : Z * string)
    : M (list EmailMessage) :=
  let '(seqno, buffer) := msg in
  match simpleParser srv buffer with
  | Js.Ok parsed => push_parsed parsed (Some seqno) emails
  | Js.Err e =>
      logger_error "邮件解析失败" [("seqno", Js.toString seqno); ("error", e)];;
      ret emails
  end.

(** [for (const x of xs) { acc = await step(acc, x) }]. *)
Fixpoint for_each {A B} (step : B -> A -> M B) (xs : list A) (acc : B) : M B :=
  match xs with
  | [] => ret acc
  | x :: rest => let* acc' := step acc x in for_each step rest acc'
  end.

(** The fetched messages whose parse settles at [stage], in the order in
    which they settle. *)
Definition settling (stage : Settles) (messages : list (Z * string))
    : list (Z * string) :=
  List.filter (fun msg => same_stage (srv_settles srv msg) stage) messages.

(** [fetchEmailDetails]: the [end] handler of a message starts its parse
    and pushes the message once [simpleParser] has settled; the [end] event
    of the fetch sorts the array and resolves with it, whatever parses are
    pending.  The array then holds the messages parsed so far; the parses
    that settle later push onto that same array, so the method is taken to
    yield the array together with the fetched messages. *)
Definition fetchEmailDetails (uids : list Z)
    : M (list EmailMessage * list (Z * string)) :=
  let* connected := read imap_handle in
  if negb connected then throw "IMAP连接未建立"
  else
    let* messages := await (srv_fetch srv uids) in
    let* emails := for_each onMessage (settling BeforeEnd messages) [] in
    ret (sort_newest_first emails, messages).

(** [generateAccountId]: [email.replace(/[@.]/g, '_')]. *)
Fixpoint generateAccountId (email : string) : string :=
  match email with
  | EmptyString => EmptyString
  | String c rest =>
      String (if Ascii.eqb c "@"%char || Ascii.eqb c "."%char then "_"%char else c)
             (generateAccountId rest)
  end.

(** [DataService.saveEmails]. *)
Definition saveEmails (emails : list EmailMessage) (accountId : string) : M unit :=
  let* now := Date_now in
  let fileName := "emails_" +:+ accountId +:+ "_" +:+ Js.toString now +:+ ".json" in
  writeJsonFile ("emails/" +:+ fileName).

(** The block both variants share: save when local storage is enabled. *)
Definition saveIfEnabled (queryParams : EmailQueryParams) (emails : list EmailMessage)
    : M unit :=
  if Config.enableLocalStorage config
  then saveEmails emails (generateAccountId (email_address queryParams))
  else ret tt.

Definition cache_set (key : string) (r : EmailFetchResult) (ttl : Z) : M unit :=
  update (fun w =>
    set_emailCache (CacheService.set (clock w) key r (Some ttl) (emailCache w)) w).

Definition noMatch : EmailFetchResult :=
  {| success := true; message := "没有找到符合条件的邮件"; emails := Some []; total := 0 |}.

Definition fetched (emails : list EmailMessage) : EmailFetchResult :=
  {| success := true;
     message := "成功获取 " +:+ Js.toString (Z.of_nat (length emails)) +:+ " 封邮件";
     emails := Some emails;
     total := Z.of_nat (length emails) |}.

(** [emails.filter(email => moment(email.date).isSameOrAfter(t))]; an
    invalid [t] is the same or before nothing. *)
Definition sameOrAfter (t : option Z) (emails : list EmailMessage) : list EmailMessage :=
  List.filter
    (fun email => match t with Some t => (t <=? em_date email)%Z | None => false end)
    emails.

(** What [fetchEmailsIMAP] does with the array of [fetchEmailDetails]: the
    re-check of [since], then disconnect, save, cache and return.  The
    messages [pending] are those whose parse settles meanwhile: they are
    pushed onto the array of [fetchEmailDetails], which is the array the
    result holds when the request has no [since], and which [filter] has
    replaced by a new array when it has one.  A parse that settles after the
    return pushes onto the array once more; the result is taken as it is at
    the return. *)
Definition completeIMAP (queryParams : EmailQueryParams) (cacheKey : string)
    (emails : list EmailMessage) (pending : list (Z * string)) : M EmailFetchResult :=
  let filtered :=
    let sinceTime := moment_since (Js.or_else (q_since queryParams) "") in
    sameOrAfter sinceTime emails in
  disconnect;;
  let* array := for_each onMessage pending emails in
  let emails := if Js.truthy_opt (q_since queryParams) then filtered else array in
  saveIfEnabled queryParams emails;;
  let result := fetched emails in
  cache_set cacheKey result (3 * 60 * 1000);;
  ret result.

Definition fetchEmailsIMAP (queryParams : EmailQueryParams) (cacheKey : string)
    : M EmailFetchResult :=
  connectIMAP queryParams;;
  openBox (Js.or_else (mail_box queryParams) "INBOX");;
  let* searchCriteria := buildSearchCriteria queryParams in
  let* messageIds := searchEmails searchCriteria in
  if (length messageIds =? 0)%nat
  then
    disconnect;;
    cache_set cacheKey noMatch (2 * 60 * 1000);;
    ret noMatch
  else
    let limitedIds := Js.slice messageIds 0 (Some (Js.num_or (limit queryParams) 10)) in
    let* '(emails, messages) := fetchEmailDetails limitedIds in
    let* emails := for_each onMessage (settling BeforeResume messages) emails in
    completeIMAP queryParams cacheKey emails (settling BeforeResult messages).

(** *** The POP3 variant *)

(** [dataStr.split('\r\n')]; [cur] holds the current line, reversed. *)
Fixpoint split_crlf (s : string) (cur : string) : list string :=
  match s with
  | EmptyString => [String.rev cur]
  | String c rest =>
      match rest with
      | String c' rest' =>
          if Ascii.eqb c "013"%char && Ascii.eqb c' "010"%char
          then String.rev cur :: split_crlf rest' EmptyString
          else split_crlf rest (String c cur)
      | EmptyString => split_crlf rest (String c cur)
      end
  end.

Definition parsePOP3List (rawData : string) : M (list ListEntry) :=
  if negb (Js.truthy rawData)
  then logger_warn "parsePOP3List: invalid dataStr" [("dataStr", rawData)];; ret []
  else
    let lines := split_crlf rawData EmptyString in
    ret (omap
           (fun line =>
              match match_list_line line with
              | Some (number, bytes) =>
                  Some {| msgNumber := parseInt (Js.or_else (Some number) "0");
                          size := parseInt (Js.or_else (Some bytes) "0") |}
              | None => None
              end)
           lines).

(** The three ways the [list] handler reads the message list. *)
Definition decodeList (returnValue : ListValue) (data : string) : M (list ListEntry) :=
  match returnValue with
  | LvArray items =>
      ret (omap id
             (imap (fun index size =>
                      if (index =? 0)%nat || negb (Js.truthy_opt size) then None
                      else Some {| msgNumber := Some (Z.of_nat index);
                                   size := Some (Js.num_or (parseInt (Js.or_else size "")) 0) |})
                   items))
  | LvObject fields =>
      ret ((fun kv => {| msgNumber := parseInt kv.1; size := parseInt kv.2 |}) <$> fields)
  | LvOther => parsePOP3List data
  end.

Definition retrievePOP3Email (msgNumber : option Z) : M string :=
  let* connected := read pop3_handle in
  if negb connected then throw "POP3连接未建立"
  else
    match srv_retr srv msgNumber with
    | Js.Ok emailContent => ret emailContent
    | Js.Err rawData => throw ("获取邮件内容失败: " +:+ rawData)
    end.

(** The body of the loop of [fetchPOP3EmailDetails]. *)
Definition retrieveOne (emails : list EmailMessage) (emailInfo : ListEntry)
    : M (list EmailMessage) :=
  try_catch
    (let* emailContent := retrievePOP3Email (msgNumber emailInfo) in
     let* parsed := await (simpleParser srv emailContent) in
     push_parsed parsed (msgNumber emailInfo) emails)
    (fun error_message =>
       logger_error "POP3邮件解析失败"
         [("msgNumber", num_text (msgNumber emailInfo)); ("error", error_message)];;
       ret emails).

Definition fetchPOP3EmailDetails (emailList : list ListEntry) : M (list EmailMessage) :=
  let* emails := for_each retrieveOne emailList [] in
  ret (sort_newest_first emails).

(** The client-side time filter of the POP3 variant. *)
Definition pop3TimeFilter (queryParams : EmailQueryParams) (emails : list EmailMessage)
    : M (list EmailMessage) :=
  if Js.truthy_opt (q_since queryParams)
  then
    let sinceTime := moment_since (Js.or_else (q_since queryParams) "") in
    match sinceTime with
    | None =>
        logger_warn "无效的since日期格式" [("since", Js.or_else (q_since queryParams) "")];;
        ret emails
    | Some _ => ret (sameOrAfter sinceTime emails)
    end
  else
    let* now := Date_now in
    let today := startOfDay now in
    ret (sameOrAfter (Some today) emails).

(** [emails.filter(email => field(email).toLowerCase().includes(needle.toLowerCase()))]
    when the needle is given. *)
Definition containsFilter (field : EmailMessage -> string) (needle : option string)
    (emails : list EmailMessage) : list EmailMessage :=
  if Js.truthy_opt needle
  then List.filter
         (fun email =>
            Js.includes (toLowerCase (field email)) (toLowerCase (Js.or_else needle "")))
         emails
  else emails.

(** What the [list] handler does with the retrieved messages: the three
    client-side filters, then disconnect, save, cache and return. *)
Definition completePOP3 (queryParams : EmailQueryParams) (cacheKey : string)
    (emails : list EmailMessage) : M EmailFetchResult :=
  let* filteredEmails := pop3TimeFilter queryParams emails in
  let filteredEmails := containsFilter em_from (q_from queryParams) filteredEmails in
  let filteredEmails := containsFilter em_to (q_to queryParams) filteredEmails in
  disconnect;;
  saveIfEnabled queryParams filteredEmails;;
  let result := fetched filteredEmails in
  cache_set cacheKey result (3 * 60 * 1000);;
  ret result.

(** The [list] handler once [resp] is true: the body of its [try]. *)
Definition onList (queryParams : EmailQueryParams) (cacheKey : string)
    (returnValue : ListValue) (data : string) : M EmailFetchResult :=
  let* emailList := decodeList returnValue data in
  if (length emailList =? 0)%nat
  then
    disconnect;;
    cache_set cacheKey noMatch (2 * 60 * 1000);;
    ret noMatch
  else
    let limit := Js.num_or (limit queryParams) 10 in
    let limitedList := reverse (Js.slice emailList (- limit) None) in
    let* emails := fetchPOP3EmailDetails limitedList in
    completePOP3 queryParams cacheKey emails.

Definition fetchEmailsPOP3 (queryParams : EmailQueryParams) (cacheKey : string)
    : M EmailFetchResult :=
  connectPOP3 queryParams;;
  let* connected := read pop3_handle in
  if negb connected
  then logger_error "POP3连接未建立" [];; throw "POP3连接未建立"
  else
    match srv_list srv with
    | ListError e =>
        status ERROR;;
        logger_error "POP3连接错误" [("email", email_address queryParams); ("error", e)];;
        logger_error "POP3 error during list operation" [("error", e)];;
        logger_error "POP3 error event" [("error", e)];;
        disconnect;;
        throw e
    | ListResponse resp returnValue dataStr =>
        if negb resp
        then disconnect;; throw ("获取邮件列表失败: " +:+ dataStr)
        else
          try_catch (onList queryParams cacheKey returnValue dataStr)
            (fun error_message =>
               logger_error "POP3 list event error" [("error", error_message)];;
               disconnect;;
               throw error_message)
    end.

(** *** The entry point *)

Definition fetchKey (queryParams : EmailQueryParams) : string :=
  CacheService.getEmailFetchKey
    (email_address queryParams)
    (Js.or_else (mail_box queryParams) "INBOX")
    (Js.num_or (limit queryParams) 10)
    (q_from queryParams)
    (q_since queryParams).

Definition failure (error_message : string) : EmailFetchResult :=
  {| success := false;
     message := "获取邮件失败: " +:+ error_message;
     emails := Some [];
     total := 0 |}.

Definition fetchEmails (queryParams : EmailQueryParams) : M EmailFetchResult :=
  let protocol := default IMAP (protocol queryParams) in
  let cacheKey := fetchKey queryParams in
  try_catch
    (match protocol with
     | POP3 => fetchEmailsPOP3 queryParams cacheKey
     | IMAP => fetchEmailsIMAP queryParams cacheKey
     end)
    (fun error_message =>
       disconnect;;
       logger_error "获取邮件失败"
         [("email", email_address queryParams); ("error", error_message)];;
       ret (failure error_message)).

(** *** The connection test

    The exported [cacheService] holds the fetch results under
    [email_fetch:...] (the [emailCache] of the world) and the results of the
    connection tests under [connection_test:...]; the latter entries are
    passed explicitly.  The method reads the fields of an [EmailConfig],
    which every [EmailQueryParams] has. *)

Definition TestCache : Type := CacheService.t ConnectionTestResult.

(** The protocol in a template string. *)
Definition protocol_text (p : EmailProtocol) : string :=
  match p with IMAP => "IMAP" | POP3 => "POP3" end.

Definition testKey (emailConfig : EmailQueryParams) : string :=
  CacheService.getConnectionTestKey
    (email_address emailConfig) (imap_server emailConfig) (port emailConfig).

Definition tested (emailConfig : EmailQueryParams) (ok : bool) (message : string)
    : ConnectionTestResult :=
  {| ct_success := ok;
     ct_message := message;
     ct_server := imap_server emailConfig;
     ct_port := port emailConfig;
     ct_ssl := use_ssl emailConfig |}.

Definition testConnection (emailConfig : EmailQueryParams) (tests : TestCache)
    : M (ConnectionTestResult * TestCache) :=
  let protocol := default IMAP (protocol emailConfig) in
  let cacheKey := testKey emailConfig in
  let* now := Date_now in
  let found := CacheService.get now cacheKey tests in
  match found.1 with
  | Some cachedResult => ret (cachedResult, found.2)
  | None =>
      try_catch
        (match protocol with
         | POP3 => connectPOP3 emailConfig;; disconnectPOP3
         | IMAP => connectIMAP emailConfig;; disconnectIMAP
         end;;
         let result :=
           tested emailConfig true (protocol_text protocol +:+ "邮箱连接测试成功") in
         let* now := Date_now in
         ret (result, CacheService.set now cacheKey result (Some (5 * 60 * 1000)%Z) found.2))
        (fun error_message =>
           logger_error "邮箱连接测试失败"
             [("email", email_address emailConfig);
              ("protocol", protocol_text protocol);
              ("error", error_message)];;
           let result :=
             tested emailConfig false
               (protocol_text protocol +:+ "邮箱连接测试失败: " +:+ error_message) in
           let* now := Date_now in
           ret (result, CacheService.set now cacheKey result (Some (1 * 60 * 1000)%Z) found.2))
  end.

(** [getConnectionStatus()] and [getCurrentProtocol()]. *)
Definition getConnectionStatus : M ConnectionStatus := read connectionStatus.

Definition getCurrentProtocol : M EmailProtocol := read currentProtocol.

End Methods.
End EmailService.

(** ** Request validation (utils/validation.ts) *)

Module Validation.

(** [\d]. *)
Definition is_digit (c : ascii) : bool :=
  let n := nat_of_ascii c in (48 <=? n)%nat && (n <=? 57)%nat.

(** The rule of [limit]: an integer between 1 and 100 when present. *)
Definition limit_ok (l : option Z) : bool :=
  match l with
  | Some n => (1 <=? n)%Z && (n <=? 100)%Z
  | None => true
  end.

(** One position of the pattern of [since]. *)
Inductive Pos := Digit | Lit (c : ascii).

Definition pos_ok (p : Pos) (c : ascii) : bool :=
  match p with
  | Digit => is_digit c
  | Lit l => Ascii.eqb c l
  end.

Fixpoint matches (ps : list Pos) (s : string) : bool :=
  match ps, s with
  | [], EmptyString => true
  | p :: ps', String c s' => pos_ok p c && matches ps' s'
  | _, _ => false
  end.

(** [/^\d{4}\/\d{2}\/\d{2} \d{2}:\d{2}$/]. *)
Definition since_pattern : list Pos :=
  [Digit; Digit; Digit; Digit; Lit "/"; Digit; Digit; Lit "/"; Digit; Digit;
   Lit " "; Digit; Digit; Lit ":"; Digit; Digit].

(** The rule of [since]: the pattern when present. *)
Definition since_ok (s : option string) : bool :=
  match s with
  | Some v => matches since_pattern v
  | None => true
  end.

(** The rules of [emailQuerySchema] for the two fields that bound a fetch. *)
Definition validateEmailQuery (q : EmailQueryParams) : bool :=
  limit_ok (limit q) && since_ok (q_since q).

End Validation.

(** ** The endpoints that fetch and detect (controllers/EmailController.ts)

    A handler is modelled from the result of the validator on: [Rejected]
    carries the messages of Joi, joined (a text that is not empty), and
    [Accepted] the validated value.  The response is the status given to
    [res.status] and the object given to [json].  The messages of a fetch
    are those its result holds when [fetchEmails] returns. *)

Module EmailController.

Inductive Checked (A : Type) : Type :=
| Rejected (error : string)
| Accepted (value : A).
Arguments Rejected {A} error.
Arguments Accepted {A} value.

Record ApiResponse (D : Type) := {
  res_status : Z;
  res_success : bool;
  res_message : string;
  res_data : option D;
}.
Arguments res_status {D} _.
Arguments res_success {D} _.
Arguments res_message {D} _.
Arguments res_data {D} _.

Record FetchInfo := {
  totalFetched : Z;
  fetchMessage : string;
}.

(** The data of [fetchAndDetectInvoices]. *)
Record Detected := {
  fd_total : Z;
  fd_invoiceCount : Z;
  fd_results : list Detection;
  fd_fetchInfo : FetchInfo;
}.

(** The data of [fetchInvoiceEmails]. *)
Record Invoices := {
  fi_total : Z;
  fi_invoiceCount : Z;
  fi_invoiceEmails : list Detection;
  fi_fetchInfo : FetchInfo;
}.

Section Handlers.
Context `{JsRuntime}.
Context (config : Config.t).
Context (srv : MailServer).
Context (invoiceService : InvoiceService.t).

Definition count {A} (l : list A) : Z := Z.of_nat (length l).

Definition done_message (fetched invoices : Z) : string :=
  "操作完成，共获取 " +:+ Js.toString fetched +:+ " 封邮件，检测到 " +:+
  Js.toString invoices +:+ " 封发票邮件".

Definition fetchAndDetectInvoices (validated : Checked EmailQueryParams)
    : M (ApiResponse Detected) :=
  try_catch
    (match validated with
     | Rejected error =>
         ret {| res_status := 400; res_success := false;
                res_message := "参数验证失败: " +:+ error; res_data := None |}
     | Accepted value =>
         let* emailResult := EmailService.fetchEmails config srv value in
         match success emailResult, emails emailResult with
         | true, Some fetched =>
             let* results :=
               EmailService.for_each
                 (fun results email =>
                    let* detectionResult :=
                      InvoiceService.detectSingleInvoice config invoiceService email in
                    ret (results ++ [detectionResult]))
                 fetched [] in
             let invoiceEmails := email <$> List.filter isInvoice results in
             ret {| res_status := 200; res_success := true;
                    res_message := done_message (count fetched) (count invoiceEmails);
                    res_data :=
                      Some {| fd_total := count results;
                              fd_invoiceCount := count invoiceEmails;
                              fd_results := results;
                              fd_fetchInfo :=
                                {| totalFetched := count fetched;
                                   fetchMessage := message emailResult |} |} |}
         | _, _ =>
             ret {| res_status := 400; res_success := false;
                    res_message := message emailResult; res_data := None |}
         end
     end)
    (fun error_message =>
       logger_error "获取邮件并检测发票失败" [("error", error_message)];;
       ret {| res_status := 500; res_success := false;
              res_message := "获取邮件并检测发票失败"; res_data := None |}).

Definition fetchInvoiceEmails (validated : Checked EmailQueryParams)
    : M (ApiResponse Invoices) :=
  try_catch
    (match validated with
     | Rejected error =>
         ret {| res_status := 400; res_success := false;
                res_message := "参数验证失败: " +:+ error; res_data := None |}
     | Accepted value =>
         let* emailResult := EmailService.fetchEmails config srv value in
         match success emailResult, emails emailResult with
         | true, Some fetched =>
             let* invoiceEmails :=
               EmailService.for_each
                 (fun invoiceEmails email =>
                    let* detectionResult :=
                      InvoiceService.detectSingleInvoice config invoiceService email in
                    ret (if isInvoice detectionResult
                         then invoiceEmails ++ [detectionResult]
                         else invoiceEmails))
                 fetched [] in
             ret {| res_status := 200; res_success := true;
                    res_message := done_message (count fetched) (count invoiceEmails);
                    res_data :=
                      Some {| fi_total := count fetched;
                              fi_invoiceCount := count invoiceEmails;
                              fi_invoiceEmails := invoiceEmails;
                              fi_fetchInfo :=
                                {| totalFetched := count fetched;
                                   fetchMessage := message emailResult |} |} |}
         | _, _ =>
             ret {| res_status := 400; res_success := false;
                    res_message := message emailResult; res_data := None |}
         end
     end)
    (fun error_message =>
       logger_error "获取发票邮件失败" [("error", error_message)];;
       ret {| res_status := 500; res_success := false;
              res_message := "获取发票邮件失败"; res_data := None |}).

End Handlers.
End EmailController.

(** ** A runtime for the examples

    An instance of [JsRuntime] that is exact on the inputs the examples use:
    ASCII letters, decimal numerals, dates of the validated shape read in
    UTC, and LIST lines separated by ASCII white space. *)

Module Sample.

Definition lower (c : ascii) : ascii :=
  let n := nat_of_ascii c in
  if (65 <=? n)%nat && (n <=? 90)%nat then ascii_of_nat (n + 32) else c.

Fixpoint lowercase (s : string) : string :=
  match s with
  | EmptyString => EmptyString
  | String c rest => String (lower c) (lowercase rest)
  end.

Definition digit_value (c : ascii) : Z := Z.of_nat (nat_of_ascii c) - 48.

(** The longest prefix of digits and the rest. *)
Fixpoint span_digits (s : string) : list ascii * string :=
  match s with
  | String c rest =>
      if Validation.is_digit c
      then let '(ds, r) := span_digits rest in (c :: ds, r)
      else ([], s)
  | EmptyString => ([], s)
  end.

Definition number_of (ds : list ascii) : Z :=
  fold_left (fun acc c => acc * 10 + digit_value c)%Z ds 0%Z.

Definition decimal (s : string) : option Z :=
  match span_digits s with
  | ([], _) => None
  | (ds, _) => Some (number_of ds)
  end.

Definition fraction (s : string) : option Q :=
  match span_digits s with
  | ([], _) => None
  | (ds, String "." rest) =>
      let '(fs, _) := span_digits rest in
      Some (inject_Z (number_of ds)
            + inject_Z (number_of fs) / inject_Z (10 ^ Z.of_nat (length fs)))%Q
  | (ds, _) => Some (inject_Z (number_of ds))
  end.

Definition is_space (c : ascii) : bool :=
  let n := nat_of_ascii c in (n =? 32)%nat || ((9 <=? n)%nat && (n <=? 13)%nat).

Fixpoint skip_spaces (s : string) : string :=
  match s with
  | String c rest => if is_space c then skip_spaces rest else s
  | EmptyString => s
  end.

Definition text_of (ds : list ascii) : string := string_of_list_ascii ds.

Definition list_line (line : string) : option (string * string) :=
  match span_digits line with
  | ([], _) => None
  | (number, String c rest) =>
      if is_space c then
        match span_digits (skip_spaces rest) with
        | ([], _) => None
        | (bytes, EmptyString) => Some (text_of number, text_of bytes)
        | _ => None
        end
      else None
  | _ => None
  end.

(** Days from 1970-01-01 to the civil date [y]-[m]-[d]. *)
Definition days_from_civil (y m d : Z) : Z :=
  let y' := if (m <=? 2)%Z then (y - 1)%Z else y in
  let era := (y' / 400)%Z in
  let yoe := (y' - era * 400)%Z in
  let mp := ((m + 9) mod 12)%Z in
  let doy := ((153 * mp + 2) / 5 + d - 1)%Z in
  let doe := (yoe * 365 + yoe / 4 - yoe / 100 + doy)%Z in
  (era * 146097 + doe - 719468)%Z.

Definition leap (y : Z) : bool :=
  ((y mod 4 =? 0) && negb (y mod 100 =? 0) || (y mod 400 =? 0))%Z.

Definition days_in_month (y m : Z) : Z :=
  if (m =? 2)%Z then (if leap y then 29 else 28)%Z
  else if ((m =? 4) || (m =? 6) || (m =? 9) || (m =? 11))%Z then 30%Z
  else 31%Z.

Definition valid_date (y m d : Z) : bool :=
  ((1 <=? m) && (m <=? 12) && (1 <=? d) && (d <=? days_in_month y m))%Z.

Definition day_ms : Z := 86400000.

Definition digits_at (s : string) (start len : nat) : Z :=
  number_of (list_ascii_of_string (String.substring start len s)).

(** [YYYY/MM/DD HH:mm], read in UTC. *)
Definition since_instant (s : string) : option Z :=
  if Validation.matches Validation.since_pattern s then
    let y := digits_at s 0 4 in
    let m := digits_at s 5 2 in
    let d := digits_at s 8 2 in
    let hh := digits_at s 11 2 in
    let mm := digits_at s 14 2 in
    if (valid_date y m d && (hh <=? 23) && (mm <=? 59))%Z
    then Some (days_from_civil y m d * day_ms + hh * 3600000 + mm * 60000)%Z
    else None
  else None.

(** [YYYY-MM-DD] and [YYYY/MM/DD], read in UTC. *)
Definition invoice_date (s : string) : option Z :=
  match span_digits s with
  | (y :: ys, String sep1 rest1) =>
      match span_digits rest1 with
      | (m :: ms, String sep2 rest2) =>
          match span_digits rest2 with
          | (d :: ds, EmptyString) =>
              let yv := number_of (y :: ys) in
              let mv := number_of (m :: ms) in
              let dv := number_of (d :: ds) in
              if (Ascii.eqb sep1 "-" || Ascii.eqb sep1 "/")
                 && Ascii.eqb sep2 sep1 && valid_date yv mv dv
              then Some (days_from_civil yv mv dv * day_ms)%Z
              else None
          | _ => None
          end
      | _ => None
      end
  | _ => None
  end.

#[export] Instance runtime : JsRuntime := {|
  toLowerCase := lowercase;
  parseInt := decimal;
  parseFloat := fraction;
  moment_since := since_instant;
  moment_invoiceDate := invoice_date;
  startOfDay := fun t => (t / day_ms * day_ms)%Z;
  uuid_text := fun n => pretty n;
  match_list_line := list_line;
|}.

(** A regular expression without a match. *)
Definition no_match : Js.RegExp := {| Js.exec := fun _ => None |}.

(** The five patterns on texts that hold none of their leading words
    (发票号, Invoice, 金额, 总计, 合计, Amount, Total, 税号, Tax, 开票日期,
    开票方, 发票抬头, Issuer): no pattern matches such a text.  The example
    messages have an empty subject and an empty body. *)
Definition patterns : InvoicePatterns :=
  {| invoiceNumber := no_match; amount := no_match; taxNumber := no_match;
     date := no_match; company := no_match |}.

End Sample.

(** ** Example messages and the initial world *)

Module Examples.
Import InvoiceService.

(** A message whose sender and attachment point to an invoice. *)
Definition statement_mail : EmailMessage :=
  {| em_id := "1";
     em_messageId := "msg-1";
     em_from := "finance@example.com";
     em_to := "test@qq.com";
     em_subject := "Monthly statement";
     em_title := "Monthly statement";
     em_body := "Please see the attached file.";
     em_content := "Please see the attached file.";
     em_date := 1704067200000;
     em_hasAttachments := true;
     em_attachments :=
       Some [{| att_filename := Some "invoice.pdf";
                att_contentType := Some "application/pdf";
                att_size := 1024 |}];
     em_isInvoice := None;
     em_createdAt := 1704067200000 |}.

(** Another message that carries the same [id]. *)
Definition regular_mail : EmailMessage :=
  {| em_id := "1";
     em_messageId := "msg-2";
     em_from := "friend@example.com";
     em_to := "test@qq.com";
     em_subject := "Regular Email";
     em_title := "Regular Email";
     em_body := "Hello, how are you?";
     em_content := "Hello, how are you?";
     em_date := 1704067200000;
     em_hasAttachments := false;
     em_attachments := Some [];
     em_isInvoice := None;
     em_createdAt := 1704067200000 |}.

(** A message whose subject names an electronic invoice (您的电子发票) and
    that carries no other signal. *)
Definition invoice_notice : EmailMessage :=
  {| em_id := "7";
     em_messageId := "msg-7";
     em_from := "shop@example.com";
     em_to := "test@qq.com";
     em_subject := "您的电子发票";
     em_title := "您的电子发票";
     em_body := "Hello";
     em_content := "Hello";
     em_date := 1704067200000;
     em_hasAttachments := false;
     em_attachments := Some [];
     em_isInvoice := None;
     em_createdAt := 1704067200000 |}.

(** The words one of which every match of the five patterns contains
    (in lower case). *)
Definition leading_words : list string :=
  ["发票号"; "invoice"; "金额"; "总计"; "合计"; "amount"; "total"; "税号"; "tax";
   "开票日期"; "开票方"; "发票抬头"; "issuer"].

Definition holds_no_leading_word (s : string) : bool :=
  forallb (fun word => negb (Js.includes (Sample.lowercase s) word)) leading_words.

(** A freshly started process at time [now]. *)
Definition start (now : Z) : World :=
  {| clock := now; uuids := 0; disk_failure := None; files := []; logs := [];
     emailCache := CacheService.new; invoiceCache := CacheService.new;
     imap_handle := false; pop3_handle := false; currentProtocol := IMAP;
     connectionStatus := DISCONNECTED |}.

Definition service : InvoiceService.t := InvoiceService.new Sample.patterns.

(** The configuration of a process started without the two variables. *)
Definition config : Config.t := @Config.default Sample.runtime.

(** The configuration of a process started with ENABLE_LOCAL_STORAGE=true. *)
Definition storing : Config.t := @Config.from_env Sample.runtime (Some "true") None.

(** A freshly started process whose disk is full. *)
Definition full_disk (now : Z) : World :=
  {| clock := now; uuids := 0; disk_failure := Some "ENOSPC: no space left on device";
     files := []; logs := [];
     emailCache := CacheService.new; invoiceCache := CacheService.new;
     imap_handle := false; pop3_handle := false; currentProtocol := IMAP;
     connectionStatus := DISCONNECTED |}.

(** An extracted invoice record with the given amount, date and
    confidence. *)
Definition record_of (amount : option Q) (day : option (option Z)) (score : Q)
    : InvoiceInfo :=
  {| ii_id := Some "id"; ii_emailId := Some "1"; ii_invoiceNumber := None;
     ii_amount := amount;
     ii_currency := match amount with Some _ => Some "CNY" | None => None end;
     ii_invoiceDate := day; ii_issuer := None;
     ii_confidenceScore := Some score; ii_createdAt := Some 1704067200000%Z |}.

(** Three records: 120.5 on 2024-01-01, one without amount and date, and 80
    on 2023-12-31. *)
Definition extracted : list InvoiceInfo :=
  [record_of (Some 120.5%Q) (Some (Some 1704067200000%Z)) 0.9%Q;
   record_of None None 0.4%Q;
   record_of (Some 80%Q) (Some (Some 1703980800000%Z)) 0.5%Q].

(** The two detection paths of the example service. *)
Definition detectSingleInvoice : EmailMessage -> M Detection :=
  @InvoiceService.detectSingleInvoice Sample.runtime config service.

Definition analyzeEmail : EmailMessage -> M InvoiceService.Analysis :=
  @InvoiceService.analyzeEmail Sample.runtime config service.

Definition detectInvoices : list EmailMessage -> M InvoiceService.InvoiceDetectionResult :=
  @InvoiceService.detectInvoices Sample.runtime config service.

End Examples.

(** ** A mail server for the examples *)

Module SampleServer.

(** A mailbox of three messages around 2025/06/08 22:03 UTC: number, sender,
    recipient and date. *)
Definition mailbox : list (Z * (string * string * Z)) :=
  [(1, ("billing@shop.example", "alice@example.com", 1749420179999));
   (2, ("friend@example.com", "bob@example.com", 1749420180000));
   (3, ("finance@example.com", "alice@example.com", 1749420240000))]%Z.

Definition find (n : Z) : option (string * string * Z) :=
  snd <$> List.find (fun entry => (entry.1 =? n)%Z) mailbox.

(** The raw text of a message is its number; parsing it gives its headers. *)
Definition parse (raw : string) : Js.Result ParsedMail :=
  match Sample.decimal raw ≫= find with
  | Some (sender, recipient, sent) =>
      Js.Ok {| pm_attachments := None;
               pm_subject := Some ("Message " +:+ raw);
               pm_text := Some "Hello";
               pm_html := None;
               pm_from := AddrObject {| address := Some sender; addr_text := None |};
               pm_to := AddrObject {| address := Some recipient; addr_text := None |};
               pm_date := Some sent;
               pm_messageId := None |}
  | None => Js.Err "unparsable message"
  end.

(** A server that accepts every connection, lists and finds the three
    messages, and answers a fetch with one message for each requested UID;
    [settles] tells when the parse of a fetched message settles. *)
Definition serving (settles : Z * string -> Settles) : MailServer :=
  {| srv_connect := fun _ _ => ConnectReady;
     srv_openBox := fun _ => Js.Ok tt;
     srv_search := fun _ => Js.Ok [1; 2; 3]%Z;
     srv_fetch := fun uids => Js.Ok ((fun uid => (uid, Js.toString uid)) <$> uids);
     srv_settles := settles;
     srv_list := ListResponse true (LvArray [None; Some "120"; Some "340"; Some "560"]) "";
     srv_retr :=
       fun n =>
         match n with
         | Some k => Js.Ok (Js.toString k)
         | None => Js.Err "-ERR no such message"
         end;
     simpleParser := parse |}.

(** The server when the whole answer to a fetch arrives at once: every
    parse is pending when the fetch ends and settles after
    [fetchEmailsIMAP] has returned. *)
Definition server : MailServer := serving (fun _ => Afterwards).

(** The server when every parse settles before the fetch ends. *)
Definition prompt : MailServer := serving (fun _ => BeforeEnd).

(** The server when the parse of the newest message settles while
    [fetchEmailsIMAP] saves, and the others before the fetch ends. *)
Definition straggling : MailServer :=
  serving (fun msg => if (msg.1 =? 3)%Z then BeforeResult else BeforeEnd).

(** A server that refuses the connection. *)
Definition unreachable : MailServer :=
  {| srv_connect := fun _ _ => ConnectError "connect ECONNREFUSED";
     srv_openBox := fun _ => Js.Ok tt;
     srv_search := fun _ => Js.Ok [];
     srv_fetch := fun _ => Js.Ok [];
     srv_settles := fun _ => Afterwards;
     srv_list := ListError "connect ECONNREFUSED";
     srv_retr := fun _ => Js.Err "-ERR";
     simpleParser := parse |}.

(** A request for the mailbox of the examples. *)
Definition query (proto : EmailProtocol) (limit : option Z)
    (since recipient : option string) : EmailQueryParams :=
  {| email_address := "test@qq.com";
     password := "secret";
     imap_server := "mail.qq.com";
     port := 993;
     use_ssl := true;
     mail_box := None;
     protocol := Some proto;
     limit := limit;
     q_from := None;
     q_since := since;
     q_to := recipient |}.

Definition fetchEmails (srv : MailServer) : EmailQueryParams -> M EmailFetchResult :=
  @EmailService.fetchEmails Sample.runtime Examples.config srv.

(** The result of a successful IMAP test of the account of the examples,
    and the cache that holds it since time 0. *)
Definition passed : ConnectionTestResult :=
  EmailService.tested (query IMAP None None None) true "IMAP邮箱连接测试成功".

Definition passed_entry : CacheService.Item ConnectionTestResult :=
  {| CacheService.data := passed; CacheService.expireTime := 5 * 60 * 1000 |}.

Definition tested_once : EmailService.TestCache :=
  CacheService.set 0 (EmailService.testKey (query IMAP None None None)) passed
    (Some (5 * 60 * 1000)%Z) CacheService.new.

(** The dates of the messages a fetch returns. *)
Definition dates (out : Outcome EmailFetchResult * World) : option (list Z) :=
  match out.1 with
  | Return r => List.map em_date <$> emails r
  | Throw _ => None
  end.

End SampleServer.

(** ** The vocabulary of the properties

    What the statements below say about a run: the worlds a call may pass
    through, the messages a loop collects, the filters a request applies. *)

Module Spec.
Section Vocabulary.
Context `{JsRuntime}.
Context (config : Config.t).
Context (srv : MailServer).
Import InvoiceService EmailService.

(** Two worlds that agree on the clock, the disk and both caches. *)
Definition frame (w w' : World) : Prop :=
  clock w' = clock w /\ disk_failure w' = disk_failure w /\
  emailCache w' = emailCache w /\ invoiceCache w' = invoiceCache w.

(** What a detection that is not served from the cache computes: the
    weighted sum and its comparison with the threshold, or the zero result
    when saving the invoice record throws. *)
Definition computed (svc : t) (email : EmailMessage) (w : World) (r : Detection) : Prop :=
  (confidence r = totalScore svc email /\
   isInvoice r = Qle_bool (confidenceThreshold svc) (totalScore svc email) /\
   error r = None /\
   (isInvoice r = true -> Config.enableLocalStorage config = true ->
    disk_failure w = None))
  \/
  (confidence r = 0%Q /\ isInvoice r = false /\
   Qle_bool (confidenceThreshold svc) (totalScore svc email) = true /\
   Config.enableLocalStorage config = true /\
   error r = disk_failure w /\ disk_failure w <> None).

(** The time to live [detectSingleInvoice] stores a result with. *)
Definition detection_ttl (r : Detection) : Z :=
  match error r with
  | None => 30 * 60 * 1000
  | Some _ => 5 * 60 * 1000
  end.

(** The attachment record built from a parsed attachment. *)
Definition kept_attachment (attachment : ParsedAttachment) : EmailAttachment :=
  {| att_filename := Some (Js.or_else (pa_filename attachment) "unknown");
     att_contentType := Some (pa_contentType attachment);
     att_size := pa_size attachment |}.

(** The worlds a loop over messages passes through: identifiers are handed
    out and log records are appended, nothing else changes. *)
Definition touched (n : nat) (l : list LogRecord) (w : World) : World :=
  set_logs l (set_uuids n w).

Section Gather.
Context {X : Type}.
Context (attempt : X -> Js.Result ParsedMail).
Context (seq : X -> option Z).
Context (record : X -> string -> LogRecord).

(** The messages and the log records of the loop at time [now], given the
    number [n] of identifiers handed out before it. *)
Fixpoint collected (now : Z) (n : nat) (items : list X)
    : list EmailMessage * list LogRecord :=
  match items with
  | [] => ([], [])
  | x :: rest =>
      match attempt x with
      | Js.Ok parsed =>
          let '(ms, ls) := collected now (S n) rest in
          (parseEmailMessage config (uuid_text n) now parsed (seq x) :: ms, ls)
      | Js.Err reason =>
          let '(ms, ls) := collected now n rest in
          (ms, record x reason :: ls)
      end
  end.

(** Whether the attempt on an item fails. *)
Definition fails (x : X) : bool :=
  match attempt x with
  | Js.Ok _ => false
  | Js.Err _ => true
  end.

End Gather.

(** What retrieving and parsing one POP3 message yields in a world. *)
Definition retrieved (w : World) (emailInfo : ListEntry) : Js.Result ParsedMail :=
  if pop3_handle w then
    match srv_retr srv (msgNumber emailInfo) with
    | Js.Ok emailContent => simpleParser srv emailContent
    | Js.Err rawData => Js.Err ("获取邮件内容失败: " +:+ rawData)
    end
  else Js.Err "POP3连接未建立".

(** The record [fetchPOP3EmailDetails] logs for a message it skips. *)
Definition skipped (emailInfo : ListEntry) (reason : string) : LogRecord :=
  {| level := LogError; text := "POP3邮件解析失败";
     meta := [("msgNumber", num_text (msgNumber emailInfo)); ("error", reason)] |}.

(** The messages and the records of the POP3 loop. *)
Definition pop3_collected (w : World) (emailList : list ListEntry)
    : list EmailMessage * list LogRecord :=
  collected (retrieved w) msgNumber skipped (clock w) (uuids w) emailList.

(** The record [fetchEmailDetails] logs for a message it cannot parse. *)
Definition unparsed (msg : Z * string) (reason : string) : LogRecord :=
  {| level := LogError; text := "邮件解析失败";
     meta := [("seqno", Js.toString msg.1); ("error", reason)] |}.

(** The messages and the records of the IMAP loop. *)
Definition imap_collected (w : World) (messages : list (Z * string))
    : list EmailMessage * list LogRecord :=
  collected (fun msg => simpleParser srv msg.2) (fun msg => Some msg.1) unparsed
    (clock w) (uuids w) messages.

(** [queryParams.limit || 10]. *)
Definition requested (q : EmailQueryParams) : Z := Js.num_or (limit q) 10.

(** The re-check of [since] after an IMAP retrieval. *)
Definition imap_since (q : EmailQueryParams) (details : list EmailMessage)
    : list EmailMessage :=
  if Js.truthy_opt (q_since q)
  then sameOrAfter (moment_since (Js.or_else (q_since q) "")) details
  else details.

(** The client-side time filter of the POP3 variant at time [now]. *)
Definition pop3_since (q : EmailQueryParams) (now : Z) (details : list EmailMessage)
    : list EmailMessage :=
  if Js.truthy_opt (q_since q)
  then
    match moment_since (Js.or_else (q_since q) "") with
    | None => details
    | Some t => sameOrAfter (Some t) details
    end
  else sameOrAfter (Some (startOfDay now)) details.

(** The three client-side filters of the POP3 variant. *)
Definition pop3_filtered (q : EmailQueryParams) (now : Z) (details : list EmailMessage)
    : list EmailMessage :=
  containsFilter em_to (q_to q) (containsFilter em_from (q_from q) (pop3_since q now details)).

(** The handle of the client a request uses. *)
Definition handle (proto : EmailProtocol) (w : World) : bool :=
  match proto with
  | IMAP => imap_handle w
  | POP3 => pop3_handle w
  end.

(** The record [fetchEmails] logs when it fails. *)
Definition fetch_failed (q : EmailQueryParams) (reason : string) : LogRecord :=
  {| level := LogError; text := "获取邮件失败";
     meta := [("email", email_address q); ("error", reason)] |}.

(** A message passes the sender or recipient filter of a request. *)
Definition contains_ok (field : EmailMessage -> string) (needle : option string)
    (e : EmailMessage) : Prop :=
  Js.truthy_opt needle = true ->
  Js.includes (toLowerCase (field e)) (toLowerCase (Js.or_else needle "")) = true.

(** The request with another recipient filter. *)
Definition with_recipient (recipient : option string) (q : EmailQueryParams)
    : EmailQueryParams :=
  {| email_address := email_address q;
     password := password q;
     imap_server := imap_server q;
     port := port q;
     use_ssl := use_ssl q;
     mail_box := mail_box q;
     protocol := protocol q;
     limit := limit q;
     q_from := q_from q;
     q_since := q_since q;
     q_to := recipient |}.

End Vocabulary.
End Spec.

Import Spec.

(** ** The vocabulary, continued *)

Module Terms.

(** The keyword cache holds, under the keyword key, nothing but the default
    configuration. *)
Definition holds_defaults (c : InvoiceService.KeywordCache) : Prop :=
  forall item,
    CacheService.cache c !! CacheService.getInvoiceKeywordsKey = Some item ->
    CacheService.data item = InvoiceService.getDefaultKeywords.

(** Messages in the order of their dates, newest first. *)
Definition newest_first (l : list EmailMessage) : Prop :=
  StronglySorted (fun a b => (em_date b <= em_date a)%Z) l.

(** The path of the file [saveEmails] writes for a request at time [now]. *)
Definition saved_file (q : EmailQueryParams) (now : Z) : string :=
  "emails/" +:+
  ("emails_" +:+ EmailService.generateAccountId (email_address q) +:+ "_" +:+
   Js.toString now +:+ ".json").

(** The separator of the lines of a POP3 response. *)
Definition crlf : string := String "013" (String "010" "").

(** The entry a line of a LIST response yields, when the line has the form
    number, white space, number. *)
Definition entry_of_line `{JsRuntime} (line : string) : option ListEntry :=
  match match_list_line line with
  | Some (number, bytes) =>
      Some {| msgNumber := parseInt (Js.or_else (Some number) "0");
              size := parseInt (Js.or_else (Some bytes) "0") |}
  | None => None
  end.

(** The first entry carries a smaller message number than the second. *)
Definition numbered_before (a b : ListEntry) : Prop :=
  exists i j, msgNumber a = Some i /\ msgNumber b = Some j /\ (i < j)%Z.

(** The protocol a request asks for. *)
Definition asked (q : EmailQueryParams) : EmailProtocol := default IMAP (protocol q).

(** The fetched messages whose parse has settled when [fetchEmailsIMAP]
    re-checks [since]. *)
Definition rechecked (srv : MailServer) (messages : list (Z * string))
    : list (Z * string) :=
  EmailService.settling srv BeforeEnd messages ++
  EmailService.settling srv BeforeResume messages.

(** Every parse settles before the [end] event of the fetch. *)
Definition in_time (srv : MailServer) : Prop :=
  forall msg, srv_settles srv msg = BeforeEnd.

(** The world once the POP3 client is connected and logged in. *)
Definition online (w : World) : World :=
  set_connection (imap_handle w) true POP3 AUTHENTICATED w.

(** Saving the fetched messages cannot fail. *)
Definition writable (config : Config.t) (w : World) : Prop :=
  Config.enableLocalStorage config = true -> disk_failure w = None.

(** The server answers an IMAP request: it accepts the connection, opens
    the mailbox, finds messages and delivers [messages] for the UIDs the
    request is limited to. *)
Definition imap_delivers `{JsRuntime} (srv : MailServer) (q : EmailQueryParams) (w : World)
    (messages : list (Z * string)) : Prop :=
  srv_connect srv IMAP q = ConnectReady /\
  srv_openBox srv (Js.or_else (mail_box q) "INBOX") = Js.Ok tt /\
  exists criteria found,
    (EmailService.buildSearchCriteria q w).1 = Return criteria /\
    srv_search srv criteria = Js.Ok found /\ found <> [] /\
    srv_fetch srv (Js.slice (reverse found) 0 (Some (requested q))) = Js.Ok messages.

(** The server answers a POP3 request: it accepts the connection and the
    login and lists the entries [emailList], at least one. *)
Definition pop3_delivers `{JsRuntime} (srv : MailServer) (q : EmailQueryParams) (w : World)
    (emailList : list ListEntry) : Prop :=
  srv_connect srv POP3 q = ConnectReady /\
  exists returnValue data,
    srv_list srv = ListResponse true returnValue data /\
    (EmailService.decodeList returnValue data w).1 = Return emailList /\
    emailList <> [].

(** The entries of the list a POP3 request retrieves: the last
    [limit || 10], the highest number first. *)
Definition pop3_limited (q : EmailQueryParams) (emailList : list ListEntry)
    : list ListEntry :=
  reverse (Js.slice emailList (- requested q) None).

(** The ways the server fails a request, with the reason the service
    gets: the connection or the login fails, the mailbox cannot be opened,
    the search or the fetch fails (IMAP), the listing fails or is answered
    negatively (POP3). *)
Inductive fails_with `{JsRuntime} (srv : MailServer) (q : EmailQueryParams) (w : World)
    : string -> Prop :=
| connection_fails e :
    srv_connect srv (asked q) q = ConnectError e -> fails_with srv q w e
| imap_login_fails e :
    asked q = IMAP -> srv_connect srv IMAP q = ConnectAuthFailed e ->
    fails_with srv q w e
| pop3_login_fails d :
    asked q = POP3 -> srv_connect srv POP3 q = ConnectAuthFailed d ->
    fails_with srv q w ("POP3认证失败: " +:+ d)
| open_fails e :
    asked q = IMAP -> srv_connect srv IMAP q = ConnectReady ->
    srv_openBox srv (Js.or_else (mail_box q) "INBOX") = Js.Err e ->
    fails_with srv q w e
| search_fails criteria e :
    asked q = IMAP -> srv_connect srv IMAP q = ConnectReady ->
    srv_openBox srv (Js.or_else (mail_box q) "INBOX") = Js.Ok tt ->
    (EmailService.buildSearchCriteria q w).1 = Return criteria ->
    srv_search srv criteria = Js.Err e ->
    fails_with srv q w e
| fetch_fails criteria found e :
    asked q = IMAP -> srv_connect srv IMAP q = ConnectReady ->
    srv_openBox srv (Js.or_else (mail_box q) "INBOX") = Js.Ok tt ->
    (EmailService.buildSearchCriteria q w).1 = Return criteria ->
    srv_search srv criteria = Js.Ok found -> found <> [] ->
    srv_fetch srv (Js.slice (reverse found) 0 (Some (requested q))) = Js.Err e ->
    fails_with srv q w e
| list_fails e :
    asked q = POP3 -> srv_connect srv POP3 q = ConnectReady ->
    srv_list srv = ListError e ->
    fails_with srv q w e
| list_refused returnValue data :
    asked q = POP3 -> srv_connect srv POP3 q = ConnectReady ->
    srv_list srv = ListResponse false returnValue data ->
    fails_with srv q w ("获取邮件列表失败: " +:+ data).

(** The world of a fetch whose result is not cached: the connection fields,
    the identifiers and the log may have changed, nothing else has. *)
Definition unsaved (w w' : World) : Prop :=
  clock w' = clock w /\ disk_failure w' = disk_failure w /\ files w' = files w /\
  emailCache w' = emailCache w /\ invoiceCache w' = invoiceCache w.

(** The world of a fetch that has cached [r] under [key] for [ttl]
    milliseconds and written the files [written]. *)
Definition saved (key : string) (r : EmailFetchResult) (ttl : Z) (written : list string)
    (w w' : World) : Prop :=
  clock w' = clock w /\ disk_failure w' = disk_failure w /\
  files w' = files w ++ written /\
  emailCache w' = CacheService.set (clock w) key r (Some ttl) (emailCache w) /\
  invoiceCache w' = invoiceCache w.

End Terms.

Import Terms.

(** * Properties *)

(** ** Scores and confidence *)

Section ScoreBounds.
Context `{JsRuntime}.
Import InvoiceService.
Local Open Scope Q_scope.

Lemma add_each_ge hit inc ks score :
  0 <= inc -> score <= add_each hit inc ks score.
Proof.
  intros Hinc. unfold add_each. revert score.
  induction ks as [|k ks IH]; intros score; simpl; [lra|].
  destruct (hit k); [|apply IH].
  apply Qle_trans with (score + inc); [lra | apply IH].
Qed.

Lemma add_first_ge hit inc ks score :
  0 <= inc -> score <= add_first hit inc ks score.
Proof. intros Hinc. unfold add_first. destruct (existsb hit ks); lra. Qed.

Lemma scoreAttachment_ge score a : score <= scoreAttachment score a.
Proof.
  unfold scoreAttachment.
  match goal with
  | |- context [add_first ?h ?i ?k ?s] =>
      assert (score <= s) as Hpdf by (cbv zeta; destruct (_ || _); lra);
      pose proof (add_first_ge h i k s ltac:(lra)) as Hname
  end.
  cbv zeta in *. destruct (_ || _ || _ || _ || _ || _); lra.
Qed.

Lemma fold_scoreAttachment_ge atts score :
  score <= fold_left scoreAttachment atts score.
Proof.
  revert score. induction atts as [|a atts IH]; intros score; simpl; [lra|].
  eapply Qle_trans; [apply (scoreAttachment_ge score a) | apply IH].
Qed.

(** Clamping a non-negative sum at 1.0 leaves a value of the unit interval. *)
Lemma clamp_range score : 0 <= score -> 0 <= Qmin score 1.0 <= 1.
Proof.
  intros Hs. split.
  - apply Q.min_glb; lra.
  - eapply Qle_trans; [apply Q.le_min_r | lra].
Qed.

Lemma analyzeSubject_range svc subject : 0 <= analyzeSubject svc subject <= 1.
Proof.
  unfold analyzeSubject. destruct (negb (Js.truthy subject)); [lra|].
  apply clamp_range.
  eapply Qle_trans; [| apply add_first_ge; lra].
  eapply Qle_trans; [| apply add_each_ge; lra].
  apply add_each_ge; lra.
Qed.

Lemma analyzeSender_range svc sender : 0 <= analyzeSender svc sender <= 1.
Proof.
  unfold analyzeSender. destruct (negb (Js.truthy sender)); [lra|].
  apply clamp_range.
  eapply Qle_trans; [| apply add_first_ge; lra].
  apply add_each_ge; lra.
Qed.

Lemma analyzeContent_range svc content : 0 <= analyzeContent svc content <= 1.
Proof.
  unfold analyzeContent. destruct (negb (Js.truthy content)); [lra|].
  apply clamp_range.
  eapply Qle_trans; [| apply add_first_ge; lra].
  repeat match goal with
         | |- context [if ?b then _ else _] => destruct b
         end; lra.
Qed.

Lemma analyzeAttachments_range email : 0 <= analyzeAttachments email <= 1.
Proof.
  unfold analyzeAttachments. destruct (em_attachments email) as [atts|]; [|lra].
  destruct (negb (em_hasAttachments email) || (length atts =? 0)%nat); [lra|].
  apply clamp_range, fold_scoreAttachment_ge.
Qed.

(** The weighted sum of four values of the unit interval, under
    non-negative weights that sum to one, is in the unit interval. *)
Lemma weighted_sum_range (w : InvoiceScoreWeights) (a b c d : Q) :
  0 <= w_subject w -> 0 <= w_sender w -> 0 <= w_content w -> 0 <= w_attachment w ->
  w_subject w + w_sender w + w_content w + w_attachment w == 1 ->
  0 <= a <= 1 -> 0 <= b <= 1 -> 0 <= c <= 1 -> 0 <= d <= 1 ->
  0 <= a * w_subject w + b * w_sender w + c * w_content w + d * w_attachment w <= 1.
Proof.
  intros Hs Hf Hc Ha Hsum [Ha0 Ha1] [Hb0 Hb1] [Hc0 Hc1] [Hd0 Hd1].
  split; nra.
Qed.

End ScoreBounds.

Section DetectionFacts.
Context `{JsRuntime}.
Context (config : Config.t).
Import InvoiceService.
Local Open Scope Q_scope.
Local Abbreviation computed := (Spec.computed config).

Lemma frame_refl w : frame w w.
Proof. by repeat split. Qed.

Lemma frame_trans w1 w2 w3 : frame w1 w2 -> frame w2 w3 -> frame w1 w3.
Proof. unfold frame. intros (?&?&?&?) (?&?&?&?). repeat split; congruence. Qed.

Lemma extractInvoiceInfo_returns svc email c w :
  exists info w', extractInvoiceInfo svc email c w = (Return info, w') /\ frame w w'.
Proof.
  unfold extractInvoiceInfo, bind, Date_now, read, uuidv4, ret. simpl.
  destruct (Js.truthy (uuid_text (uuids w))); simpl;
    eexists _, _; (split; [reflexivity | by repeat split]).
Qed.

Lemma saveInvoiceInfo_cases info id w :
  (exists s w', saveInvoiceInfo config info id w = (Return s, w') /\ frame w w' /\
                (Config.enableLocalStorage config = true -> disk_failure w = None)) \/
  (exists e w', saveInvoiceInfo config info id w = (Throw e, w') /\ frame w w' /\
                Config.enableLocalStorage config = true /\ disk_failure w = Some e).
Proof.
  unfold saveInvoiceInfo, bind, uuidv4, writeJsonFile, ret. simpl.
  destruct (Config.enableLocalStorage config) eqn:Hen; simpl.
  - destruct (disk_failure w) as [e|] eqn:Hd; simpl.
    + right. eexists _, _. split; [reflexivity|]. by repeat split.
    + left. eexists _, _. split; [reflexivity|]. by repeat split.
  - left. eexists _, _. split; [reflexivity|]. split; [by repeat split | done].
Qed.

Lemma detect_miss svc email w c :
  CacheService.get (clock w) (CacheService.getInvoiceDetectionKey (em_id email))
    (invoiceCache w) = (None, c) ->
  exists r w',
    detectSingleInvoice config svc email w = (Return r, w') /\
    computed svc email w r /\
    clock w' = clock w /\ disk_failure w' = disk_failure w /\
    emailCache w' = emailCache w /\
    invoiceCache w' =
      CacheService.set (clock w) (CacheService.getInvoiceDetectionKey (em_id email))
        r (Some (detection_ttl r)) c.
Proof.
  intros Hget.
  unfold detectSingleInvoice. unfold bind at 1. unfold cache_get at 1. rewrite Hget.
  cbv beta iota zeta. fold (totalScore svc email).
  unfold try_catch.
  destruct (Qle_bool (confidenceThreshold svc) (totalScore svc email)) eqn:Hthr.
  - unfold bind at 1. unfold bind at 1. unfold bind at 1.
    destruct (extractInvoiceInfo_returns svc email (totalScore svc email)
                (set_invoiceCache c w)) as (info & w1 & -> & Hf1).
    destruct (saveInvoiceInfo_cases info (em_id email) w1)
      as [(s & w2 & -> & Hf2 & Hdisk) | (e & w2 & -> & Hf2 & Hen & Hdisk)].
    + destruct (frame_trans _ _ _ Hf1 Hf2) as (Hc & Hd & He & Hi). simpl in *.
      eexists _, _. split; [reflexivity|]. simpl.
      split; [left; repeat split; try done; intros _ Hen; rewrite <- Hdisk, <- Hd by done;
              destruct Hf1 as (_ & -> & _); done |].
      rewrite Hc, Hi. by repeat split.
    + destruct (frame_trans _ _ _ Hf1 Hf2) as (Hc & Hd & He & Hi). simpl in *.
      eexists _, _. split; [reflexivity|]. simpl.
      assert (disk_failure w = Some e) as Hw
          by (destruct Hf1 as (_ & Hd1 & _); simpl in Hd1; congruence).
      split; [right; repeat split; try done; congruence |].
      rewrite Hc, Hi. by repeat split.
  - eexists _, _. split; [reflexivity|]. simpl.
    split; [left; by repeat split | by repeat split].
Qed.

Lemma detect_hit svc email w d c :
  CacheService.get (clock w) (CacheService.getInvoiceDetectionKey (em_id email))
    (invoiceCache w) = (Some d, c) ->
  detectSingleInvoice config svc email w = (Return d, set_invoiceCache c w).
Proof.
  intros Hget.
  unfold detectSingleInvoice. unfold bind at 1. unfold cache_get at 1.
  by rewrite Hget.
Qed.

End DetectionFacts.

(** ** The confidence and the default weights *)

Section Confidence.
Context `{JsRuntime}.
Import InvoiceService.
Local Open Scope Q_scope.

(** C1.  For every message and every keyword configuration, under the
    service's score weights (which sum to 1.0), each of the four partial
    scores is in [0, 1] (the clamped sum of non-negative increments) and
    the confidence, their weighted sum, is in [0, 1]. *)
Theorem confidence_in_unit_interval (kw : InvoiceKeywords) (pats : InvoicePatterns)
    (email : EmailMessage) :
  let svc := configured kw pats in
  let w := scoreWeights svc in
  w_subject w + w_sender w + w_content w + w_attachment w == 1 /\
  (0 <= analyzeSubject svc (em_subject email) <= 1) /\
  (0 <= analyzeSender svc (em_from email) <= 1) /\
  (0 <= analyzeContent svc (em_body email) <= 1) /\
  (0 <= analyzeAttachments email <= 1) /\
  (0 <= totalScore svc email <= 1).
Proof.
  intros svc w.
  split; [reflexivity|].
  split; [apply analyzeSubject_range|].
  split; [apply analyzeSender_range|].
  split; [apply analyzeContent_range|].
  split; [apply analyzeAttachments_range|].
  unfold totalScore.
  apply weighted_sum_range;
    try (subst w svc; simpl; lra);
    auto using analyzeSubject_range, analyzeSender_range, analyzeContent_range,
      analyzeAttachments_range.
Qed.

End Confidence.

(** C3, as stated, does not hold: it ranks the attachment weight
    strictly above the sender weight, and the constructor gives both 0.2. *)
Lemma sender_weight_not_below_attachment :
  ~ (let w := InvoiceService.defaultScoreWeights in
     w_subject w + w_sender w + w_content w + w_attachment w == 1 /\
     w_attachment w < w_subject w /\
     w_sender w < w_attachment w /\
     w_content w < w_attachment w)%Q.
Proof. cbv zeta. simpl. intros (_ & _ & Hlt & _). lra. Qed.

(** C3, amended.  The default weights sum to 1.0; the subject weight (0.5)
    is strictly the highest; the attachment and sender weights are equal
    (0.2 each) and come second; the content weight (0.1) is the lowest. *)
Theorem default_weights_ranking :
  (let w := InvoiceService.defaultScoreWeights in
   w_subject w + w_sender w + w_content w + w_attachment w == 1 /\
   w_attachment w < w_subject w /\
   w_sender w == w_attachment w /\
   w_content w < w_sender w)%Q.
Proof. cbv zeta. simpl. repeat split; lra. Qed.

(** C2 at a failing input: with no threshold configured, the message
    [statement_mail] has confidence 0.4; [detectSingleInvoice] compares it
    with 0.3 and classifies it as an invoice, [analyzeEmail] compares it with
    the configured default 0.5 and does not, so [detectInvoices] finds no
    invoice. *)
Theorem batch_path_default_threshold_is_half :
  exists (r : Detection) (a : InvoiceService.Analysis)
         (b : InvoiceService.InvoiceDetectionResult),
    (Examples.detectSingleInvoice Examples.statement_mail (Examples.start 0)).1 = Return r /\
    (Examples.analyzeEmail Examples.statement_mail (Examples.start 0)).1 = Return a /\
    (Examples.detectInvoices [Examples.statement_mail] (Examples.start 0)).1 = Return b /\
    (confidence r == 0.4)%Q /\ isInvoice r = true /\
    (InvoiceService.an_confidenceScore a == 0.4)%Q /\
    InvoiceService.an_isInvoice a = false /\
    InvoiceService.dr_count b = 0%Z /\
    InvoiceService.confidenceThreshold Examples.service = 0.3%Q /\
    Config.confidenceThreshold Examples.config = Some 0.5%Q.
Proof.
  eexists _, _, _. split; [vm_compute; reflexivity|].
  split; [vm_compute; reflexivity|].
  split; [vm_compute; reflexivity|].
  repeat split.
Qed.

(** ** Repeated detection *)

(** C6, as stated, does not hold for [detectSingleInvoice]: results are cached
    under the message's [id] alone.  After [statement_mail] has been detected,
    detecting [regular_mail] (another message with the same [id]) one second
    later is served from the cache (confidence 0.4, an invoice); detecting it
    again 31 minutes later, the entry having expired, computes confidence 0
    and no invoice. *)
Lemma repeated_detection_differs :
  exists (w1 w2 w3 : World) (r0 r1 r2 : Detection),
    Examples.detectSingleInvoice Examples.statement_mail (Examples.start 0)
      = (Return r0, w1) /\
    Examples.detectSingleInvoice Examples.regular_mail (set_clock 1000 w1)
      = (Return r1, w2) /\
    Examples.detectSingleInvoice Examples.regular_mail (set_clock (1000 + 31 * 60 * 1000) w2)
      = (Return r2, w3) /\
    isInvoice r1 = true /\ isInvoice r2 = false /\
    (confidence r1 == 0.4)%Q /\ (confidence r2 == 0)%Q.
Proof.
  eexists _, _, _, _, _, _.
  split; [vm_compute; reflexivity|].
  split; [vm_compute; reflexivity|].
  split; [vm_compute; reflexivity|].
  repeat split.
Qed.

Section RepeatedDetection.
Context `{JsRuntime}.
Context (config : Config.t).
Import InvoiceService.

Lemma computed_agree svc email w w' r r' :
  disk_failure w' = disk_failure w ->
  computed config svc email w r -> computed config svc email w' r' ->
  confidence r = confidence r' /\ isInvoice r = isInvoice r'.
Proof.
  intros Hd [(Hc & Hi & _ & Hok) | (Hc & Hi & Hthr & Hen & _ & Hbad)]
            [(Hc' & Hi' & _ & Hok') | (Hc' & Hi' & Hthr' & Hen' & _ & Hbad')].
  - split; congruence.
  - exfalso. apply Hbad'. rewrite Hd. apply Hok; [congruence | done].
  - exfalso. apply Hbad. rewrite <- Hd. apply Hok'; [congruence | done].
  - split; congruence.
Qed.

(** A run that finds an entry for the message in the cache, live or expired,
    whose result was computed for this message, agrees with that result. *)
Lemma detect_from_entry svc email w0 w item :
  CacheService.cache (invoiceCache w) !! CacheService.getInvoiceDetectionKey (em_id email)
    = Some item ->
  computed config svc email w0 (CacheService.data item) ->
  disk_failure w = disk_failure w0 ->
  exists r w',
    detectSingleInvoice config svc email w = (Return r, w') /\
    confidence (CacheService.data item) = confidence r /\
    isInvoice (CacheService.data item) = isInvoice r.
Proof.
  intros Hitem Hcomp Hdisk.
  destruct (CacheService.get (clock w) (CacheService.getInvoiceDetectionKey (em_id email))
              (invoiceCache w)) as [[d|] c] eqn:Hget.
  - exists d, (set_invoiceCache c w). split; [by apply detect_hit|].
    unfold CacheService.get in Hget. rewrite Hitem in Hget.
    destruct (_ <? _)%Z; simplify_eq. done.
  - destruct (detect_miss config svc email w c Hget) as (r & w' & Hrun & Hcomp' & _).
    exists r, w'. split; [done|]. eapply computed_agree; [| exact Hcomp | exact Hcomp'].
    done.
Qed.

(** C6, amended.  When every live cache entry under the message's [id] holds
    a result computed for this message by this service (in particular when
    there is none), a second run of [detectSingleInvoice] on the same message
    and service, in the world the first run left and at any time [later],
    returns the same confidence and the same classification; and the batch
    path [analyzeEmail] returns the same confidence and classification in any
    two worlds. *)
Theorem repeated_detection_agrees (svc : t) (email : EmailMessage) (w : World) (later : Z)
    (w0 : World) :
  (forall d c,
     CacheService.get (clock w) (CacheService.getInvoiceDetectionKey (em_id email))
       (invoiceCache w) = (Some d, c) ->
     computed config svc email w d) ->
  (exists r1 w1 r2 w2,
     detectSingleInvoice config svc email w = (Return r1, w1) /\
     detectSingleInvoice config svc email (set_clock later w1) = (Return r2, w2) /\
     confidence r1 = confidence r2 /\ isInvoice r1 = isInvoice r2) /\
  (exists a1 a2,
     (analyzeEmail config svc email w).1 = Return a1 /\
     (analyzeEmail config svc email w0).1 = Return a2 /\
     an_confidenceScore a1 = an_confidenceScore a2 /\
     an_isInvoice a1 = an_isInvoice a2).
Proof.
  intros Hentry. split.
  - destruct (CacheService.get (clock w) _ (invoiceCache w)) as [[d|] c] eqn:Hget.
    + (* the first run is served from the cache *)
      specialize (Hentry d c eq_refl).
      exists d, (set_invoiceCache c w).
      assert (exists item,
                CacheService.cache c !! CacheService.getInvoiceDetectionKey (em_id email)
                  = Some item /\ CacheService.data item = d) as (item & Hitem & <-).
      { unfold CacheService.get in Hget.
        destruct (CacheService.cache (invoiceCache w) !! _) as [item|] eqn:Hitem;
          [|by simplify_eq].
        destruct (_ <? _)%Z; simplify_eq. by exists item. }
      destruct (detect_from_entry svc email w (set_clock later (set_invoiceCache c w)) item)
        as (r2 & w2 & Hrun2 & Hconf & Hinv); try done.
      exists r2, w2. split; [by apply detect_hit|]. done.
    + (* the first run computes and stores its result *)
      destruct (detect_miss config svc email w c Hget)
        as (r1 & w1 & Hrun1 & Hcomp1 & Hclock & Hdisk & _ & Hcache).
      destruct (detect_from_entry svc email w (set_clock later w1)
                  {| CacheService.data := r1;
                     CacheService.expireTime := (clock w + Js.num_or (Some (detection_ttl r1))
                                                  (CacheService.defaultTTL c))%Z |})
        as (r2 & w2 & Hrun2 & Hconf & Hinv); try done.
      { simpl. rewrite Hcache. unfold CacheService.set. simpl. apply lookup_insert_eq. }
      exists r1, w1, r2, w2. done.
  - unfold analyzeEmail, bind.
    destruct (extractInvoiceInfo_returns svc email (totalScore svc email) w)
      as (i1 & w1 & He1 & _).
    destruct (extractInvoiceInfo_returns svc email (totalScore svc email) w0)
      as (i2 & w2 & He2 & _).
    unfold totalScore in He1, He2. rewrite He1, He2. simpl.
    eexists _, _. repeat split.
Qed.

End RepeatedDetection.

(** The witness of [repeated_detection_agrees]: [regular_mail] detected five
    seconds after a first detection of it, whose result is still cached. *)
Lemma repeated_detection_agrees_witness :
  let w := set_clock 5000 (Examples.detectSingleInvoice Examples.regular_mail
                             (Examples.start 0)).2 in
  (forall d c,
     CacheService.get (clock w)
       (CacheService.getInvoiceDetectionKey (em_id Examples.regular_mail))
       (invoiceCache w) = (Some d, c) ->
     @computed Sample.runtime Examples.config Examples.service Examples.regular_mail w d) /\
  (CacheService.get (clock w)
     (CacheService.getInvoiceDetectionKey (em_id Examples.regular_mail))
     (invoiceCache w)).1 <> None /\
  (exists r1 w1 r2 w2,
     Examples.detectSingleInvoice Examples.regular_mail w = (Return r1, w1) /\
     Examples.detectSingleInvoice Examples.regular_mail (set_clock 9000 w1)
       = (Return r2, w2) /\
     confidence r1 = confidence r2 /\ isInvoice r1 = isInvoice r2).
Proof.
  cbv zeta.
  assert (forall d c,
            CacheService.get
              (clock (set_clock 5000 (Examples.detectSingleInvoice Examples.regular_mail
                                        (Examples.start 0)).2))
              (CacheService.getInvoiceDetectionKey (em_id Examples.regular_mail))
              (invoiceCache (set_clock 5000 (Examples.detectSingleInvoice
                                               Examples.regular_mail (Examples.start 0)).2))
            = (Some d, c) ->
            @computed Sample.runtime Examples.config Examples.service
              Examples.regular_mail
              (set_clock 5000 (Examples.detectSingleInvoice Examples.regular_mail
                                 (Examples.start 0)).2) d) as Hentry.
  { intros d c Hget. vm_compute in Hget. injection Hget as <- _.
    left. vm_compute. repeat split; intros; discriminate. }
  split; [exact Hentry|]. split; [vm_compute; discriminate|].
  exact (proj1 (@repeated_detection_agrees Sample.runtime Examples.config Examples.service
                  Examples.regular_mail _ 9000 (Examples.start 7) Hentry)).
Defined.

(** ** The normalizer *)

Section Normalizer.
Context `{JsRuntime}.
Import EmailService InvoiceService.

(** C9.  For every message the normalizer produces, under any configuration
    read from the environment (whose attachment limit is 10 MB): the
    attachment list holds exactly the parsed attachments of at most 10 MB, in
    order, so none of its entries exceeds the limit; [hasAttachments] is true
    exactly when that list is non-empty; and when every parsed attachment
    exceeds the limit the list is empty, [hasAttachments] is false and the
    attachment score is 0. *)
Theorem oversized_attachments_dropped (storage threshold : option string)
    (id : string) (now : Z) (parsed : ParsedMail) (seqno : option Z) :
  let config := Config.from_env storage threshold in
  let limit := (10 * 1024 * 1024)%Z in
  let parsedAttachments := default [] (pm_attachments parsed) in
  let m := parseEmailMessage config id now parsed seqno in
  exists attachments,
    em_attachments m = Some attachments /\
    attachments =
      kept_attachment <$> List.filter (fun a => (pa_size a <=? limit)%Z) parsedAttachments /\
    Forall (fun a => (att_size a <= limit)%Z) attachments /\
    (em_hasAttachments m = true <-> attachments <> []) /\
    (Forall (fun a => (limit < pa_size a)%Z) parsedAttachments ->
     attachments = [] /\ em_hasAttachments m = false /\ (analyzeAttachments m == 0)%Q).
Proof.
  intros config limit parsedAttachments m.
  set (kept := kept_attachment <$> List.filter (fun a => (pa_size a <=? limit)%Z) parsedAttachments).
  assert (em_attachments m = Some kept) as Hatts.
  { subst m kept parsedAttachments. unfold parseEmailMessage. simpl.
    destruct (pm_attachments parsed); reflexivity. }
  assert (em_hasAttachments m = negb (length kept =? 0)%nat) as Hhas.
  { subst m kept parsedAttachments. unfold parseEmailMessage. simpl.
    destruct (pm_attachments parsed); reflexivity. }
  exists kept. split; [done|]. split; [done|]. split; [|split].
  - subst kept. apply Forall_fmap, Forall_forall. intros a Ha.
    apply list_elem_of_In, filter_In in Ha as [_ Ha]. simpl. lia.
  - rewrite Hhas. destruct kept; simpl; split; done.
  - intros Hbig.
    assert (kept = []) as Hnil.
    { subst kept. clear Hatts Hhas. induction Hbig as [|a l Ha _ IH]; [done|].
      simpl. destruct (pa_size a <=? limit)%Z eqn:Hle; [lia | exact IH]. }
    split; [done|]. split; [by rewrite Hhas, Hnil|].
    unfold analyzeAttachments. rewrite Hatts, Hhas, Hnil. reflexivity.
Qed.

End Normalizer.

(** ** Facts on lists and on the loops of EmailService *)

Section Loops.
Context `{JsRuntime}.
Context (config : Config.t).
Context (srv : MailServer).
Import EmailService.

Lemma insert_by_date_perm e l : insert_by_date e l ≡ₚ e :: l.
Proof.
  induction l as [|x l IH]; simpl; [done|].
  destruct (em_date x <=? em_date e)%Z; [done|].
  rewrite IH. apply Permutation_swap.
Qed.

Lemma sort_newest_first_perm l : sort_newest_first l ≡ₚ l.
Proof.
  induction l as [|x l IH]; simpl; [done|].
  unfold sort_newest_first in *. simpl. rewrite insert_by_date_perm. by rewrite IH.
Qed.

Lemma sort_newest_first_length l : length (sort_newest_first l) = length l.
Proof. by rewrite sort_newest_first_perm. Qed.

Lemma slice_length_le {A} (l : list A) (start : Z) (final : option Z) :
  length (Js.slice l start final) <= length l.
Proof.
  unfold Js.slice. rewrite length_take, length_drop. lia.
Qed.

(** [l.slice(0, n)] keeps at most [n] elements when [n] is not negative. *)
Lemma slice_prefix_length {A} (l : list A) (n : Z) :
  (0 <= n)%Z -> (Z.of_nat (length (Js.slice l 0 (Some n))) <= n)%Z.
Proof.
  intros Hn. unfold Js.slice, Js.rel_index. rewrite length_take, length_drop.
  simpl. destruct (n <? 0)%Z eqn:Hneg; lia.
Qed.

(** [l.slice(-n)] keeps at most [n] elements when [n] is positive. *)
Lemma slice_suffix_length {A} (l : list A) (n : Z) :
  (1 <= n)%Z -> (Z.of_nat (length (Js.slice l (- n) None)) <= n)%Z.
Proof.
  intros Hn. unfold Js.slice, Js.rel_index. rewrite length_take, length_drop.
  destruct (- n <? 0)%Z eqn:Hneg; lia.
Qed.

Lemma touched_same w : touched (uuids w) (logs w) w = w.
Proof. by destruct w. Qed.

(** *** A loop that parses and pushes, or logs and skips

    Both variants run the same loop over their items: [attempt] is what
    retrieving and parsing an item yields, [seq] its sequence number and
    [record] the error record logged when the attempt fails. *)
Section Gather.
Context {X : Type}.
Context (attempt : X -> Js.Result ParsedMail).
Context (seq : X -> option Z).
Context (record : X -> string -> LogRecord).
Local Abbreviation collected := (Spec.collected config attempt seq record).
Local Abbreviation fails := (Spec.fails attempt).

Lemma for_each_collected (step : list EmailMessage -> X -> M (list EmailMessage))
    (w : World) :
  (forall n l emails x,
     step emails x (touched n l w) =
     match attempt x with
     | Js.Ok parsed =>
         (Return (emails ++ [parseEmailMessage config (uuid_text n) (clock w) parsed (seq x)]),
          touched (S n) l w)
     | Js.Err reason => (Return emails, touched n (l ++ [record x reason]) w)
     end) ->
  forall items emails,
    for_each step items emails w =
    (Return (emails ++ (collected (clock w) (uuids w) items).1),
     touched (uuids w + length (collected (clock w) (uuids w) items).1)
       (logs w ++ (collected (clock w) (uuids w) items).2) w).
Proof.
  intros Hstep items emails.
  rewrite <- (touched_same w) at 1.
  generalize (uuids w) as n, (logs w) as l. revert emails.
  induction items as [|x rest IH]; intros emails n l; simpl.
  - unfold ret. by rewrite !app_nil_r, Nat.add_0_r.
  - unfold bind. rewrite Hstep.
    destruct (attempt x) as [parsed|reason];
      rewrite IH; destruct (collected (clock w) _ rest) as [ms ls]; simpl.
    + by rewrite <- app_assoc, Nat.add_succ_r.
    + by rewrite <- app_assoc.
Qed.

Lemma collected_app now n items rest :
  (collected now n (items ++ rest)).1 =
  (collected now n items).1 ++
  (collected now (n + length (collected now n items).1) rest).1.
Proof.
  revert n. induction items as [|x items IH]; intros n; simpl.
  - by rewrite Nat.add_0_r.
  - destruct (attempt x).
    + specialize (IH (S n)).
      destruct (collected now (S n) (items ++ rest)), (collected now (S n) items).
      simpl in *. by rewrite IH, Nat.add_succ_r.
    + specialize (IH n).
      destruct (collected now n (items ++ rest)), (collected now n items).
      simpl in *. by rewrite IH.
Qed.

Lemma collected_lengths now n items :
  length (collected now n items).1 + length (collected now n items).2 = length items.
Proof.
  revert n. induction items as [|x rest IH]; intros n; simpl; [done|].
  destruct (attempt x).
  - specialize (IH (S n)). destruct (collected now (S n) rest). simpl in *. lia.
  - specialize (IH n). destruct (collected now n rest). simpl in *. lia.
Qed.

Lemma collected_failures now n items :
  length (collected now n items).2 = length (List.filter fails items).
Proof.
  revert n. induction items as [|x rest IH]; intros n; simpl; [done|].
  unfold fails at 1. destruct (attempt x).
  - specialize (IH (S n)). by destruct (collected now (S n) rest).
  - specialize (IH n). destruct (collected now n rest). simpl in *. by rewrite IH.
Qed.

Lemma collected_success now n items x parsed :
  x ∈ items -> attempt x = Js.Ok parsed ->
  exists id,
    parseEmailMessage config id now parsed (seq x) ∈ (collected now n items).1.
Proof.
  revert n. induction items as [|y rest IH]; intros n Hin Hok.
  - by apply elem_of_nil in Hin.
  - apply elem_of_cons in Hin as [->|Hin]; simpl.
    + rewrite Hok. destruct (collected now (S n) rest). eexists. apply list_elem_of_here.
    + destruct (attempt y).
      * destruct (IH (S n) Hin Hok) as [id Hid]. destruct (collected now (S n) rest).
        exists id. by apply list_elem_of_further.
      * destruct (IH n Hin Hok) as [id Hid]. destruct (collected now n rest).
        by exists id.
Qed.

Lemma collected_failure now n items x reason :
  x ∈ items -> attempt x = Js.Err reason ->
  record x reason ∈ (collected now n items).2.
Proof.
  revert n. induction items as [|y rest IH]; intros n Hin Herr.
  - by apply elem_of_nil in Hin.
  - apply elem_of_cons in Hin as [->|Hin]; simpl.
    + rewrite Herr. destruct (collected now n rest). apply list_elem_of_here.
    + destruct (attempt y).
      * specialize (IH (S n) Hin Herr). by destruct (collected now (S n) rest).
      * specialize (IH n Hin Herr). destruct (collected now n rest).
        by apply list_elem_of_further.
Qed.

End Gather.

(** *** The POP3 loop *)

Local Abbreviation collected := (Spec.collected config).
Local Abbreviation retrieved := (Spec.retrieved srv).
Local Abbreviation pop3_collected := (Spec.pop3_collected config srv).
Local Abbreviation imap_collected := (Spec.imap_collected config srv).

Lemma retrieveOne_step w n l emails emailInfo :
  retrieveOne config srv emails emailInfo (touched n l w) =
  match retrieved w emailInfo with
  | Js.Ok parsed =>
      (Return (emails ++ [parseEmailMessage config (uuid_text n) (clock w) parsed
                            (msgNumber emailInfo)]),
       touched (S n) l w)
  | Js.Err reason => (Return emails, touched n (l ++ [skipped emailInfo reason]) w)
  end.
Proof.
  unfold retrieveOne, retrieved, try_catch, retrievePOP3Email, bind, read. simpl.
  destruct (pop3_handle w); simpl; [|reflexivity].
  destruct (srv_retr srv (msgNumber emailInfo)) as [content|raw]; simpl; [|reflexivity].
  destruct (simpleParser srv content) as [parsed|e]; simpl; reflexivity.
Qed.

Lemma fetchPOP3EmailDetails_run emailList w :
  fetchPOP3EmailDetails config srv emailList w =
  (Return (sort_newest_first (pop3_collected w emailList).1),
   touched (uuids w + length (pop3_collected w emailList).1)
     (logs w ++ (pop3_collected w emailList).2) w).
Proof.
  unfold fetchPOP3EmailDetails, bind, pop3_collected.
  rewrite (for_each_collected (retrieved w) msgNumber skipped _ w); [reflexivity|].
  intros n l emails x. apply retrieveOne_step.
Qed.

(** C8.  The POP3 retrieval loop never aborts: it returns one message for
    every entry that is retrieved and parsed and logs one error record for
    every entry that is not, so the returned messages and the logged failures
    add up to the N entries; every successfully parsed message is among the
    returned ones; and when exactly one entry fails, N - 1 messages are
    returned. *)
Theorem pop3_batch_skips_failed_message (emailList : list ListEntry) (w : World) :
  exists (result : list EmailMessage) (records : list LogRecord) (w' : World),
    fetchPOP3EmailDetails config srv emailList w = (Return result, w') /\
    logs w' = logs w ++ records /\
    length records = length (List.filter (fails (retrieved w)) emailList) /\
    length result + length records = length emailList /\
    (forall emailInfo parsed,
       emailInfo ∈ emailList -> retrieved w emailInfo = Js.Ok parsed ->
       exists id,
         parseEmailMessage config id (clock w) parsed (msgNumber emailInfo) ∈ result) /\
    (forall emailInfo reason,
       emailInfo ∈ emailList -> retrieved w emailInfo = Js.Err reason ->
       skipped emailInfo reason ∈ records) /\
    (length (List.filter (fails (retrieved w)) emailList) = 1 ->
     length result = length emailList - 1).
Proof.
  eexists _, _, _. split; [apply fetchPOP3EmailDetails_run|]. unfold pop3_collected.
  pose proof (collected_lengths (retrieved w) msgNumber skipped (clock w) (uuids w) emailList)
    as Hlen.
  pose proof (collected_failures (retrieved w) msgNumber skipped (clock w) (uuids w) emailList)
    as Hfail.
  split; [reflexivity|]. split; [exact Hfail|].
  rewrite sort_newest_first_length. split; [exact Hlen|].
  split; [|split].
  - intros emailInfo parsed Hin Hok.
    destruct (collected_success (retrieved w) msgNumber skipped (clock w) (uuids w)
                emailList emailInfo parsed Hin Hok) as [id Hid].
    exists id. by rewrite sort_newest_first_perm.
  - intros emailInfo reason Hin Herr. by apply collected_failure.
  - intros Hone. lia.
Qed.

(** *** The IMAP loop *)

Lemma onMessage_step w n l emails msg :
  onMessage config srv emails msg (touched n l w) =
  match simpleParser srv msg.2 with
  | Js.Ok parsed =>
      (Return (emails ++ [parseEmailMessage config (uuid_text n) (clock w) parsed
                            (Some msg.1)]),
       touched (S n) l w)
  | Js.Err reason => (Return emails, touched n (l ++ [unparsed msg reason]) w)
  end.
Proof.
  destruct msg as [seqno buffer]. unfold onMessage. simpl.
  destruct (simpleParser srv buffer) as [parsed|e]; reflexivity.
Qed.

Lemma imap_collected_length w messages :
  length (imap_collected w messages).1 <= length messages.
Proof.
  unfold imap_collected.
  pose proof (collected_lengths (fun msg => simpleParser srv msg.2)
                (fun msg : Z * string => Some msg.1) unparsed (clock w) (uuids w) messages).
  lia.
Qed.

Lemma pop3_collected_length w emailList :
  length (pop3_collected w emailList).1 <= length emailList.
Proof.
  unfold pop3_collected.
  pose proof (collected_lengths (retrieved w) msgNumber skipped (clock w) (uuids w) emailList).
  lia.
Qed.

End Loops.

(** ** The two fetch variants, run *)

Section FetchFacts.
Context `{JsRuntime}.
Context (config : Config.t).
Context (srv : MailServer).
Import EmailService.

Lemma settle_run items emails w :
  for_each (onMessage config srv) items emails w =
  (Return (emails ++ (imap_collected config srv w items).1),
   touched (uuids w + length (imap_collected config srv w items).1)
     (logs w ++ (imap_collected config srv w items).2) w).
Proof.
  unfold imap_collected.
  apply (for_each_collected config (fun msg => simpleParser srv msg.2)
           (fun msg : Z * string => Some msg.1) (unparsed) _ w).
  intros n l emails' x. apply onMessage_step.
Qed.

Lemma fetchEmailDetails_run uids w :
  fetchEmailDetails config srv uids w =
  if imap_handle w then
    match srv_fetch srv uids with
    | Js.Ok messages =>
        let early := imap_collected config srv w (settling srv BeforeEnd messages) in
        (Return (sort_newest_first early.1, messages),
         touched (uuids w + length early.1) (logs w ++ early.2) w)
    | Js.Err e => (Throw e, w)
    end
  else (Throw "IMAP连接未建立", w).
Proof.
  unfold fetchEmailDetails, bind, read. simpl.
  destruct (imap_handle w); simpl; [|reflexivity].
  destruct (srv_fetch srv uids) as [messages|e]; simpl; [|reflexivity].
  by rewrite settle_run.
Qed.

(** The stages share the fetched messages among them. *)
Lemma settling_lengths messages :
  length (settling srv BeforeEnd messages) + length (settling srv BeforeResume messages) +
  length (settling srv BeforeResult messages) <= length messages.
Proof.
  unfold settling. induction messages as [|msg rest IH]; simpl; [done|].
  destruct (srv_settles srv msg); simpl; lia.
Qed.

(** The array of an IMAP fetch never holds more messages than were
    fetched, whenever the parses in it settled. *)
Lemma array_length wa wb wc messages :
  length (sort_newest_first (imap_collected config srv wa (settling srv BeforeEnd messages)).1 ++
          (imap_collected config srv wb (settling srv BeforeResume messages)).1) +
  length (imap_collected config srv wc (settling srv BeforeResult messages)).1
  <= length messages.
Proof.
  rewrite length_app, sort_newest_first_length.
  pose proof (imap_collected_length config srv wa (settling srv BeforeEnd messages)).
  pose proof (imap_collected_length config srv wb (settling srv BeforeResume messages)).
  pose proof (imap_collected_length config srv wc (settling srv BeforeResult messages)).
  pose proof (settling_lengths messages). lia.
Qed.

Lemma buildSearchCriteria_run q w :
  exists criteria, buildSearchCriteria q w = (Return criteria, w).
Proof.
  unfold buildSearchCriteria, bind, Date_now, read, ret.
  destruct (Js.truthy_opt (q_since q)); simpl; eexists; reflexivity.
Qed.

(** Unfolds the monad and the fields of the world, leaving the calls of the
    server and of the loops in place. *)
Ltac run :=
  cbv beta iota zeta delta
    [bind ret throw try_catch await update read status Date_now logger_error logger_warn
     connectIMAP connectPOP3 disconnect disconnectIMAP disconnectPOP3
     openBox searchEmails cache_set saveIfEnabled saveEmails writeJsonFile
     completeIMAP completePOP3
     touched set_clock set_uuids set_files set_logs set_emailCache set_invoiceCache
     set_connection
     clock uuids disk_failure files logs emailCache invoiceCache imap_handle pop3_handle
     currentProtocol connectionStatus fst snd negb].

Lemma fetchEmailsIMAP_run q key w :
  exists out w',
    fetchEmailsIMAP config srv q key w = (out, w') /\
    currentProtocol w' = IMAP /\
    match out with
    | Throw e => emailCache w' = emailCache w
    | Return r =>
        imap_handle w' = false /\
        (r = noMatch \/
         exists found messages details,
           srv_fetch srv (Js.slice (reverse found) 0 (Some (requested q))) = Js.Ok messages /\
           length details <= length messages /\
           r = fetched (imap_since q details))
    end.
Proof.
  destruct (fetchEmailsIMAP config srv q key w) as [out w'] eqn:Hrun.
  exists out, w'. split; [done|]. revert Hrun.
  destruct w as [ck uu dk fl lg ec ic ih ph cp cs].
  unfold fetchEmailsIMAP. run.
  destruct (srv_connect srv IMAP q) as [|d|e]; run;
    try (intros [= <- <-]; by split).
  destruct (srv_openBox srv _) as [[]|e]; run;
    try (intros [= <- <-]; by split).
  match goal with
  | |- context [buildSearchCriteria q ?W] =>
      destruct (buildSearchCriteria_run q W) as [criteria ->]
  end.
  run.
  destruct (srv_search srv criteria) as [found|e]; run;
    try (intros [= <- <-]; by split).
  destruct (length (reverse found) =? 0)%nat; run.
  { intros [= <- <-]. split; [done|]. split; [done|]. by left. }
  rewrite fetchEmailDetails_run. run.
  destruct (srv_fetch srv _) as [messages|e] eqn:Hfetch; run;
    try (intros [= <- <-]; by split).
  rewrite settle_run. run. rewrite settle_run. run.
  match goal with
  | |- context [(sort_newest_first ?early ++ ?resumed) ++ ?late] =>
      pose proof (array_length _ _ _ messages : length (sort_newest_first early ++ resumed)
                                                + length late <= length messages) as Hlen;
      set (array := sort_newest_first early ++ resumed) in *;
      set (pushed := late) in *
  end.
  assert (exists details,
            length details <= length messages /\
            fetched (if Js.truthy_opt (q_since q)
                     then sameOrAfter (moment_since (Js.or_else (q_since q) "")) array
                     else array ++ pushed)
            = fetched (imap_since q details)) as (details & Hdetails & Hresult).
  { unfold imap_since. destruct (Js.truthy_opt (q_since q)).
    - exists array. split; [lia | done].
    - exists (array ++ pushed). split; [rewrite length_app; lia | done]. }
  rewrite Hresult.
  destruct (Config.enableLocalStorage config); run.
  - destruct dk as [e|]; run; intros [= <- <-]; (split; [done|]); [done|].
    split; [done|]. right. by exists found, messages, details.
  - intros [= <- <-]. split; [done|]. split; [done|].
    right. by exists found, messages, details.
Qed.

Lemma decodeList_run returnValue data w :
  exists emailList extra,
    decodeList returnValue data w = (Return emailList, set_logs (logs w ++ extra) w).
Proof.
  destruct w as [ck uu dk fl lg ec ic ih ph cp cs].
  unfold decodeList, parsePOP3List. destruct returnValue as [items|fields|]; run.
  - eexists _, []. by rewrite app_nil_r.
  - eexists _, []. by rewrite app_nil_r.
  - destruct (Js.truthy data); run.
    + eexists _, []. by rewrite app_nil_r.
    + eexists _, [_]. reflexivity.
Qed.

Lemma pop3TimeFilter_run q emails w :
  exists extra,
    pop3TimeFilter q emails w =
    (Return (pop3_since q (clock w) emails), set_logs (logs w ++ extra) w).
Proof.
  destruct w as [ck uu dk fl lg ec ic ih ph cp cs].
  unfold pop3TimeFilter, pop3_since. destruct (Js.truthy_opt (q_since q)); run.
  - destruct (moment_since _); run.
    + exists []. by rewrite app_nil_r.
    + eexists. reflexivity.
  - exists []. by rewrite app_nil_r.
Qed.

Lemma onList_run q key returnValue data w :
  currentProtocol w = POP3 ->
  exists out w',
    onList config srv q key returnValue data w = (out, w') /\
    currentProtocol w' = POP3 /\
    match out with
    | Throw e => emailCache w' = emailCache w
    | Return r =>
        pop3_handle w' = false /\
        (r = noMatch \/
         exists (emailList : list ListEntry) details,
           length details <= length (Js.slice emailList (- requested q) None) /\
           r = fetched (pop3_filtered q (clock w) details))
    end.
Proof.
  intros Hproto.
  destruct (onList config srv q key returnValue data w) as [out w'] eqn:Hrun.
  exists out, w'. split; [done|]. revert Hrun.
  unfold onList. unfold bind at 1.
  destruct (decodeList_run returnValue data w) as (emailList & extra & ->).
  destruct w as [ck uu dk fl lg ec ic ih ph cp cs]. simpl in Hproto. subst cp.
  run.
  destruct (length emailList =? 0)%nat; run.
  { destruct ph; intros [= <- <-]; (split; [done|]); (split; [done|]); by left. }
  rewrite fetchPOP3EmailDetails_run. run.
  match goal with
  | |- context [pop3TimeFilter q ?es ?W] =>
      destruct (pop3TimeFilter_run q es W) as [extra' ->]
  end.
  run.
  assert (length (sort_newest_first
            (pop3_collected config srv
               {| clock := ck; uuids := uu; disk_failure := dk; files := fl;
                  logs := lg ++ extra; emailCache := ec; invoiceCache := ic;
                  imap_handle := ih; pop3_handle := ph; currentProtocol := POP3;
                  connectionStatus := cs |}
               (reverse (Js.slice emailList (- Js.num_or (limit q) 10) None))).1)
          <= length (Js.slice emailList (- requested q) None)) as Hlen.
  { rewrite sort_newest_first_length.
    etrans; [apply pop3_collected_length|]. by rewrite length_reverse. }
  destruct ph; run;
    (destruct (Config.enableLocalStorage config); run;
     [destruct dk as [e|]; run|]);
    intros [= <- <-]; (split; [done|]); try done;
    (split; [done|]); right; eexists emailList, _; (split; [exact Hlen|]); reflexivity.
Qed.

Lemma fetchEmailsPOP3_run q key w :
  exists out w',
    fetchEmailsPOP3 config srv q key w = (out, w') /\
    currentProtocol w' = POP3 /\
    match out with
    | Throw e => emailCache w' = emailCache w
    | Return r =>
        pop3_handle w' = false /\
        (r = noMatch \/
         exists (emailList : list ListEntry) details,
           length details <= length (Js.slice emailList (- requested q) None) /\
           r = fetched (pop3_filtered q (clock w) details))
    end.
Proof.
  destruct (fetchEmailsPOP3 config srv q key w) as [out w'] eqn:Hrun.
  exists out, w'. split; [done|]. revert Hrun.
  destruct w as [ck uu dk fl lg ec ic ih ph cp cs].
  unfold fetchEmailsPOP3. run.
  destruct (srv_connect srv POP3 q) as [|d|e]; run;
    try (intros [= <- <-]; by split).
  destruct (srv_list srv) as [e|resp returnValue dataStr]; run;
    try (intros [= <- <-]; by split).
  destruct resp; run; try (intros [= <- <-]; by split).
  match goal with
  | |- context [onList config srv q key returnValue dataStr ?W] =>
      destruct (onList_run q key returnValue dataStr W eq_refl)
        as (out1 & w1 & -> & Hproto & Hout)
  end.
  destruct out1 as [r|e]; run.
  - intros [= <- <-]. split; [done|]. exact Hout.
  - destruct w1 as [ck1 uu1 dk1 fl1 lg1 ec1 ic1 ih1 ph1 cp1 cs1].
    simpl in Hproto, Hout. subst cp1. run.
    destruct ph1; intros [= <- <-]; by split.
Qed.

Lemma completeIMAP_result q key retrieved pending w r w' :
  completeIMAP config srv q key retrieved pending w = (Return r, w') ->
  r = fetched (if Js.truthy_opt (q_since q) then imap_since q retrieved
               else retrieved ++ (imap_collected config srv w pending).1).
Proof.
  destruct w as [ck uu dk fl lg ec ic ih ph cp cs]. run.
  destruct cp; [destruct ih | destruct ph]; run; rewrite settle_run; run;
    (destruct (Config.enableLocalStorage config); run;
     [destruct dk; run|]);
    intros [= <- <-]; unfold imap_since, imap_collected;
    by destruct (Js.truthy_opt (q_since q)).
Qed.

Lemma completePOP3_result q key retrieved w r w' :
  completePOP3 config q key retrieved w = (Return r, w') ->
  r = fetched (pop3_filtered q (clock w) retrieved).
Proof.
  unfold completePOP3. unfold bind at 1.
  destruct (pop3TimeFilter_run q retrieved w) as [extra ->].
  destruct w as [ck uu dk fl lg ec ic ih ph cp cs]. run.
  destruct cp; run;
    (destruct (Config.enableLocalStorage config); run;
     [match goal with |- context [match ?d with Some _ => _ | None => _ end] =>
        destruct d; run end|]);
    by intros [= <- <-].
Qed.

Lemma fetchEmails_run q w :
  exists r w',
    fetchEmails config srv q w = (Return r, w') /\
    handle (default IMAP (protocol q)) w' = false /\
    ((exists reason,
        r = failure reason /\ emailCache w' = emailCache w /\
        last (logs w') = Some (fetch_failed q reason)) \/
     r = noMatch \/
     (exists found messages details,
        srv_fetch srv (Js.slice (reverse found) 0 (Some (requested q))) = Js.Ok messages /\
        length details <= length messages /\
        r = fetched (imap_since q details)) \/
     (exists (emailList : list ListEntry) details,
        length details <= length (Js.slice emailList (- requested q) None) /\
        r = fetched (pop3_filtered q (clock w) details))).
Proof.
  unfold fetchEmails, try_catch.
  destruct (default IMAP (protocol q)).
  - destruct (fetchEmailsIMAP_run q (fetchKey q) w) as (out & w1 & -> & Hproto & Hout).
    destruct out as [r|e].
    + destruct Hout as [Hclosed [->|Hdetails]]; eexists _, _; (split; [reflexivity|]);
        (split; [exact Hclosed|]); auto.
    + destruct w1 as [ck uu dk fl lg ec ic ih ph cp cs]. simpl in Hproto, Hout.
      subst cp. run. eexists _, _. split; [reflexivity|].
      split; [by destruct ih|]. left. exists e. split; [done|].
      destruct ih; simpl; (split; [done|]); by rewrite last_snoc.
  - destruct (fetchEmailsPOP3_run q (fetchKey q) w) as (out & w1 & -> & Hproto & Hout).
    destruct out as [r|e].
    + destruct Hout as [Hclosed [->|Hdetails]]; eexists _, _; (split; [reflexivity|]);
        (split; [exact Hclosed|]); auto.
    + destruct w1 as [ck uu dk fl lg ec ic ih ph cp cs]. simpl in Hproto, Hout.
      subst cp. run. eexists _, _. split; [reflexivity|].
      split; [by destruct ph|]. left. exists e. split; [done|].
      destruct ph; simpl; (split; [done|]); by rewrite last_snoc.
Qed.

(** *** When the server answers, and when it fails *)

Lemma buildSearchCriteria_same q w w1 criteria :
  clock w1 = clock w ->
  (buildSearchCriteria q w).1 = Return criteria ->
  buildSearchCriteria q w1 = (Return criteria, w1).
Proof.
  unfold buildSearchCriteria, bind, Date_now, read, ret. intros Hclock.
  destruct (Js.truthy_opt (q_since q)); simpl; rewrite ?Hclock; by intros [= <-].
Qed.

Lemma decodeList_same returnValue data w w1 emailList :
  (decodeList returnValue data w).1 = Return emailList ->
  exists extra,
    decodeList returnValue data w1 = (Return emailList, set_logs (logs w1 ++ extra) w1).
Proof.
  destruct w as [ck uu dk fl lg ec ic ih ph cp cs].
  destruct w1 as [ck1 uu1 dk1 fl1 lg1 ec1 ic1 ih1 ph1 cp1 cs1].
  unfold decodeList, parsePOP3List. destruct returnValue as [items|fields|]; run.
  - intros [= <-]. exists []. by rewrite app_nil_r.
  - intros [= <-]. exists []. by rewrite app_nil_r.
  - destruct (Js.truthy data); run; intros [= <-].
    + exists []. by rewrite app_nil_r.
    + eexists [_]. reflexivity.
Qed.

Lemma found_some (found : list Z) : found <> [] -> (length (reverse found) =? 0)%nat = false.
Proof. intros Hfound. rewrite length_reverse. by destruct found. Qed.

(** The array of [fetchEmailDetails] when [since] is re-checked holds the
    messages parsed by then. *)
Lemma array_rechecked w wa wb messages :
  clock wa = clock w -> uuids wa = uuids w -> clock wb = clock w ->
  uuids wb =
    uuids w + length (imap_collected config srv wa (settling srv BeforeEnd messages)).1 ->
  sort_newest_first (imap_collected config srv wa (settling srv BeforeEnd messages)).1 ++
  (imap_collected config srv wb (settling srv BeforeResume messages)).1
  ≡ₚ (imap_collected config srv w (rechecked srv messages)).1.
Proof.
  unfold rechecked, imap_collected. intros -> -> -> ->.
  rewrite collected_app. by rewrite sort_newest_first_perm.
Qed.

(** An IMAP fetch the server answers returns the array of
    [fetchEmailDetails] as it is when [since] is re-checked, filtered, or,
    without [since], as it is when the result is built. *)
Lemma fetchEmailsIMAP_delivers q key w messages :
  imap_delivers srv q w messages -> writable config w ->
  exists array late w',
    fetchEmailsIMAP config srv q key w =
    (Return (fetched (if Js.truthy_opt (q_since q) then imap_since q array
                      else array ++ late)), w') /\
    array ≡ₚ (imap_collected config srv w (rechecked srv messages)).1.
Proof.
  intros (Hconnect & Hopen & criteria & found & Hcriteria & Hsearch & Hfound & Hfetch) Hdisk.
  destruct w as [ck uu dk fl lg ec ic ih ph cp cs].
  unfold fetchEmailsIMAP. run. rewrite Hconnect. run. rewrite Hopen. run.
  pose proof (fun W HW => buildSearchCriteria_same q _ W criteria HW Hcriteria) as Hsame.
  match goal with
  | |- context [buildSearchCriteria q ?W] => rewrite (Hsame W eq_refl)
  end.
  run. rewrite Hsearch. run. rewrite (found_some found Hfound).
  rewrite fetchEmailDetails_run. run. unfold requested in Hfetch. rewrite Hfetch. run.
  rewrite settle_run. run. rewrite settle_run. run.
  match goal with
  | |- context [(sort_newest_first ?early ++ ?resumed) ++ ?late] =>
      exists (sort_newest_first early ++ resumed), late
  end.
  unfold writable in Hdisk. simpl in Hdisk. unfold imap_since.
  destruct (Js.truthy_opt (q_since q));
    (destruct (Config.enableLocalStorage config); run;
     [rewrite (Hdisk eq_refl); run|]);
    eexists; (split; [reflexivity|]);
    by apply array_rechecked.
Qed.

(** A POP3 fetch the server answers returns the messages it retrieves,
    sorted and filtered. *)
Lemma fetchEmailsPOP3_delivers q key w emailList :
  pop3_delivers srv q w emailList -> writable config w ->
  exists w',
    fetchEmailsPOP3 config srv q key w =
    (Return (fetched (pop3_filtered q (clock w)
                        (sort_newest_first
                           (pop3_collected config srv (online w)
                              (pop3_limited q emailList)).1))), w').
Proof.
  intros (Hconnect & returnValue & data & Hlist & Hdecode & Hsome) Hdisk.
  destruct w as [ck uu dk fl lg ec ic ih ph cp cs].
  unfold fetchEmailsPOP3. run. rewrite Hconnect. run. rewrite Hlist. run.
  unfold onList. run.
  match goal with
  | |- context [decodeList returnValue data ?W] =>
      destruct (decodeList_same returnValue data _ W emailList Hdecode) as [extra ->]
  end.
  run.
  assert ((length emailList =? 0)%nat = false) as -> by (by destruct emailList).
  rewrite fetchPOP3EmailDetails_run. run.
  match goal with
  | |- context [pop3TimeFilter q ?es ?W] =>
      destruct (pop3TimeFilter_run q es W) as [extra' ->]
  end.
  run. unfold writable in Hdisk. simpl in Hdisk.
  destruct (Config.enableLocalStorage config); run;
    [rewrite (Hdisk eq_refl); run|]; eexists; reflexivity.
Qed.

(** A fetch the server fails returns the failure with the reason of the
    server. *)
Lemma fetchEmails_fails q w reason :
  fails_with srv q w reason ->
  (fetchEmails config srv q w).1 = Return (failure reason).
Proof.
  intros Hfails. destruct w as [ck uu dk fl lg ec ic ih ph cp cs].
  unfold fetchEmails.
  destruct Hfails as
    [e Hconnect | e Hasked Hconnect | d Hasked Hconnect | e Hasked Hconnect Hopen
    | criteria e Hasked Hconnect Hopen Hcriteria Hsearch
    | criteria found e Hasked Hconnect Hopen Hcriteria Hsearch Hfound Hfetch
    | e Hasked Hconnect Hlist | returnValue data Hasked Hconnect Hlist];
    unfold asked in *.
  - destruct (default IMAP (protocol q));
      [unfold fetchEmailsIMAP | unfold fetchEmailsPOP3]; run; rewrite Hconnect; by run.
  - rewrite Hasked. unfold fetchEmailsIMAP. run. rewrite Hconnect. by run.
  - rewrite Hasked. unfold fetchEmailsPOP3. run. rewrite Hconnect. by run.
  - rewrite Hasked. unfold fetchEmailsIMAP. run. rewrite Hconnect. run.
    rewrite Hopen. by run.
  - rewrite Hasked. unfold fetchEmailsIMAP. run. rewrite Hconnect. run.
    rewrite Hopen. run.
    pose proof (fun W HW => buildSearchCriteria_same q _ W criteria HW Hcriteria) as Hsame.
    match goal with
    | |- context [buildSearchCriteria q ?W] => rewrite (Hsame W eq_refl)
    end.
    run. rewrite Hsearch. by run.
  - rewrite Hasked. unfold fetchEmailsIMAP. run. rewrite Hconnect. run.
    rewrite Hopen. run.
    pose proof (fun W HW => buildSearchCriteria_same q _ W criteria HW Hcriteria) as Hsame.
    match goal with
    | |- context [buildSearchCriteria q ?W] => rewrite (Hsame W eq_refl)
    end.
    run. rewrite Hsearch. run. rewrite (found_some found Hfound).
    rewrite fetchEmailDetails_run. run. unfold requested in Hfetch. rewrite Hfetch. by run.
  - rewrite Hasked. unfold fetchEmailsPOP3. run. rewrite Hconnect. run.
    rewrite Hlist. by run.
  - rewrite Hasked. unfold fetchEmailsPOP3. run. rewrite Hconnect. run.
    rewrite Hlist. by run.
Qed.

(** A fetch the server answers, when saving cannot fail, returns the
    messages of [fetchEmailsIMAP_delivers] or [fetchEmailsPOP3_delivers]. *)
Lemma fetchEmails_imap_delivers q w messages :
  asked q = IMAP -> imap_delivers srv q w messages -> writable config w ->
  exists array late w',
    fetchEmails config srv q w =
    (Return (fetched (if Js.truthy_opt (q_since q) then imap_since q array
                      else array ++ late)), w') /\
    array ≡ₚ (imap_collected config srv w (rechecked srv messages)).1.
Proof.
  intros Hasked Hanswer Hdisk. unfold fetchEmails, try_catch. unfold asked in Hasked.
  rewrite Hasked.
  destruct (fetchEmailsIMAP_delivers q (fetchKey q) w messages Hanswer Hdisk)
    as (array & late & w' & -> & Harray).
  by exists array, late, w'.
Qed.

Lemma fetchEmails_pop3_delivers q w emailList :
  asked q = POP3 -> pop3_delivers srv q w emailList -> writable config w ->
  exists w',
    fetchEmails config srv q w =
    (Return (fetched (pop3_filtered q (clock w)
                        (sort_newest_first
                           (pop3_collected config srv (online w)
                              (pop3_limited q emailList)).1))), w').
Proof.
  intros Hasked Hanswer Hdisk. unfold fetchEmails, try_catch. unfold asked in Hasked.
  rewrite Hasked.
  destruct (fetchEmailsPOP3_delivers q (fetchKey q) w emailList Hanswer Hdisk) as (w' & ->).
  by exists w'.
Qed.

End FetchFacts.

(** ** Lower bound, limit and failure of a fetch *)

Section FetchProperties.
Context `{JsRuntime}.
Context (config : Config.t).
Context (srv : MailServer).
Import EmailService.

Lemma elem_of_sameOrAfter t e l :
  e ∈ sameOrAfter (Some t) l <-> e ∈ l /\ (t <= em_date e)%Z.
Proof.
  unfold sameOrAfter. rewrite !list_elem_of_In, filter_In, Z.leb_le. done.
Qed.

Lemma elem_of_containsFilter field needle e l :
  e ∈ containsFilter field needle l <-> e ∈ l /\ contains_ok field needle e.
Proof.
  unfold containsFilter, contains_ok. destruct (Js.truthy_opt needle).
  - rewrite !list_elem_of_In, filter_In. split; intros [Hin Hok]; auto.
  - split; [intros Hin; split; [done|intros [=]] | by intros [Hin _]].
Qed.

Lemma filter_length_le {A} (f : A -> bool) (l : list A) :
  length (List.filter f l) <= length l.
Proof. induction l as [|x l IH]; simpl; [done|]. destruct (f x); simpl; lia. Qed.

Lemma imap_since_length q l : length (imap_since q l) <= length l.
Proof.
  unfold imap_since, sameOrAfter. destruct (Js.truthy_opt (q_since q)); [|done].
  apply filter_length_le.
Qed.

Lemma containsFilter_length field needle l :
  length (containsFilter field needle l) <= length l.
Proof.
  unfold containsFilter. destruct (Js.truthy_opt needle); [|done]. apply filter_length_le.
Qed.

Lemma pop3_filtered_length q now l : length (pop3_filtered q now l) <= length l.
Proof.
  unfold pop3_filtered.
  etrans; [apply containsFilter_length|]. etrans; [apply containsFilter_length|].
  unfold pop3_since, sameOrAfter.
  destruct (Js.truthy_opt (q_since q)); [destruct (moment_since _)|];
    try apply filter_length_le; done.
Qed.

Section Since.
Context (q : EmailQueryParams) (s : string) (t : Z).
Context (Hsince : q_since q = Some s).
Context (Hgiven : Js.truthy s = true).
Context (Hinstant : moment_since s = Some t).

Lemma imap_since_given l : imap_since q l = sameOrAfter (Some t) l.
Proof. unfold imap_since. rewrite Hsince. simpl. by rewrite Hgiven, Hinstant. Qed.

Lemma pop3_since_given now l : pop3_since q now l = sameOrAfter (Some t) l.
Proof. unfold pop3_since. rewrite Hsince. simpl. by rewrite Hgiven, Hinstant. Qed.

(** What the re-check of [since] keeps, for a request whose [since] is
    given and denotes the instant [t]. *)
Lemma recheck_keeps_the_parsed (w : World) :
  (exists r w' l,
     fetchEmails config srv q w = (Return r, w') /\ emails r = Some l /\
     forall e, e ∈ l -> (t <= em_date e)%Z) /\
  (forall emailList,
     asked q = POP3 -> pop3_delivers srv q w emailList -> writable config w ->
     exists r w' l,
       fetchEmails config srv q w = (Return r, w') /\
       success r = true /\ emails r = Some l /\
       forall e, e ∈ l <->
         e ∈ (pop3_collected config srv (online w) (pop3_limited q emailList)).1 /\
         (t <= em_date e)%Z /\
         contains_ok em_from (q_from q) e /\ contains_ok em_to (q_to q) e) /\
  (forall messages,
     asked q = IMAP -> imap_delivers srv q w messages -> writable config w ->
     exists r w' l,
       fetchEmails config srv q w = (Return r, w') /\
       success r = true /\ emails r = Some l /\
       forall e, e ∈ l <->
         e ∈ (imap_collected config srv w (rechecked srv messages)).1 /\
         (t <= em_date e)%Z).
Proof.
  split; [|split].
  - destruct (fetchEmails_run config srv q w) as (r & w' & Hrun & _ & Hcases).
    exists r, w'.
    destruct Hcases as [(reason & -> & _) | [-> | [(found & messages & details & _ & _ & ->)
                        | (emailList & details & _ & ->)]]]; simpl.
    + exists []. split; [done|]. split; [done|]. intros e He. by apply elem_of_nil in He.
    + exists []. split; [done|]. split; [done|]. intros e He. by apply elem_of_nil in He.
    + eexists. split; [done|]. split; [done|]. intros e.
      rewrite imap_since_given, elem_of_sameOrAfter. tauto.
    + eexists. split; [done|]. split; [done|]. intros e. unfold pop3_filtered.
      rewrite !elem_of_containsFilter, pop3_since_given, elem_of_sameOrAfter. tauto.
  - intros emailList Hasked Hanswer Hdisk.
    destruct (fetchEmails_pop3_delivers config srv q w emailList Hasked Hanswer Hdisk)
      as (w' & Hrun).
    eexists _, w', _. split; [exact Hrun|]. split; [done|]. split; [done|].
    intros e. unfold pop3_filtered.
    rewrite !elem_of_containsFilter, pop3_since_given, elem_of_sameOrAfter.
    rewrite sort_newest_first_perm. tauto.
  - intros messages Hasked Hanswer Hdisk.
    destruct (fetchEmails_imap_delivers config srv q w messages Hasked Hanswer Hdisk)
      as (array & late & w' & Hrun & Harray).
    rewrite Hsince in Hrun. simpl in Hrun. rewrite Hgiven in Hrun.
    eexists _, w', _. split; [exact Hrun|]. split; [done|]. split; [done|].
    intros e. rewrite imap_since_given, elem_of_sameOrAfter. by rewrite Harray.
Qed.

End Since.

(** A [since] that passes the pattern of the query schema is not empty. *)
Lemma validated_since_given (s : string) :
  Validation.since_ok (Some s) = true -> Js.truthy s = true.
Proof. destruct s; [discriminate | reflexivity]. Qed.

Lemma limit_ok_range (L : Z) :
  Validation.limit_ok (Some L) = true -> (1 <= L <= 100)%Z.
Proof. simpl. lia. Qed.

(** The list a fetch returns is never longer than the number of messages
    the request asks for, when that number is positive and the server answers
    an IMAP fetch with at most one message for each requested UID. *)
Lemma fetch_length_bound (q : EmailQueryParams) (w : World) :
  (1 <= requested q)%Z ->
  (forall ids messages, srv_fetch srv ids = Js.Ok messages -> length messages <= length ids) ->
  exists r w' l,
    fetchEmails config srv q w = (Return r, w') /\ emails r = Some l /\
    (Z.of_nat (length l) <= requested q)%Z.
Proof.
  intros Hpos Hserver.
  destruct (fetchEmails_run config srv q w) as (r & w' & Hrun & _ & Hcases).
  exists r, w'.
  destruct Hcases as [(reason & -> & _) | [-> | [(found & messages & details & Hf & Hd & ->)
                      | (emailList & details & Hd & ->)]]]; simpl.
  - exists []. repeat split; try done. simpl. lia.
  - exists []. repeat split; try done. simpl. lia.
  - eexists. split; [done|]. split; [done|].
    pose proof (imap_since_length q details).
    pose proof (Hserver _ _ Hf).
    pose proof (slice_prefix_length (reverse found) (requested q) ltac:(lia)). lia.
  - eexists. split; [done|]. split; [done|].
    pose proof (pop3_filtered_length q (clock w) details).
    pose proof (slice_suffix_length emailList (requested q) Hpos). lia.
Qed.

(** C5.  For a request whose [limit] is [L] and passes the validation rule
    of the query schema (an integer from 1 to 100), under either protocol
    variant, [fetchEmails] returns a result whose message list has at most
    [L] entries, whatever the mailbox lists or the search matches, given
    that the server answers an IMAP fetch with at most one message for each
    requested UID. *)
Theorem fetch_returns_at_most_limit (q : EmailQueryParams) (w : World) (L : Z) :
  limit q = Some L ->
  Validation.limit_ok (limit q) = true ->
  (forall ids messages, srv_fetch srv ids = Js.Ok messages -> length messages <= length ids) ->
  exists r w' l,
    fetchEmails config srv q w = (Return r, w') /\ emails r = Some l /\
    (Z.of_nat (length l) <= L)%Z.
Proof.
  intros HL Hvalid Hserver. rewrite HL in Hvalid. apply limit_ok_range in Hvalid.
  assert (requested q = L) as Hreq.
  { unfold requested. rewrite HL. simpl. destruct (L =? 0)%Z eqn:Hz; lia. }
  destruct (fetch_length_bound q w ltac:(lia) Hserver) as (r & w' & l & Hrun & Hl & Hlen).
  exists r, w', l. rewrite <- Hreq. done.
Qed.

(** C10.  [fetchEmails] never throws.  When the server fails the request
    (the connection or the login fails, the mailbox cannot be opened, the
    search or the fetch fails, the listing fails or is answered negatively),
    the result is the failure that carries the reason of the server, with
    [success = false].  Whenever the result has [success = false], it has an
    empty message list, total 0 and the message "获取邮件失败: " followed by
    the reason; the client of the request's protocol has been disconnected;
    the error record logged last carries the same reason; and the result
    cache is the one the call started with. *)
Theorem failed_fetch_disconnects_and_is_not_cached (q : EmailQueryParams) (w : World) :
  exists r w',
    fetchEmails config srv q w = (Return r, w') /\
    (forall reason,
       fails_with srv q w reason ->
       success r = false /\ message r = "获取邮件失败: " +:+ reason) /\
    (success r = false ->
     emails r = Some [] /\ total r = 0%Z /\
     handle (default IMAP (protocol q)) w' = false /\
     emailCache w' = emailCache w /\
     exists reason,
       message r = "获取邮件失败: " +:+ reason /\
       last (logs w') = Some (fetch_failed q reason)).
Proof.
  destruct (fetchEmails_run config srv q w) as (r & w' & Hrun & Hclosed & Hcases).
  exists r, w'. split; [done|]. split.
  - intros reason Hfails. apply (fetchEmails_fails config) in Hfails.
    rewrite Hrun in Hfails. simpl in Hfails. by injection Hfails as ->.
  - intros Hfailed.
    destruct Hcases as [(reason & -> & Hcache & Hlog) | [-> | [(found & messages & details & _ & _ & ->)
                        | (emailList & details & _ & ->)]]]; simpl in Hfailed; try done.
    repeat split; try done. by exists reason.
Qed.

End FetchProperties.

(** C4 fails on the IMAP variant.  For a request whose [since] is given
    and denotes the instant [t], no variant returns a message dated before
    [t], and a POP3 fetch the server answers returns exactly the retrieved
    messages dated [t] or later that pass the sender and recipient filters.
    An IMAP fetch the server answers returns exactly the messages dated [t]
    or later among those whose parse had settled when [since] was
    re-checked: a fetched message whose parse is still pending then is left
    out, whatever its date.  At the input: the mailbox of the examples holds
    messages dated 22:02:59.999, 22:03 and 22:04; when the parses are pending
    as the fetch ends, the IMAP request with [since = "2025/06/08 22:03"] is
    delivered all three and succeeds with no message, while the POP3 request
    returns the messages of 22:04 and 22:03, and so does the IMAP request
    when the parses settle before the fetch ends. *)
Theorem since_recheck_misses_pending_parses :
  (forall `{JsRuntime} (config : Config.t) (srv : MailServer) (q : EmailQueryParams)
          (s : string) (t : Z) (w : World),
     q_since q = Some s -> Js.truthy s = true -> moment_since s = Some t ->
     (exists r w' l,
        EmailService.fetchEmails config srv q w = (Return r, w') /\ emails r = Some l /\
        forall e, e ∈ l -> (t <= em_date e)%Z) /\
     (forall emailList,
        asked q = POP3 -> pop3_delivers srv q w emailList -> writable config w ->
        exists r w' l,
          EmailService.fetchEmails config srv q w = (Return r, w') /\
          success r = true /\ emails r = Some l /\
          forall e, e ∈ l <->
            e ∈ (pop3_collected config srv (online w) (pop3_limited q emailList)).1 /\
            (t <= em_date e)%Z /\
            contains_ok em_from (q_from q) e /\ contains_ok em_to (q_to q) e) /\
     (forall messages,
        asked q = IMAP -> imap_delivers srv q w messages -> writable config w ->
        exists r w' l,
          EmailService.fetchEmails config srv q w = (Return r, w') /\
          success r = true /\ emails r = Some l /\
          forall e, e ∈ l <->
            e ∈ (imap_collected config srv w (rechecked srv messages)).1 /\
            (t <= em_date e)%Z)) /\
  (let imap := SampleServer.query IMAP (Some 5%Z) (Some "2025/06/08 22:03") None in
   let pop3 := SampleServer.query POP3 (Some 5%Z) (Some "2025/06/08 22:03") None in
   let now := Examples.start 1749420300000 in
   let delivered := [(3, "3"); (2, "2"); (1, "1")]%Z in
   @moment_since Sample.runtime "2025/06/08 22:03" = Some 1749420180000%Z /\
   writable Examples.config now /\
   @imap_delivers Sample.runtime SampleServer.server imap now delivered /\
   (exists emailList,
      @pop3_delivers Sample.runtime SampleServer.server pop3 now emailList /\
      length emailList = 3) /\
   rechecked SampleServer.server delivered = [] /\
   (SampleServer.fetchEmails SampleServer.server imap now).1
   = Return (EmailService.fetched []) /\
   SampleServer.dates (SampleServer.fetchEmails SampleServer.server pop3 now)
   = Some [1749420240000; 1749420180000]%Z /\
   SampleServer.dates (SampleServer.fetchEmails SampleServer.prompt imap now)
   = Some [1749420240000; 1749420180000]%Z).
Proof.
  split.
  - intros runtime config srv q s t w Hsince Hgiven Hinstant.
    exact (recheck_keeps_the_parsed config srv q s t Hsince Hgiven Hinstant w).
  - cbv zeta. split; [reflexivity|]. split; [intros [=]|]. split.
    { split; [reflexivity|]. split; [reflexivity|].
      eexists _, [1; 2; 3]%Z. split; [vm_compute; reflexivity|].
      split; [reflexivity|]. split; [done|]. vm_compute. reflexivity. }
    split.
    { eexists. split.
      - split; [reflexivity|].
        eexists _, _. split; [reflexivity|]. split; [vm_compute; reflexivity | done].
      - reflexivity. }
    split; [reflexivity|]. repeat split; vm_compute; reflexivity.
Qed.

(** The witness of [fetch_returns_at_most_limit]: an IMAP request with
    [limit = 2] against the mailbox of the examples, which holds three
    messages, every parse settling before the fetch ends. *)
Lemma fetch_returns_at_most_limit_witness :
  let q := SampleServer.query IMAP (Some 2%Z) (Some "2025/06/08 00:00") None in
  limit q = Some 2%Z /\
  Validation.limit_ok (limit q) = true /\
  (forall ids messages,
     srv_fetch SampleServer.prompt ids = Js.Ok messages -> length messages <= length ids) /\
  exists r w' l,
    SampleServer.fetchEmails SampleServer.prompt q (Examples.start 1749420300000)
      = (Return r, w') /\
    emails r = Some l /\ (Z.of_nat (length l) <= 2)%Z.
Proof.
  cbv zeta.
  assert (forall ids messages,
            srv_fetch SampleServer.prompt ids = Js.Ok messages ->
            length messages <= length ids) as Hserver.
  { intros ids messages [= <-]. by rewrite length_fmap. }
  split; [reflexivity|]. split; [reflexivity|]. split; [exact Hserver|].
  apply (@fetch_returns_at_most_limit Sample.runtime Examples.config SampleServer.prompt
           (SampleServer.query IMAP (Some 2%Z) (Some "2025/06/08 00:00") None)
           (Examples.start 1749420300000) 2%Z eq_refl eq_refl Hserver).
Defined.

(** A refused connection is a failed fetch: the result of C10 with the
    reason of the refusal, and nothing cached. *)
Example refused_connection_fails :
  @fails_with Sample.runtime SampleServer.unreachable
    (SampleServer.query IMAP (Some 5%Z) None None) (Examples.start 0)
    "connect ECONNREFUSED" /\
  exists r w',
    SampleServer.fetchEmails SampleServer.unreachable
      (SampleServer.query IMAP (Some 5%Z) None None) (Examples.start 0) = (Return r, w') /\
    r = EmailService.failure "connect ECONNREFUSED" /\
    emailCache w' = emailCache (Examples.start 0) /\
    imap_handle w' = false.
Proof.
  split; [by apply connection_fails|].
  eexists _, _. split; [vm_compute; reflexivity|]. by repeat split.
Qed.

(** ** Cache keys *)

(** C7 at a failing input: the fetch key does not depend on the recipient
    filter.  Two requests that differ only in [to] get the same key, although
    they return different messages: against the mailbox of the examples the
    request for alice returns the messages of 22:04 and 22:02:59.999, the
    request for bob the message of 22:03. *)
Theorem fetch_key_ignores_recipient :
  (forall q r1 r2,
     EmailService.fetchKey (with_recipient r1 q) = EmailService.fetchKey (with_recipient r2 q)) /\
  (let alice :=
     SampleServer.query POP3 (Some 5%Z) (Some "2025/06/08 00:00") (Some "alice@example.com") in
   let bob :=
     SampleServer.query POP3 (Some 5%Z) (Some "2025/06/08 00:00") (Some "bob@example.com") in
   EmailService.fetchKey alice = "email_fetch:test@qq.com:INBOX:5:since:2025/06/08 00:00" /\
   EmailService.fetchKey bob = "email_fetch:test@qq.com:INBOX:5:since:2025/06/08 00:00" /\
   SampleServer.dates (SampleServer.fetchEmails SampleServer.server alice
                         (Examples.start 1749420300000))
   = Some [1749420240000; 1749420179999]%Z /\
   SampleServer.dates (SampleServer.fetchEmails SampleServer.server bob
                         (Examples.start 1749420300000))
   = Some [1749420180000]%Z).
Proof.
  split; [reflexivity|].
  cbv zeta. repeat split; vm_compute; reflexivity.
Qed.

(** The connection-test key is built from the address, the server and the
    port. *)
Example connection_test_key :
  CacheService.getConnectionTestKey "test@qq.com" "imap.qq.com" 993
  = "connection_test:test@qq.com:imap.qq.com:993".
Proof. vm_compute. reflexivity. Qed.

(** ** The examples, evaluated *)

Example since_instant_example :
  Sample.since_instant "2025/06/08 22:03" = Some 1749420180000%Z.
Proof. reflexivity. Qed.

Example list_line_example : Sample.list_line "12 2048" = Some ("12", "2048").
Proof. reflexivity. Qed.

(** The texts the examples hand to the patterns hold none of these words,
    so [Sample.patterns] agrees with the constructor's patterns on them. *)
Lemma example_texts_plain :
  forallb Examples.holds_no_leading_word
    [em_body Examples.statement_mail; em_subject Examples.statement_mail +:+ " " +:+ em_body Examples.statement_mail;
     em_body Examples.regular_mail; em_subject Examples.regular_mail +:+ " " +:+ em_body Examples.regular_mail]
  = true.
Proof. vm_compute. reflexivity. Qed.

(** Both variants keep the message sent at the minute boundary of [since]
    and the later one, and drop the one sent a millisecond earlier; the IMAP
    variant does when the parses settle before the fetch ends. *)
Example since_boundary :
  SampleServer.dates (SampleServer.fetchEmails SampleServer.prompt (SampleServer.query IMAP (Some 5%Z) (Some "2025/06/08 22:03") None)
           (Examples.start 1749420300000))
  = Some [1749420240000; 1749420180000]%Z /\
  SampleServer.dates (SampleServer.fetchEmails SampleServer.server (SampleServer.query POP3 (Some 5%Z) (Some "2025/06/08 22:03") None)
           (Examples.start 1749420300000))
  = Some [1749420240000; 1749420180000]%Z.
Proof. split; vm_compute; reflexivity. Qed.

(** With [limit] 2 both variants return the two newest messages; the IMAP
    variant does when the parses settle before the fetch ends. *)
Example limit_two :
  SampleServer.dates (SampleServer.fetchEmails SampleServer.prompt (SampleServer.query IMAP (Some 2%Z) (Some "2025/06/08 00:00") None)
           (Examples.start 1749420300000))
  = Some [1749420240000; 1749420180000]%Z /\
  SampleServer.dates (SampleServer.fetchEmails SampleServer.server (SampleServer.query POP3 (Some 2%Z) (Some "2025/06/08 00:00") None)
           (Examples.start 1749420300000))
  = Some [1749420240000; 1749420180000]%Z.
Proof. split; vm_compute; reflexivity. Qed.

(** Without [since], an IMAP fetch returns the array of
    [fetchEmailDetails] itself: a message whose parse settles while the
    method saves is pushed behind the sorted ones, here the newest message
    behind the two older ones; and when every parse is still pending at the
    return, the fetch succeeds with no message. *)
Example late_push_lands_unsorted :
  SampleServer.dates (SampleServer.fetchEmails SampleServer.straggling
                        (SampleServer.query IMAP (Some 5%Z) None None)
                        (Examples.start 1749420300000))
  = Some [1749420180000; 1749420179999; 1749420240000]%Z /\
  SampleServer.dates (SampleServer.fetchEmails SampleServer.server
                        (SampleServer.query IMAP (Some 5%Z) None None)
                        (Examples.start 1749420300000))
  = Some [].
Proof. split; vm_compute; reflexivity. Qed.

(** * Further properties of the services *)

(** ** The cache (CacheService.ts) *)

Section CacheFacts.
Context {T : Type}.
Implicit Types (c : CacheService.t T) (key : string) (now : Z).

Lemma cache_get_cases now key c :
  match CacheService.cache c !! key with
  | Some item =>
      if (CacheService.expireTime item <? now)%Z
      then CacheService.get now key c =
           (None, {| CacheService.cache := delete key (CacheService.cache c);
                     CacheService.defaultTTL := CacheService.defaultTTL c |})
      else CacheService.get now key c = (Some (CacheService.data item), c)
  | None => CacheService.get now key c = (None, c)
  end.
Proof.
  unfold CacheService.get. destruct (CacheService.cache c !! key) as [item|]; [|done].
  by destruct (CacheService.expireTime item <? now)%Z.
Qed.

(** X1.  [get] returns the data of an entry exactly when the entry is
    stored and the time is not past its expiry (the expiry instant itself
    still counts).  A [get] that returns nothing leaves no entry under the
    key (an expired one is deleted), a [get] that returns data changes
    nothing, no [get] touches another key, and [has] answers and acts as
    [get] does. *)
Theorem cache_get_characterised now key c :
  let out := CacheService.get now key c in
  (forall d,
     out.1 = Some d <->
     exists item,
       CacheService.cache c !! key = Some item /\ CacheService.data item = d /\
       (now <= CacheService.expireTime item)%Z) /\
  (out.1 = None -> CacheService.cache out.2 !! key = None) /\
  (is_Some out.1 -> out.2 = c) /\
  (forall key', key' <> key ->
     CacheService.cache out.2 !! key' = CacheService.cache c !! key') /\
  CacheService.defaultTTL out.2 = CacheService.defaultTTL c /\
  CacheService.has now key c = (bool_decide (is_Some out.1), out.2).
Proof.
  cbv zeta. pose proof (cache_get_cases now key c) as Hget.
  unfold CacheService.has.
  destruct (CacheService.cache c !! key) as [item|] eqn:Hitem.
  - destruct (CacheService.expireTime item <? now)%Z eqn:Hexp; rewrite Hget; simpl.
    + apply Z.ltb_lt in Hexp.
      split; [intros d; split; [done | intros (item' & [= <-] & _ & Hle); lia]|].
      split; [intros _; apply lookup_delete_eq|].
      split; [by intros [? ?]|].
      split; [intros key' Hne; by apply lookup_delete_ne|]. done.
    + apply Z.ltb_ge in Hexp.
      split; [intros d; split;
               [intros [= <-]; by exists item | by intros (item' & [= <-] & <- & _)]|].
      done.
  - rewrite Hget. simpl.
    split; [intros d; split; [done | by intros (item' & [=] & _)]|]. done.
Qed.

(** X2.  Round trip.  After [set(key, d, ttl)] at time [now], a [get] of
    the key returns [d] at every time up to [now + (ttl || defaultTTL)] and
    nothing afterwards, whatever was stored under the key before; a missing
    or zero [ttl] means the default; what a [get] of another key returns is
    unchanged. *)
Theorem cache_set_then_get now later key (d : T) ttl c :
  let stored := CacheService.set now key d ttl c in
  let expiry := (now + Js.num_or ttl (CacheService.defaultTTL c))%Z in
  (CacheService.get later key stored).1 = (if (expiry <? later)%Z then None else Some d) /\
  (forall key', key' <> key ->
     (CacheService.get later key' stored).1 = (CacheService.get later key' c).1) /\
  CacheService.defaultTTL stored = CacheService.defaultTTL c.
Proof.
  cbv zeta. split; [|split; [|done]].
  - unfold CacheService.get, CacheService.set. simpl. rewrite lookup_insert_eq. simpl.
    by destruct (_ <? _)%Z.
  - intros key' Hne. unfold CacheService.get, CacheService.set. simpl.
    rewrite lookup_insert_ne by done.
    destruct (CacheService.cache c !! key') as [item|]; [|done].
    by destruct (_ <? _)%Z.
Qed.

Lemma cleanup_lookup now key c item :
  CacheService.cache (CacheService.cleanup now c) !! key = Some item <->
  CacheService.cache c !! key = Some item /\ (now <= CacheService.expireTime item)%Z.
Proof.
  unfold CacheService.cleanup. simpl. rewrite map_lookup_filter_Some. simpl.
  split; intros [? ?]; (split; [done | lia]).
Qed.

(** X3.  The sweep removes exactly the expired entries: an entry is stored
    after [cleanup] at time [now] exactly when it was stored before and
    [now] is not past its expiry.  The sweep is invisible to readers: at
    every time from [now] on, [get] returns the same with and without it. *)
Theorem cache_cleanup_removes_exactly_expired now key c :
  let swept := CacheService.cleanup now c in
  (forall item,
     CacheService.cache swept !! key = Some item <->
     CacheService.cache c !! key = Some item /\ (now <= CacheService.expireTime item)%Z) /\
  (forall later, (now <= later)%Z ->
     (CacheService.get later key swept).1 = (CacheService.get later key c).1) /\
  CacheService.defaultTTL swept = CacheService.defaultTTL c.
Proof.
  cbv zeta. split; [intros item; apply cleanup_lookup|]. split; [|done].
  intros later Hlater. unfold CacheService.get.
  destruct (CacheService.cache c !! key) as [item|] eqn:Hitem.
  - destruct (decide (now <= CacheService.expireTime item)%Z) as [Hlive|Hdead].
    + rewrite (proj2 (cleanup_lookup now key c item) (conj Hitem Hlive)).
      by destruct (_ <? _)%Z.
    + destruct (CacheService.cache (CacheService.cleanup now c) !! key) as [item'|] eqn:Hswept.
      { apply cleanup_lookup in Hswept as [? ?]. simplify_eq. lia. }
      destruct (CacheService.expireTime item <? later)%Z eqn:Hexp; [done|].
      apply Z.ltb_ge in Hexp. lia.
  - destruct (CacheService.cache (CacheService.cleanup now c) !! key) as [item'|] eqn:Hswept;
      [|done].
    apply cleanup_lookup in Hswept as [? ?]. simplify_eq.
Qed.

(** X4.  [delete] answers whether an entry was stored under the key, even
    one that has expired and that [has] no longer reports; afterwards
    neither [get] nor [has] finds the key, and the other keys are as
    before. *)
Theorem cache_delete_removes_entry now key c :
  let out := CacheService.delete key c in
  (out.1 = true <-> is_Some (CacheService.cache c !! key)) /\
  (CacheService.get now key out.2).1 = None /\
  (CacheService.has now key out.2).1 = false /\
  (forall key', key' <> key ->
     CacheService.cache out.2 !! key' = CacheService.cache c !! key') /\
  (forall item,
     CacheService.cache c !! key = Some item -> (CacheService.expireTime item < now)%Z ->
     (CacheService.has now key c).1 = false /\ out.1 = true).
Proof.
  cbv zeta. unfold CacheService.delete, CacheService.get, CacheService.has. simpl.
  rewrite lookup_delete_eq.
  split; [apply bool_decide_eq_true|].
  split; [done|]. split; [done|].
  split; [intros key' Hne; by apply lookup_delete_ne|].
  intros item Hitem Hexp. rewrite Hitem. apply Z.ltb_lt in Hexp. rewrite Hexp.
  split; [done|]. apply bool_decide_eq_true. by eexists.
Qed.

Lemma countExpired_size now c :
  CacheService.countExpired now c =
  Z.of_nat (base.size (filter (fun kv => (CacheService.expireTime kv.2 < now)%Z)
                         (CacheService.cache c))).
Proof.
  unfold CacheService.countExpired.
  apply (map_fold_weak_ind
           (fun r (m : gmap string (CacheService.Item T)) =>
              r = Z.of_nat (base.size (filter (fun kv => (CacheService.expireTime kv.2 < now)%Z) m)))).
  - by rewrite map_filter_empty, map_size_empty.
  - intros i x m r Hi ->.
    destruct (CacheService.expireTime x <? now)%Z eqn:Hexp.
    + apply Z.ltb_lt in Hexp. rewrite map_filter_insert_True by done.
      rewrite map_size_insert_None by (apply map_lookup_filter_None; by left). lia.
    + apply Z.ltb_ge in Hexp. rewrite map_filter_insert_not' by (simpl; intros; simplify_eq || lia).
      done.
Qed.

Lemma size_live_and_expired now (m : gmap string (CacheService.Item T)) :
  base.size (filter (fun kv => ¬ (CacheService.expireTime kv.2 < now)%Z) m)
  + base.size (filter (fun kv => (CacheService.expireTime kv.2 < now)%Z) m)
  = base.size m.
Proof.
  induction m as [|i x m Hi IH] using map_ind.
  - by rewrite !map_filter_empty, map_size_empty.
  - rewrite map_size_insert_None by done.
    destruct (decide (CacheService.expireTime x < now)%Z) as [Hexp|Hlive].
    + rewrite (map_filter_insert_True (fun kv => (CacheService.expireTime kv.2 < now)%Z))
        by done.
      rewrite map_filter_insert_not' by (simpl; intros; simplify_eq || tauto).
      rewrite map_size_insert_None by (apply map_lookup_filter_None; by left). lia.
    + rewrite (map_filter_insert_True (fun kv => ¬ (CacheService.expireTime kv.2 < now)%Z))
        by done.
      rewrite map_filter_insert_not' by (simpl; intros; simplify_eq || tauto).
      rewrite map_size_insert_None by (apply map_lookup_filter_None; by left). lia.
Qed.

(** X5.  Statistics.  At any time the number of expired keys [getStats]
    reports is between 0 and the total number of keys; after [cleanup] at
    the same time the total has dropped by exactly that number and no key is
    reported expired. *)
Theorem cache_stats_after_cleanup now c :
  let stats := CacheService.getStats now c in
  (0 <= stats.2 <= stats.1)%Z /\
  CacheService.getStats now (CacheService.cleanup now c) = (stats.1 - stats.2, 0)%Z.
Proof.
  cbv zeta. unfold CacheService.getStats. simpl. rewrite !countExpired_size.
  pose proof (size_live_and_expired now (CacheService.cache c)) as Hsplit.
  split; [lia|]. unfold CacheService.cleanup. simpl. f_equal; [lia|].
  assert (filter (fun kv : string * CacheService.Item T =>
                    (CacheService.expireTime kv.2 < now)%Z)
            (filter (fun kv : string * CacheService.Item T =>
                       ¬ (CacheService.expireTime kv.2 < now)%Z) (CacheService.cache c)) = ∅)
    as ->; [|by rewrite map_size_empty].
  apply map_empty. intros i. apply map_lookup_filter_None. right. intros x Hx Hexp.
  apply map_lookup_filter_Some in Hx as [_ Hx]. done.
Qed.

End CacheFacts.

(** ** Cache keys, continued *)

(** X6.  The two kinds of entries that share one cache object never share a
    key: no detection key equals the keyword key, and no connection-test key
    equals a fetch key; and the detection key determines the message id. *)
Theorem cache_key_families_disjoint :
  (forall emailId,
     CacheService.getInvoiceDetectionKey emailId <> CacheService.getInvoiceKeywordsKey) /\
  (forall email server port email' mailbox limit from since,
     CacheService.getConnectionTestKey email server port <>
     CacheService.getEmailFetchKey email' mailbox limit from since) /\
  (forall emailId emailId',
     CacheService.getInvoiceDetectionKey emailId = CacheService.getInvoiceDetectionKey emailId' ->
     emailId = emailId').
Proof.
  split; [|split].
  - intros emailId. unfold CacheService.getInvoiceDetectionKey, CacheService.getInvoiceKeywordsKey.
    simpl. discriminate.
  - intros email server port email' mailbox limit from since.
    unfold CacheService.getConnectionTestKey, CacheService.getEmailFetchKey.
    simpl. discriminate.
  - intros emailId emailId'. unfold CacheService.getInvoiceDetectionKey. simpl.
    intros [= ?]. done.
Qed.

Lemma includes_colon_cons c s :
  Js.includes (String c s) ":" = false ->
  c <> ":"%char /\ Js.includes s ":" = false.
Proof.
  simpl. intros Hno. apply orb_false_iff in Hno as [Hhead Htail].
  split; [|done]. intros ->. simpl in Hhead. by destruct s.
Qed.

(** Two texts without a colon, each followed by a colon and a rest, are
    equal only when the texts and the rests are. *)
Lemma colon_split a a' r r' :
  Js.includes a ":" = false -> Js.includes a' ":" = false ->
  a +:+ ":" +:+ r = a' +:+ ":" +:+ r' -> a = a' /\ r = r'.
Proof.
  revert a'. induction a as [|c a IH]; intros [|c' a'] Ha Ha' Heq; simpl in Heq.
  - by simplify_eq.
  - apply includes_colon_cons in Ha' as [Hc' _]. by simplify_eq.
  - apply includes_colon_cons in Ha as [Hc _]. by simplify_eq.
  - apply includes_colon_cons in Ha as [_ Ha]. apply includes_colon_cons in Ha' as [_ Ha'].
    injection Heq as -> Heq. destruct (IH a' Ha Ha' Heq) as [-> ->]. done.
Qed.

(** X7.  For addresses and server names that hold no colon, the
    connection-test key determines the address, the server and the port: two
    tests share a cached result only when all three agree. *)
Theorem connection_test_key_injective (email server email' server' : string) (port port' : Z) :
  Js.includes email ":" = false -> Js.includes server ":" = false ->
  Js.includes email' ":" = false -> Js.includes server' ":" = false ->
  CacheService.getConnectionTestKey email server port =
  CacheService.getConnectionTestKey email' server' port' ->
  email = email' /\ server = server' /\ port = port'.
Proof.
  intros He Hs He' Hs'. unfold CacheService.getConnectionTestKey, Js.toString.
  simpl. intros [= Hrest].
  apply (colon_split email email') in Hrest as [-> Hrest]; [|done..].
  apply colon_split in Hrest as [-> Hport]; [|done..].
  by apply (inj pretty) in Hport as ->.
Qed.

(** The witness of [connection_test_key_injective]: the key of a test of
    test@qq.com at imap.qq.com, port 993. *)
Lemma connection_test_key_injective_witness :
  Js.includes "test@qq.com" ":" = false /\ Js.includes "imap.qq.com" ":" = false /\
  CacheService.getConnectionTestKey "test@qq.com" "imap.qq.com" 993 =
  CacheService.getConnectionTestKey "test@qq.com" "imap.qq.com" 993 /\
  ("test@qq.com" = "test@qq.com" /\ "imap.qq.com" = "imap.qq.com" /\ 993%Z = 993%Z).
Proof.
  split; [reflexivity|]. split; [reflexivity|]. split; [reflexivity|].
  exact (connection_test_key_injective "test@qq.com" "imap.qq.com" "test@qq.com" "imap.qq.com"
           993 993 eq_refl eq_refl eq_refl eq_refl eq_refl).
Defined.

(** ** Which signals make an invoice (InvoiceService.ts) *)

Section Signals.
Context `{JsRuntime}.
Context (config : Config.t).
Import InvoiceService.
Local Open Scope Q_scope.

Lemma add_first_hit hit inc ks score :
  existsb hit ks = true -> add_first hit inc ks score = score + inc.
Proof. unfold add_first. by intros ->. Qed.

Lemma analyzeSubject_common svc subject :
  Js.truthy subject = true ->
  existsb (fun keyword => Js.includes subject keyword
                          || Js.includes (toLowerCase subject) (toLowerCase keyword))
    commonInvoiceKeywords = true ->
  0.6 <= analyzeSubject svc subject.
Proof.
  intros Hgiven Hhit. unfold analyzeSubject. rewrite Hgiven. simpl negb. cbv iota zeta.
  rewrite add_first_hit by exact Hhit.
  match goal with
  | |- _ <= Qmin (add_each ?h2 ?i2 ?k2 (add_each ?h1 ?i1 ?k1 ?s) + _) _ =>
      pose proof (add_each_ge h1 i1 k1 s ltac:(lra)) as H1;
      pose proof (add_each_ge h2 i2 k2 (add_each h1 i1 k1 s) ltac:(lra)) as H2
  end.
  apply Q.min_glb; lra.
Qed.

(** A detection that misses the cache and whose save cannot fail computes
    the weighted sum and compares it with the threshold. *)
Lemma detect_fresh svc email w c :
  CacheService.get (clock w) (CacheService.getInvoiceDetectionKey (em_id email))
    (invoiceCache w) = (None, c) ->
  (Config.enableLocalStorage config = true -> disk_failure w = None) ->
  exists r w',
    detectSingleInvoice config svc email w = (Return r, w') /\
    confidence r = totalScore svc email /\
    isInvoice r = Qle_bool (confidenceThreshold svc) (totalScore svc email) /\
    error r = None.
Proof.
  intros Hmiss Hdisk.
  destruct (detect_miss config svc email w c Hmiss) as (r & w' & Hrun & Hcomp & _).
  exists r, w'. split; [done|].
  destruct Hcomp as [(Hc & Hi & He & _) | (_ & _ & _ & Hen & _ & Hbad)]; [done|].
  exfalso. apply Hbad. by apply Hdisk.
Qed.

(** X8.  The hard-coded keywords of the subject suffice.  Under the
    constructor's weights and threshold and any keyword configuration, a
    message whose subject holds one of 发票, 电子发票, 增值税发票, invoice,
    bill, receipt (as written, or after lower-casing) has a subject score of
    at least 0.6 and a confidence of at least 0.3; a detection that misses
    the cache and whose save cannot fail classifies it as an invoice. *)
Theorem common_subject_keyword_suffices (kw : InvoiceKeywords) (pats : InvoicePatterns)
    (email : EmailMessage) (w : World) (c : CacheService.t Detection) :
  let svc := configured kw pats in
  Js.truthy (em_subject email) = true ->
  existsb (fun keyword =>
             Js.includes (em_subject email) keyword
             || Js.includes (toLowerCase (em_subject email)) (toLowerCase keyword))
    commonInvoiceKeywords = true ->
  CacheService.get (clock w) (CacheService.getInvoiceDetectionKey (em_id email))
    (invoiceCache w) = (None, c) ->
  (Config.enableLocalStorage config = true -> disk_failure w = None) ->
  0.6 <= analyzeSubject svc (em_subject email) /\
  exists r w',
    detectSingleInvoice config svc email w = (Return r, w') /\
    isInvoice r = true /\ 0.3 <= confidence r.
Proof.
  intros svc Hgiven Hhit Hmiss Hdisk.
  pose proof (analyzeSubject_common svc _ Hgiven Hhit) as Hsubject.
  split; [done|].
  destruct (detect_fresh svc email w c Hmiss Hdisk) as (r & w' & Hrun & Hc & Hi & _).
  exists r, w'. split; [done|].
  assert (0.3 <= totalScore svc email) as Htotal.
  { unfold totalScore. subst svc. simpl.
    pose proof (analyzeSender_range (configured kw pats) (em_from email)).
    pose proof (analyzeContent_range (configured kw pats) (em_body email)).
    pose proof (analyzeAttachments_range email). lra. }
  rewrite Hi, Hc. split; [|done]. apply Qle_bool_iff. exact Htotal.
Qed.

(** X9.  One weak signal is not enough.  Under the constructor's weights
    and threshold, a message whose subject scores 0 reaches the threshold
    only if at least two of the sender, content and attachment scores are
    positive. *)
Theorem one_weak_signal_is_not_enough (kw : InvoiceKeywords) (pats : InvoicePatterns)
    (email : EmailMessage) :
  let svc := configured kw pats in
  analyzeSubject svc (em_subject email) == 0 ->
  Qle_bool (confidenceThreshold svc) (totalScore svc email) = true ->
  (0 < analyzeSender svc (em_from email) /\ 0 < analyzeContent svc (em_body email)) \/
  (0 < analyzeSender svc (em_from email) /\ 0 < analyzeAttachments email) \/
  (0 < analyzeContent svc (em_body email) /\ 0 < analyzeAttachments email).
Proof.
  intros svc Hsubject Hthr. apply Qle_bool_iff in Hthr.
  unfold totalScore in Hthr.
  change (scoreWeights svc) with defaultScoreWeights in Hthr.
  change (confidenceThreshold svc) with defaultConfidenceThreshold in Hthr.
  unfold defaultScoreWeights, defaultConfidenceThreshold in Hthr.
  cbn [w_subject w_sender w_content w_attachment] in Hthr.
  pose proof (analyzeSender_range svc (em_from email)) as Hs.
  pose proof (analyzeContent_range svc (em_body email)) as Hc.
  pose proof (analyzeAttachments_range email) as Ha.
  clearbody svc.
  destruct (Qlt_le_dec 0 (analyzeSender svc (em_from email)));
    destruct (Qlt_le_dec 0 (analyzeContent svc (em_body email)));
    destruct (Qlt_le_dec 0 (analyzeAttachments email));
    try (left; split; assumption);
    try (right; left; split; assumption);
    try (right; right; split; assumption);
    exfalso; lra.
Qed.

End Signals.

(** The witness of [common_subject_keyword_suffices]: the message
    [invoice_notice], whose subject holds 发票, detected in a fresh process. *)
Lemma common_subject_keyword_suffices_witness :
  Js.truthy (em_subject Examples.invoice_notice) = true /\
  (0.6 <= @InvoiceService.analyzeSubject Sample.runtime Examples.service
            (em_subject Examples.invoice_notice))%Q /\
  exists r w',
    Examples.detectSingleInvoice Examples.invoice_notice (Examples.start 0) = (Return r, w') /\
    isInvoice r = true /\ (0.3 <= confidence r)%Q.
Proof.
  split; [reflexivity|].
  apply (@common_subject_keyword_suffices Sample.runtime Examples.config
           InvoiceService.getDefaultKeywords Sample.patterns Examples.invoice_notice
           (Examples.start 0) CacheService.new eq_refl eq_refl eq_refl).
  intros [=].
Defined.

(** The witness of [one_weak_signal_is_not_enough]: [statement_mail], whose
    subject scores 0 and whose sender and attachment make it an invoice. *)
Lemma one_weak_signal_is_not_enough_witness :
  (@InvoiceService.analyzeSubject Sample.runtime Examples.service (em_subject Examples.statement_mail) == 0)%Q /\
  Qle_bool (InvoiceService.confidenceThreshold Examples.service)
    (@InvoiceService.totalScore Sample.runtime Examples.service Examples.statement_mail) = true /\
  (0 < @InvoiceService.analyzeSender Sample.runtime Examples.service (em_from Examples.statement_mail))%Q /\
  (0 < @InvoiceService.analyzeAttachments Sample.runtime Examples.statement_mail)%Q.
Proof.
  split; [reflexivity|]. split; [reflexivity|].
  destruct (@one_weak_signal_is_not_enough Sample.runtime InvoiceService.getDefaultKeywords
              Sample.patterns Examples.statement_mail eq_refl eq_refl)
    as [[Hs _] | [[Hs Ha] | [_ Ha]]].
  - split; [exact Hs | reflexivity].
  - split; [exact Hs | exact Ha].
  - split; [reflexivity | exact Ha].
Defined.

(** ** The detection cache (InvoiceService.ts) *)

Section DetectionCache.
Context `{JsRuntime}.
Context (config : Config.t).
Import InvoiceService.

Lemma set_invoiceCache_same w : set_invoiceCache (invoiceCache w) w = w.
Proof. by destruct w. Qed.

(** A detection served from an entry that has not expired returns the entry
    and changes nothing. *)
Lemma detect_replay svc email w item :
  CacheService.cache (invoiceCache w) !! CacheService.getInvoiceDetectionKey (em_id email)
    = Some item ->
  (clock w <= CacheService.expireTime item)%Z ->
  detectSingleInvoice config svc email w = (Return (CacheService.data item), w).
Proof.
  intros Hitem Hlive.
  rewrite (detect_hit config svc email w (CacheService.data item) (invoiceCache w)).
  - by rewrite set_invoiceCache_same.
  - unfold CacheService.get. rewrite Hitem.
    destruct (CacheService.expireTime item <? clock w)%Z eqn:Hexp; [|done].
    apply Z.ltb_lt in Hexp. lia.
Qed.

(** X10.  A detection that misses the cache stores its result for thirty
    minutes (five when it carries an error).  Until then, in any world that
    still holds the cache it left, whatever else has changed, detecting a
    message with the same id returns that very result and changes nothing:
    no identifier is drawn, no file written, nothing logged.  Afterwards the
    entry is no longer served. *)
Theorem detection_replayed_until_expiry (svc : t) (email : EmailMessage) (w : World)
    (c : CacheService.t Detection) :
  CacheService.get (clock w) (CacheService.getInvoiceDetectionKey (em_id email))
    (invoiceCache w) = (None, c) ->
  exists r w',
    detectSingleInvoice config svc email w = (Return r, w') /\
    (forall other w2,
       em_id other = em_id email -> invoiceCache w2 = invoiceCache w' ->
       (clock w2 <= clock w + detection_ttl r)%Z ->
       detectSingleInvoice config svc other w2 = (Return r, w2)) /\
    (forall later,
       (clock w + detection_ttl r < later)%Z ->
       (CacheService.get later (CacheService.getInvoiceDetectionKey (em_id email))
          (invoiceCache w')).1 = None).
Proof.
  intros Hmiss.
  destruct (detect_miss config svc email w c Hmiss) as (r & w' & Hrun & _ & _ & _ & _ & Hcache).
  assert (CacheService.defaultTTL c = CacheService.defaultTTL (invoiceCache w)) as Hdefault.
  { unfold CacheService.get in Hmiss.
    destruct (CacheService.cache (invoiceCache w) !! _) as [item|]; [|by simplify_eq].
    destruct (_ <? _)%Z; by simplify_eq. }
  assert (Js.num_or (Some (detection_ttl r)) (CacheService.defaultTTL c) = detection_ttl r)
    as Httl by (unfold detection_ttl; by destruct (error r)).
  exists r, w'. split; [done|]. split.
  - intros other w2 Hid Hsame Hlive.
    apply (detect_replay svc other w2
             {| CacheService.data := r;
                CacheService.expireTime := (clock w + detection_ttl r)%Z |}); [|done].
    rewrite Hid, Hsame, Hcache. unfold CacheService.set. cbn [CacheService.cache].
    rewrite lookup_insert_eq. by rewrite Httl.
  - intros later Hlate. rewrite Hcache.
    unfold CacheService.get, CacheService.set. cbn [CacheService.cache].
    rewrite lookup_insert_eq. cbn [CacheService.expireTime CacheService.data].
    rewrite Httl. destruct (_ <? _)%Z eqn:Hexp; [done|]. apply Z.ltb_ge in Hexp. lia.
Qed.

(** X11.  A failed save masks the invoice.  When local storage is enabled
    and the disk write fails, a message whose confidence reaches the
    threshold is reported as no invoice, with confidence 0 and the error of
    the write; the call still returns, and the result is served from the
    cache for the next five minutes. *)
Theorem failed_save_masks_the_invoice (svc : t) (email : EmailMessage) (w : World)
    (c : CacheService.t Detection) (reason : string) :
  CacheService.get (clock w) (CacheService.getInvoiceDetectionKey (em_id email))
    (invoiceCache w) = (None, c) ->
  Config.enableLocalStorage config = true ->
  disk_failure w = Some reason ->
  Qle_bool (confidenceThreshold svc) (totalScore svc email) = true ->
  exists r w',
    detectSingleInvoice config svc email w = (Return r, w') /\
    isInvoice r = false /\ (confidence r == 0)%Q /\ error r = Some reason /\
    CacheService.get (clock w + 5 * 60 * 1000) (CacheService.getInvoiceDetectionKey (em_id email))
      (invoiceCache w') = (Some r, invoiceCache w').
Proof.
  intros Hmiss Hen Hdisk Hthr.
  destruct (detect_miss config svc email w c Hmiss) as (r & w' & Hrun & Hcomp & _ & _ & _ & Hcache).
  exists r, w'. split; [done|].
  destruct Hcomp as [(_ & Hi & _ & Hok) | (Hc & Hi & _ & _ & He & _)].
  { rewrite Hthr in Hi. specialize (Hok Hi Hen). congruence. }
  split; [done|]. split; [by rewrite Hc|]. split; [congruence|].
  rewrite Hcache. unfold CacheService.get, CacheService.set. cbn [CacheService.cache].
  rewrite lookup_insert_eq. cbn [CacheService.expireTime CacheService.data].
  assert (detection_ttl r = 5 * 60 * 1000)%Z as -> by (unfold detection_ttl; by rewrite He, Hdisk).
  change (Js.num_or (Some (5 * 60 * 1000)%Z) (CacheService.defaultTTL c)) with (5 * 60 * 1000)%Z.
  by rewrite Z.ltb_irrefl.
Qed.

End DetectionCache.

(** The witness of [detection_replayed_until_expiry]: [regular_mail]
    detected in a fresh process. *)
Lemma detection_replayed_until_expiry_witness :
  CacheService.get (clock (Examples.start 0))
    (CacheService.getInvoiceDetectionKey (em_id Examples.regular_mail))
    (invoiceCache (Examples.start 0)) = (None, CacheService.new) /\
  exists r w',
    Examples.detectSingleInvoice Examples.regular_mail (Examples.start 0) = (Return r, w') /\
    (forall other w2,
       em_id other = em_id Examples.regular_mail -> invoiceCache w2 = invoiceCache w' ->
       (clock w2 <= clock (Examples.start 0) + detection_ttl r)%Z ->
       Examples.detectSingleInvoice other w2 = (Return r, w2)) /\
    (forall later,
       (clock (Examples.start 0) + detection_ttl r < later)%Z ->
       (CacheService.get later
          (CacheService.getInvoiceDetectionKey (em_id Examples.regular_mail))
          (invoiceCache w')).1 = None).
Proof.
  split; [reflexivity|].
  exact (@detection_replayed_until_expiry Sample.runtime Examples.config Examples.service
           Examples.regular_mail (Examples.start 0) CacheService.new eq_refl).
Defined.

(** The witness of [failed_save_masks_the_invoice]: [statement_mail]
    (confidence 0.4) detected with local storage enabled on a full disk. *)
Lemma failed_save_masks_the_invoice_witness :
  Config.enableLocalStorage Examples.storing = true /\
  disk_failure (Examples.full_disk 0) = Some "ENOSPC: no space left on device" /\
  Qle_bool (InvoiceService.confidenceThreshold Examples.service)
    (@InvoiceService.totalScore Sample.runtime Examples.service Examples.statement_mail) = true /\
  exists r w',
    @InvoiceService.detectSingleInvoice Sample.runtime Examples.storing Examples.service
      Examples.statement_mail (Examples.full_disk 0) = (Return r, w') /\
    isInvoice r = false /\ (confidence r == 0)%Q /\
    error r = Some "ENOSPC: no space left on device" /\
    CacheService.get (clock (Examples.full_disk 0) + 5 * 60 * 1000)
      (CacheService.getInvoiceDetectionKey (em_id Examples.statement_mail))
      (invoiceCache w') = (Some r, invoiceCache w').
Proof.
  split; [reflexivity|]. split; [reflexivity|]. split; [reflexivity|].
  exact (@failed_save_masks_the_invoice Sample.runtime Examples.storing Examples.service
           Examples.statement_mail (Examples.full_disk 0) CacheService.new
           "ENOSPC: no space left on device" eq_refl eq_refl eq_refl eq_refl).
Defined.

(** ** Extraction and the batch path (InvoiceService.ts) *)

Section Batch.
Context `{JsRuntime}.
Context (config : Config.t).
Import InvoiceService.
Local Open Scope Q_scope.

Lemma set_uuids_twice n m w : set_uuids n (set_uuids m w) = set_uuids n w.
Proof. reflexivity. Qed.

Lemma set_uuids_same w : set_uuids (uuids w) w = w.
Proof. by destruct w. Qed.

(** The amount and the currency are set together, and only for an amount
    that is not 0. *)
Lemma amount_and_currency (amount : option Q) :
  let amount_set :=
    match amount with
    | Some a => negb (Qeq_bool a 0)
    | None => false
    end in
  (is_Some (if amount_set then Some "CNY"%string else None) <->
   is_Some (if amount_set then amount else None)) /\
  (forall a, (if amount_set then amount else None) = Some a ->
             ~ a == 0 /\ (if amount_set then Some "CNY"%string else None) = Some "CNY"%string).
Proof.
  cbv zeta. destruct amount as [a|]; simpl.
  - destruct (Qeq_bool a 0) eqn:Hzero; simpl.
    + split; [split; intros [? [=]] | intros a' [=]].
    + split; [split; intros _; by eexists|].
      intros a' [= <-]. split; [|done].
      intros Heq. apply Qeq_bool_iff in Heq. congruence.
  - split; [split; intros [? [=]] | intros a' [=]].
Qed.

(** X12.  [extractInvoiceInfo] always returns, and changes nothing but the
    count of identifiers drawn.  The record carries the message id, the
    given confidence and the current time; a currency is present exactly
    when an amount is, the currency is then CNY and the amount is not 0 (a
    zero amount is dropped); an invoice number or an issuer is never the
    empty text; and the record's id is the second identifier drawn, the
    first being spent on the test that guards the assignment. *)
Theorem extracted_invoice_fields (svc : t) (email : EmailMessage) (score : Q) (w : World) :
  exists info n,
    extractInvoiceInfo svc email score w = (Return info, set_uuids n w) /\
    ii_emailId info = Some (em_id email) /\
    ii_confidenceScore info = Some score /\
    ii_createdAt info = Some (clock w) /\
    (is_Some (ii_currency info) <-> is_Some (ii_amount info)) /\
    (forall a, ii_amount info = Some a ->
               ~ a == 0 /\ ii_currency info = Some "CNY"%string) /\
    ii_invoiceNumber info <> Some ""%string /\
    ii_issuer info <> Some ""%string /\
    (if Js.truthy (uuid_text (uuids w))
     then ii_id info = Some (uuid_text (S (uuids w))) /\ n = S (S (uuids w))
     else ii_id info = None /\ n = S (uuids w)).
Proof.
  unfold extractInvoiceInfo, bind, Date_now, read, uuidv4, ret. simpl.
  assert (forall o : option string,
            (if Js.truthy_opt o then o else None) <> Some ""%string) as Hfalsy.
  { intros [[|a s]|]; simpl; congruence. }
  destruct (Js.truthy (uuid_text (uuids w))) eqn:Hprobe; simpl;
    eexists _, _; (split; [reflexivity|]); simpl;
    (split; [done|]); (split; [done|]); (split; [done|]);
    (split; [apply amount_and_currency|]);
    (split; [apply amount_and_currency|]);
    (split; [apply Hfalsy|]); (split; [apply Hfalsy|]); done.
Qed.

Lemma analyzeEmail_run svc email w :
  exists info n,
    analyzeEmail config svc email w =
    (Return {| an_isInvoice :=
                 num_ge (totalScore svc email) (Config.confidenceThreshold config);
               an_confidenceScore := totalScore svc email;
               an_invoiceInfo := info |},
     set_uuids n w).
Proof.
  unfold analyzeEmail. fold (totalScore svc email). unfold bind at 1.
  unfold extractInvoiceInfo, bind, Date_now, read, uuidv4, ret. simpl.
  destruct (Js.truthy (uuid_text (uuids w))); simpl; eexists _, _; reflexivity.
Qed.

Lemma detect_each_run svc emails acc w :
  exists n,
    detect_each config svc emails acc w =
    (Return (acc ++ (mark_invoice <$>
                       List.filter
                         (fun e => num_ge (totalScore svc e) (Config.confidenceThreshold config))
                         emails)),
     set_uuids n w).
Proof.
  revert acc w. induction emails as [|email rest IH]; intros acc w; simpl.
  - exists (uuids w). unfold ret. by rewrite app_nil_r, set_uuids_same.
  - unfold bind at 1. destruct (analyzeEmail_run svc email w) as (info & n & ->).
    cbn [an_isInvoice an_confidenceScore]. rewrite andb_diag.
    destruct (num_ge (totalScore svc email) (Config.confidenceThreshold config)).
    + destruct (IH (acc ++ [mark_invoice email]) (set_uuids n w)) as [m ->].
      exists m. simpl. by rewrite <- app_assoc.
    + destruct (IH acc (set_uuids n w)) as [m ->]. by exists m.
Qed.

(** X13.  The batch path.  [detectInvoices] always returns and changes
    nothing but the count of identifiers drawn.  Its invoices are exactly
    the messages whose confidence reaches the configured threshold, in the
    order given, each marked [isInvoice]; [count] is their number; there is
    one detail for each, and every detail reports the confidence 0.8,
    whatever the confidence computed; with a threshold that is not a number
    no message is an invoice. *)
Theorem batch_detection_characterised (svc : t) (emails : list EmailMessage) (w : World) :
  exists b n,
    detectInvoices config svc emails w = (Return b, set_uuids n w) /\
    dr_invoices b =
      mark_invoice <$>
        List.filter
          (fun e => num_ge (totalScore svc e) (Config.confidenceThreshold config)) emails /\
    dr_count b = Z.of_nat (length (dr_invoices b)) /\
    length (dr_details b) = length (dr_invoices b) /\
    Forall (fun d => d_isInvoice d = true /\ d_confidence d = 0.8) (dr_details b) /\
    Forall (fun e => em_isInvoice e = Some true) (dr_invoices b) /\
    (Config.confidenceThreshold config = None -> dr_invoices b = []).
Proof.
  unfold detectInvoices, try_catch, bind.
  destruct (detect_each_run svc emails [] w) as [n ->]. simpl.
  eexists _, n. split; [reflexivity|]. simpl.
  split; [done|]. split; [done|]. split; [by rewrite !length_fmap|].
  split; [|split].
  - apply Forall_fmap, Forall_forall. intros e _. done.
  - apply Forall_fmap, Forall_forall. intros e _. done.
  - intros ->. simpl. by induction emails.
Qed.

End Batch.

(** ** The keyword configuration (InvoiceService.ts, DataService.ts) *)

Section KeywordFacts.
Import InvoiceService.

Lemma getInvoiceKeywords_serves_defaults (c : KeywordCache) (w : World) :
  holds_defaults c ->
  exists c',
    getInvoiceKeywords c w = (Return (getDefaultKeywords, c'), w) /\ holds_defaults c'.
Proof.
  intros Hc. unfold getInvoiceKeywords, bind, Date_now, read. simpl.
  pose proof (cache_get_cases (clock w) CacheService.getInvoiceKeywordsKey c) as Hget.
  destruct (CacheService.cache c !! CacheService.getInvoiceKeywordsKey) as [item|] eqn:Hitem.
  - destruct (CacheService.expireTime item <? clock w)%Z; rewrite Hget; simpl.
    + eexists. split; [reflexivity|]. intros item'. unfold CacheService.set. simpl.
      rewrite lookup_insert_eq. by intros [= <-].
    + exists c. rewrite (Hc item Hitem). done.
  - rewrite Hget. simpl. eexists. split; [reflexivity|]. intros item'.
    unfold CacheService.set. simpl. rewrite lookup_insert_eq. by intros [= <-].
Qed.

(** X14.  Updating the keywords has no effect.  The configuration that
    [DataService.getInvoiceKeywords] resolves to is the default one, which is
    also what [getKeywords] returns for a constructed service.  A cache that
    holds nothing but the defaults under the keyword key (a new cache does)
    keeps doing so under [getInvoiceKeywords], [updateInvoiceKeywords] and
    the sweep; [getInvoiceKeywords] then returns the defaults, also right
    after [updateInvoiceKeywords(k)], which stores nothing of [k] and only
    removes the cached entry.  Neither call throws or changes the world. *)
Theorem keyword_update_has_no_effect :
  DataService.getInvoiceKeywords = Js.Ok getDefaultKeywords /\
  (forall pats, getKeywords (new pats) = getDefaultKeywords) /\
  holds_defaults CacheService.new /\
  (forall c w,
     holds_defaults c ->
     exists c',
       getInvoiceKeywords c w = (Return (getDefaultKeywords, c'), w) /\ holds_defaults c') /\
  (forall keywords c w,
     exists c',
       updateInvoiceKeywords keywords c w = (Return c', w) /\
       CacheService.cache c' !! CacheService.getInvoiceKeywordsKey = None /\
       holds_defaults c' /\
       exists c'',
         getInvoiceKeywords c' w = (Return (getDefaultKeywords, c''), w)) /\
  (forall now c, holds_defaults c -> holds_defaults (CacheService.cleanup now c)).
Proof.
  split; [reflexivity|]. split; [reflexivity|].
  split; [intros item; unfold CacheService.new; simpl; by rewrite lookup_empty|].
  split; [intros c w; apply getInvoiceKeywords_serves_defaults|].
  split.
  - intros keywords c w. eexists. split; [reflexivity|].
    assert (holds_defaults (CacheService.delete CacheService.getInvoiceKeywordsKey c).2)
      as Hdeleted.
    { intros item. unfold CacheService.delete. simpl. by rewrite lookup_delete_eq. }
    split; [unfold CacheService.delete; simpl; apply lookup_delete_eq|].
    split; [exact Hdeleted|].
    destruct (getInvoiceKeywords_serves_defaults _ w Hdeleted) as (c'' & Hrun & _).
    by exists c''.
  - intros now c Hc item Hitem. apply cleanup_lookup in Hitem as [Hitem _]. by apply Hc.
Qed.

End KeywordFacts.

(** ** Statistics over extracted invoices (InvoiceService.ts) *)

Section StatisticsFacts.
Import InvoiceService.
Local Open Scope Q_scope.

Lemma count_positive (n : nat) : 0 < inject_Z (Z.of_nat (S n)).
Proof. unfold Qlt. simpl. lia. Qed.

Lemma count_succ (n : nat) : inject_Z (Z.of_nat (S n)) == inject_Z (Z.of_nat n) + 1.
Proof. rewrite Nat2Z.inj_succ. unfold Z.succ. rewrite inject_Z_plus. reflexivity. Qed.

(** A sum of values between [lo] and [hi], started at [start]. *)
Lemma sum_between (f : InvoiceInfo -> Q) (lo hi : Q) (l : list InvoiceInfo) (start : Q) :
  Forall (fun i => lo <= f i <= hi) l ->
  start + lo * inject_Z (Z.of_nat (length l))
  <= fold_left (fun sum invoice => sum + f invoice) l start
  <= start + hi * inject_Z (Z.of_nat (length l)).
Proof.
  intros Hall. revert start. induction Hall as [|i l [Hlo Hhi] _ IH]; intros start.
  - cbn [fold_left length]. change (inject_Z (Z.of_nat 0)) with 0. split; lra.
  - cbn [fold_left length]. specialize (IH (start + f i)).
    pose proof (count_succ (length l)) as Hsucc.
    set (n := inject_Z (Z.of_nat (length l))) in *.
    set (n' := inject_Z (Z.of_nat (S (length l)))) in *.
    set (total := fold_left _ l _) in *.
    split; nra.
Qed.

Lemma sum_grows (f : InvoiceInfo -> Q) (l : list InvoiceInfo) (start : Q) :
  Forall (fun i => 0 <= f i) l ->
  start <= fold_left (fun sum invoice => sum + f invoice) l start /\
  Forall (fun i => start + f i <= fold_left (fun sum invoice => sum + f invoice) l start) l.
Proof.
  intros Hall. revert start. induction Hall as [|i l Hi _ IH]; intros start.
  - simpl. split; [lra | constructor].
  - cbn [fold_left]. destruct (IH (start + f i)) as [Hge Hall'].
    split; [lra|]. constructor; [lra|].
    eapply Forall_impl; [exact Hall'|]. intros j Hj. simpl in Hj. lra.
Qed.

(** X15.  Totals and average.  [getInvoiceStats] counts every invoice; on
    the empty list every figure is 0 and there is no date range.  When every
    confidence present lies in [0, 1], so does the average confidence (an
    invoice without one counts as 0); when no amount present is negative,
    the total amount is not negative and is at least each single amount. *)
Theorem invoice_stats_totals (invoices : list InvoiceInfo) :
  let stats := getInvoiceStats invoices in
  totalCount stats = Z.of_nat (length invoices) /\
  (invoices = [] ->
   totalAmount stats == 0 /\ averageConfidence stats == 0 /\ dateRange stats = None) /\
  (Forall (fun i => forall s, ii_confidenceScore i = Some s -> 0 <= s <= 1) invoices ->
   0 <= averageConfidence stats <= 1) /\
  (Forall (fun i => forall a, ii_amount i = Some a -> 0 <= a) invoices ->
   0 <= totalAmount stats /\
   Forall (fun i => forall a, ii_amount i = Some a -> a <= totalAmount stats) invoices).
Proof.
  cbv zeta. unfold getInvoiceStats.
  destruct invoices as [|first rest]; simpl length; cbn [Nat.eqb].
  { simpl. split; [done|]. split; [done|]. split; [intros _; lra|].
    intros _. split; [lra | constructor]. }
  set (invoices := first :: rest). cbn [totalCount totalAmount averageConfidence dateRange].
  split; [done|]. split; [done|]. split.
  - intros Hall.
    assert (Forall (fun i => 0 <= default 0 (ii_confidenceScore i) <= 1) invoices) as Hbound.
    { eapply Forall_impl; [exact Hall|]. intros i Hi. simpl in Hi.
      destruct (ii_confidenceScore i) as [s|]; simpl; [by apply Hi | lra]. }
    pose proof (sum_between (fun i => default 0 (ii_confidenceScore i)) 0 1 invoices 0 Hbound)
      as [Hlo Hhi].
    change (length invoices) with (S (length rest)) in *.
    pose proof (count_positive (length rest)) as Hpos.
    split.
    + apply Qle_shift_div_l; [exact Hpos | lra].
    + apply Qle_shift_div_r; [exact Hpos | lra].
  - intros Hall.
    assert (Forall (fun i => 0 <= default 0 (ii_amount i)) invoices) as Hbound.
    { eapply Forall_impl; [exact Hall|]. intros i Hi. simpl in Hi.
      destruct (ii_amount i) as [a|]; simpl; [by apply Hi | lra]. }
    destruct (sum_grows (fun i => default 0 (ii_amount i)) invoices 0 Hbound) as [Hge Heach].
    split; [exact Hge|].
    eapply Forall_impl; [exact Heach|]. intros i Hi a Ha. cbv beta in Hi.
    rewrite Ha in Hi. change (default 0 (Some a)) with a in Hi. lra.
Qed.

Lemma insert_date_perm d l : insert_date d l ≡ₚ d :: l.
Proof.
  induction l as [|x l IH]; simpl; [done|].
  destruct (date_le d x); [done|]. rewrite IH. apply Permutation_swap.
Qed.

Lemma sort_dates_perm l : sort_dates l ≡ₚ l.
Proof.
  induction l as [|x l IH]; [done|].
  unfold sort_dates in *. simpl. rewrite insert_date_perm. by rewrite IH.
Qed.

Lemma insert_date_sorted (t : Z) (l : list (option Z)) :
  Forall is_Some l ->
  StronglySorted (fun a b => date_le a b = true) l ->
  StronglySorted (fun a b => date_le a b = true) (insert_date (Some t) l).
Proof.
  intros Hvalid Hsorted. induction Hsorted as [|x l Hl IH Hx]; simpl.
  - repeat constructor.
  - apply Forall_cons in Hvalid as [[u ->] Hvalid]. simpl.
    destruct (t <=? u)%Z eqn:Hle.
    + constructor; [by constructor|]. constructor; [done|].
      apply Forall_forall. intros y Hy.
      pose proof (proj1 (Forall_forall _ _) Hx y Hy) as Huy.
      pose proof (proj1 (Forall_forall _ _) Hvalid y Hy) as [v ->].
      simpl in *. lia.
    + constructor; [by apply IH|].
      rewrite insert_date_perm. constructor; [simpl; lia | done].
Qed.

Lemma sort_dates_sorted (l : list (option Z)) :
  Forall is_Some l -> StronglySorted (fun a b => date_le a b = true) (sort_dates l).
Proof.
  induction 1 as [|d l [t ->] Hvalid IH]; [constructor|].
  unfold sort_dates in *. simpl. apply insert_date_sorted; [|done].
  by rewrite sort_dates_perm.
Qed.

Lemma sorted_last_is_greatest (l : list (option Z)) (final : option Z) :
  Forall is_Some l ->
  StronglySorted (fun a b => date_le a b = true) l ->
  last l = Some final ->
  Forall (fun d => date_le d final = true) l.
Proof.
  intros Hvalid Hsorted. revert final.
  induction Hsorted as [|x l Hl IH Hx]; intros final Hlast; [constructor|].
  apply Forall_cons in Hvalid as [[u ->] Hvalid].
  destruct l as [|y l'].
  - simpl in Hlast. injection Hlast as <-. constructor; [simpl; lia | constructor].
  - change (last (Some u :: y :: l')) with (last (y :: l')) in Hlast.
    pose proof (IH Hvalid final Hlast) as Hrest.
    constructor; [|done].
    assert (final ∈ y :: l') as Hin by (by apply last_Some_elem_of).
    exact (proj1 (Forall_forall _ _) Hx final Hin).
Qed.

(** X16.  The date range.  When every invoice date present is a valid
    date, [getInvoiceStats] reports no range exactly when no invoice has a
    date; otherwise the range starts at the earliest and ends at the latest
    of the dates: both are dates of the list and every date lies between
    them. *)
Theorem invoice_stats_date_range (invoices : list InvoiceInfo) :
  let dates := omap ii_invoiceDate invoices in
  Forall is_Some dates ->
  match dateRange (getInvoiceStats invoices) with
  | None => dates = []
  | Some (first, final) =>
      exists a b,
        first = Some a /\ final = Some b /\
        Some a ∈ dates /\ Some b ∈ dates /\
        Forall (fun d => forall t, d = Some t -> (a <= t <= b)%Z) dates
  end.
Proof.
  cbv zeta. intros Hvalid. unfold getInvoiceStats.
  destruct (length invoices =? 0)%nat eqn:Hempty.
  { simpl. apply Nat.eqb_eq in Hempty. by destruct invoices. }
  cbn [dateRange].
  set (dates := omap ii_invoiceDate invoices) in *.
  pose proof (sort_dates_perm dates) as Hperm.
  pose proof (sort_dates_sorted dates Hvalid) as Hsorted.
  assert (Forall is_Some (sort_dates dates)) as Hvalid' by (by rewrite Hperm).
  destruct (sort_dates dates) as [|first sorted] eqn:Hdates.
  { by apply Permutation_nil_l in Hperm. }
  destruct (last (first :: sorted)) as [final|] eqn:Hlast;
    [|by apply last_None in Hlast].
  cbn [default].
  pose proof (sorted_last_is_greatest _ final Hvalid' Hsorted Hlast) as Hgreatest.
  pose proof (proj1 (Forall_forall _ _) Hvalid' first ltac:(left)) as [a ->].
  assert (final ∈ Some a :: sorted) as Hfinal by (by apply last_Some_elem_of).
  pose proof (proj1 (Forall_forall _ _) Hvalid' final Hfinal) as [b ->].
  exists a, b. split; [done|]. split; [done|].
  split; [rewrite <- Hperm; left|]. split; [by rewrite <- Hperm|].
  rewrite <- Hperm. apply Forall_forall. intros d Hd t ->.
  pose proof (proj1 (Forall_forall _ _) Hgreatest _ Hd) as Hle. simpl in Hle.
  apply StronglySorted_inv in Hsorted as [_ Hfirst].
  apply elem_of_cons in Hd as [[= <-]|Hd]; [lia|].
  pose proof (proj1 (Forall_forall _ _) Hfirst _ Hd) as Hge. simpl in Hge. lia.
Qed.

End StatisticsFacts.

(** The witness of [invoice_stats_date_range]: the three records of the
    examples, two of which carry a date. *)
Lemma invoice_stats_date_range_witness :
  let dates := omap ii_invoiceDate Examples.extracted in
  Forall is_Some dates /\
  exists a b,
    Some 1703980800000%Z = Some a /\ Some 1704067200000%Z = Some b /\
    Some a ∈ dates /\ Some b ∈ dates /\
    Forall (fun d => forall t, d = Some t -> (a <= t <= b)%Z) dates.
Proof.
  assert (Forall is_Some (omap ii_invoiceDate Examples.extracted)) as Hvalid.
  { repeat constructor; by eexists. }
  split; [exact Hvalid|].
  exact (invoice_stats_date_range Examples.extracted Hvalid).
Defined.

(** ** The two fetch variants, traced (EmailService.ts) *)

Section FetchTrace.
Context `{JsRuntime}.
Context (config : Config.t).
Context (srv : MailServer).
Import EmailService.

Lemma insert_by_date_sorted e l : newest_first l -> newest_first (insert_by_date e l).
Proof.
  unfold newest_first. intros Hsorted. induction Hsorted as [|x l Hl IH Hx]; simpl.
  - repeat constructor.
  - destruct (em_date x <=? em_date e)%Z eqn:Hle.
    + apply Z.leb_le in Hle. constructor; [by constructor|]. constructor; [done|].
      eapply Forall_impl; [exact Hx|]. intros y Hy. simpl in Hy. lia.
    + apply Z.leb_gt in Hle. constructor; [exact IH|].
      rewrite insert_by_date_perm. constructor; [lia | done].
Qed.

Lemma sort_newest_first_sorted l : newest_first (sort_newest_first l).
Proof.
  induction l as [|x l IH]; [constructor|].
  unfold sort_newest_first in *. simpl. by apply insert_by_date_sorted.
Qed.

Lemma filter_newest_first (f : EmailMessage -> bool) l :
  newest_first l -> newest_first (List.filter f l).
Proof.
  unfold newest_first. intros Hsorted. induction Hsorted as [|x l Hl IH Hx]; simpl; [constructor|].
  destruct (f x); [|done]. constructor; [done|].
  apply Forall_forall. intros y Hy. apply list_elem_of_In, filter_In in Hy as [Hy _].
  apply list_elem_of_In in Hy. exact (proj1 (Forall_forall _ _) Hx y Hy).
Qed.

Lemma imap_since_newest_first q l : newest_first l -> newest_first (imap_since q l).
Proof.
  unfold imap_since, sameOrAfter. destruct (Js.truthy_opt (q_since q)); [|done].
  apply filter_newest_first.
Qed.

Lemma containsFilter_newest_first field needle l :
  newest_first l -> newest_first (containsFilter field needle l).
Proof.
  unfold containsFilter. destruct (Js.truthy_opt needle); [|done]. apply filter_newest_first.
Qed.

Lemma pop3_filtered_newest_first q now l :
  newest_first l -> newest_first (pop3_filtered q now l).
Proof.
  intros Hsorted. unfold pop3_filtered. do 2 apply containsFilter_newest_first.
  unfold pop3_since, sameOrAfter.
  destruct (Js.truthy_opt (q_since q)); [destruct (moment_since _)|];
    try apply filter_newest_first; done.
Qed.

(** Unfolds the monad, the methods around the server calls and the fields
    of the world. *)
Ltac trace :=
  cbv beta iota zeta delta
    [bind ret throw try_catch await update read status Date_now logger_error logger_warn
     connectIMAP connectPOP3 disconnect disconnectIMAP disconnectPOP3
     openBox searchEmails cache_set saveIfEnabled saveEmails writeJsonFile
     completeIMAP completePOP3
     touched set_clock set_uuids set_files set_logs set_emailCache set_invoiceCache
     set_connection
     clock uuids disk_failure files logs emailCache invoiceCache imap_handle pop3_handle
     currentProtocol connectionStatus fst snd negb].

(** Closes a goal on a world that has been computed. *)
Ltac settled :=
  unfold unsaved, saved, saved_file; cbn;
  rewrite ?app_nil_r; repeat split; try done.

(** When every parse settles in time, nothing is pushed behind the sorted
    messages. *)
Lemma in_time_settling messages :
  in_time srv ->
  settling srv BeforeResume messages = [] /\ settling srv BeforeResult messages = [].
Proof.
  intros Hprompt. unfold settling.
  induction messages as [|msg rest [IHresume IHresult]]; simpl; [done|].
  by rewrite IHresume, IHresult, (Hprompt msg).
Qed.

Lemma fetchEmailsIMAP_trace q key w :
  exists out w',
    fetchEmailsIMAP config srv q key w = (out, w') /\
    currentProtocol w' = IMAP /\ pop3_handle w' = pop3_handle w /\
    match out with
    | Throw e =>
        unsaved w w' /\ (imap_handle w' = false -> connectionStatus w' = DISCONNECTED)
    | Return r =>
        imap_handle w' = false /\ connectionStatus w' = DISCONNECTED /\
        ((r = noMatch /\ saved key noMatch (2 * 60 * 1000) [] w w') \/
         (exists details,
            (in_time srv -> newest_first details) /\
            r = fetched (imap_since q details) /\
            saved key r (3 * 60 * 1000)
              (if Config.enableLocalStorage config then [saved_file q (clock w)] else [])
              w w' /\
            (Config.enableLocalStorage config = true -> disk_failure w = None)))
    end.
Proof.
  destruct (fetchEmailsIMAP config srv q key w) as [out w'] eqn:Hrun.
  exists out, w'. split; [done|]. revert Hrun.
  destruct w as [ck uu dk fl lg ec ic ih ph cp cs].
  unfold fetchEmailsIMAP. trace.
  destruct (srv_connect srv IMAP q) as [|d|e]; trace;
    try (intros [= <- <-]; by settled).
  destruct (srv_openBox srv _) as [[]|e]; trace;
    try (intros [= <- <-]; by settled).
  match goal with
  | |- context [buildSearchCriteria q ?W] =>
      destruct (buildSearchCriteria_run q W) as [criteria ->]
  end.
  trace.
  destruct (srv_search srv criteria) as [found|e]; trace;
    try (intros [= <- <-]; by settled).
  destruct (length (reverse found) =? 0)%nat; trace.
  { intros [= <- <-]. split; [done|]. split; [done|]. split; [done|]. split; [done|].
    left. by settled. }
  rewrite fetchEmailDetails_run. trace.
  destruct (srv_fetch srv _) as [messages|e] eqn:Hfetch; trace;
    try (intros [= <- <-]; by settled).
  rewrite settle_run. trace. rewrite settle_run. trace.
  match goal with
  | |- context [(sort_newest_first ?early ++ ?resumed) ++ ?late] =>
      assert (in_time srv -> resumed = [] /\ late = []) as Hprompt
        by (intros Hprompt;
            destruct (in_time_settling messages Hprompt) as [Hresume Hresult];
            by rewrite Hresume, Hresult);
      set (sorted := sort_newest_first early) in *;
      pose proof (sort_newest_first_sorted early : newest_first sorted) as Hsorted;
      set (array := sorted ++ resumed) in *;
      set (pushed := late) in *
  end.
  assert (exists details,
            (in_time srv -> newest_first details) /\
            fetched (if Js.truthy_opt (q_since q)
                     then sameOrAfter (moment_since (Js.or_else (q_since q) "")) array
                     else array ++ pushed)
            = fetched (imap_since q details)) as (details & Hdetails & Hresult).
  { unfold imap_since. destruct (Js.truthy_opt (q_since q)).
    - exists array. split; [|done]. intros [Hresume _]%Hprompt.
      unfold array. by rewrite Hresume, app_nil_r.
    - exists (array ++ pushed). split; [|done]. intros [Hresume Hresult]%Hprompt.
      unfold array. by rewrite Hresume, Hresult, !app_nil_r. }
  rewrite Hresult. clearbody array pushed sorted.
  destruct (Config.enableLocalStorage config); trace.
  - destruct dk as [e|]; trace; intros [= <- <-]; [by settled|].
    split; [done|]. split; [done|]. split; [done|]. split; [done|].
    right. exists details. split; [done|]. split; [reflexivity|].
    by settled.
  - intros [= <- <-].
    split; [done|]. split; [done|]. split; [done|]. split; [done|].
    right. exists details. split; [done|]. split; [reflexivity|].
    by settled.
Qed.

Lemma onList_trace q key returnValue data w :
  currentProtocol w = POP3 -> pop3_handle w = true ->
  exists out w',
    onList config srv q key returnValue data w = (out, w') /\
    currentProtocol w' = POP3 /\ imap_handle w' = imap_handle w /\
    pop3_handle w' = false /\ connectionStatus w' = DISCONNECTED /\
    match out with
    | Throw e => unsaved w w'
    | Return r =>
        (r = noMatch /\ saved key noMatch (2 * 60 * 1000) [] w w') \/
        (exists details,
           newest_first details /\ r = fetched (pop3_filtered q (clock w) details) /\
           saved key r (3 * 60 * 1000)
             (if Config.enableLocalStorage config then [saved_file q (clock w)] else [])
             w w' /\
           (Config.enableLocalStorage config = true -> disk_failure w = None))
    end.
Proof.
  intros Hproto Hhandle.
  destruct (onList config srv q key returnValue data w) as [out w'] eqn:Hrun.
  exists out, w'. split; [done|]. revert Hrun.
  unfold onList. unfold bind at 1.
  destruct (decodeList_run returnValue data w) as (emailList & extra & ->).
  destruct w as [ck uu dk fl lg ec ic ih ph cp cs]. simpl in Hproto, Hhandle. subst cp ph.
  trace.
  destruct (length emailList =? 0)%nat; trace.
  { intros [= <- <-]. split; [done|]. split; [done|]. split; [done|]. split; [done|].
    left. by settled. }
  rewrite fetchPOP3EmailDetails_run. trace.
  match goal with
  | |- context [pop3TimeFilter q ?es ?W] =>
      destruct (pop3TimeFilter_run q es W) as [extra' ->]
  end.
  trace.
  destruct (Config.enableLocalStorage config); trace.
  - destruct dk as [e|]; trace; intros [= <- <-]; [by settled|].
    split; [done|]. split; [done|]. split; [done|]. split; [done|].
    right. eexists. split; [apply sort_newest_first_sorted|]. split; [reflexivity|].
    by settled.
  - intros [= <- <-].
    split; [done|]. split; [done|]. split; [done|]. split; [done|].
    right. eexists. split; [apply sort_newest_first_sorted|]. split; [reflexivity|].
    by settled.
Qed.

Lemma fetchEmailsPOP3_trace q key w :
  exists out w',
    fetchEmailsPOP3 config srv q key w = (out, w') /\
    currentProtocol w' = POP3 /\ imap_handle w' = imap_handle w /\
    match out with
    | Throw e =>
        unsaved w w' /\ (pop3_handle w' = false -> connectionStatus w' = DISCONNECTED)
    | Return r =>
        pop3_handle w' = false /\ connectionStatus w' = DISCONNECTED /\
        ((r = noMatch /\ saved key noMatch (2 * 60 * 1000) [] w w') \/
         (exists details,
            newest_first details /\ r = fetched (pop3_filtered q (clock w) details) /\
            saved key r (3 * 60 * 1000)
              (if Config.enableLocalStorage config then [saved_file q (clock w)] else [])
              w w' /\
            (Config.enableLocalStorage config = true -> disk_failure w = None)))
    end.
Proof.
  destruct (fetchEmailsPOP3 config srv q key w) as [out w'] eqn:Hrun.
  exists out, w'. split; [done|]. revert Hrun.
  destruct w as [ck uu dk fl lg ec ic ih ph cp cs].
  unfold fetchEmailsPOP3. trace.
  destruct (srv_connect srv POP3 q) as [|d|e]; trace;
    try (intros [= <- <-]; by settled).
  destruct (srv_list srv) as [e|resp returnValue dataStr]; trace;
    try (intros [= <- <-]; by settled).
  destruct resp; trace; try (intros [= <- <-]; by settled).
  match goal with
  | |- context [onList config srv q key returnValue dataStr ?W] =>
      destruct (onList_trace q key returnValue dataStr W eq_refl eq_refl)
        as (out1 & w1 & -> & Hproto & Himap & Hclosed & Hstatus & Hout)
  end.
  destruct w1 as [ck1 uu1 dk1 fl1 lg1 ec1 ic1 ih1 ph1 cp1 cs1].
  simpl in Hproto, Himap, Hclosed, Hstatus. subst cp1 ih1 ph1 cs1.
  destruct out1 as [r|e]; trace.
  - intros [= <- <-]. split; [done|]. split; [done|]. split; [done|]. split; [done|].
    exact Hout.
  - intros [= <- <-]. split; [done|]. split; [done|]. split; [|done].
    destruct Hout as (? & ? & ? & ? & ?). by settled.
Qed.

(** What [fetchEmails] does with its result: a failure is returned and
    nothing kept, an empty match is cached for two minutes, and the messages
    found are saved (when local storage is enabled) and cached for three. *)
Lemma fetchEmails_trace q w :
  exists r w',
    fetchEmails config srv q w = (Return r, w') /\
    currentProtocol w' = asked q /\
    handle (asked q) w' = false /\ connectionStatus w' = DISCONNECTED /\
    ((exists reason, r = failure reason /\ unsaved w w') \/
     (r = noMatch /\ saved (fetchKey q) noMatch (2 * 60 * 1000) [] w w') \/
     (exists details,
        (asked q = POP3 \/ in_time srv -> newest_first details) /\
        r = fetched (match asked q with
                     | IMAP => imap_since q details
                     | POP3 => pop3_filtered q (clock w) details
                     end) /\
        saved (fetchKey q) r (3 * 60 * 1000)
          (if Config.enableLocalStorage config then [saved_file q (clock w)] else [])
          w w' /\
        (Config.enableLocalStorage config = true -> disk_failure w = None))).
Proof.
  unfold fetchEmails, try_catch, asked.
  destruct (default IMAP (protocol q)).
  - destruct (fetchEmailsIMAP_trace q (fetchKey q) w)
      as (out & w1 & -> & Hproto & _ & Hout).
    destruct out as [r|e].
    + destruct Hout as (Hclosed & Hstatus & [Hnone | (details & Hsorted & Hsome)]);
        eexists _, _; (split; [reflexivity|]); (split; [done|]);
        (split; [done|]); (split; [done|]); [auto|].
      right. right. exists details. split; [|done].
      intros [Hpop3 | Hprompt]; [discriminate | auto].
    + destruct Hout as [Hsame Hstatus].
      destruct w1 as [ck uu dk fl lg ec ic ih ph cp cs]. simpl in Hproto, Hstatus.
      subst cp. trace. eexists _, _. split; [reflexivity|].
      split; [by destruct ih|]. split; [by destruct ih|].
      split; [destruct ih; [done | by apply Hstatus]|].
      left. exists e. split; [done|].
      destruct Hsame as (? & ? & ? & ? & ?). destruct ih; by settled.
  - destruct (fetchEmailsPOP3_trace q (fetchKey q) w)
      as (out & w1 & -> & Hproto & _ & Hout).
    destruct out as [r|e].
    + destruct Hout as (Hclosed & Hstatus & [Hnone | (details & Hsorted & Hsome)]);
        eexists _, _; (split; [reflexivity|]); (split; [done|]);
        (split; [done|]); (split; [done|]); [auto|].
      right. right. by exists details.
    + destruct Hout as [Hsame Hstatus].
      destruct w1 as [ck uu dk fl lg ec ic ih ph cp cs]. simpl in Hproto, Hstatus.
      subst cp. trace. eexists _, _. split; [reflexivity|].
      split; [by destruct ph|]. split; [by destruct ph|].
      split; [destruct ph; [done | by apply Hstatus]|].
      left. exists e. split; [done|].
      destruct Hsame as (? & ? & ? & ? & ?). destruct ph; by settled.
Qed.

(** *** What a fetch returns, keeps and writes *)

Lemma get_after_set {T} now later key (d : T) ttl c :
  ttl <> 0%Z ->
  (CacheService.get later key (CacheService.set now key d (Some ttl) c)).1 =
  (if (now + ttl <? later)%Z then None else Some d).
Proof.
  intros Httl. unfold CacheService.get, CacheService.set. cbn [CacheService.cache].
  rewrite lookup_insert_eq. cbn [CacheService.expireTime CacheService.data Js.num_or].
  destruct (ttl =? 0)%Z eqn:Hzero; [apply Z.eqb_eq in Hzero; done|].
  by destruct (_ <? _)%Z.
Qed.

Lemma fetched_not_noMatch l : fetched l <> noMatch.
Proof. intros Heq. apply (f_equal message) in Heq. simpl in Heq. discriminate. Qed.

Lemma sameOrAfter_never l : sameOrAfter None l = [].
Proof. unfold sameOrAfter. by induction l. Qed.

(** X17.  Newest first, when the parses are in time.  [fetchEmails] always
    returns a result with a message list.  The list is in the order of the
    dates, newest first, whatever the filters removed, for every POP3
    request, and for an IMAP request when every parse settles before the
    fetch ends. *)
Theorem fetch_returns_newest_first (q : EmailQueryParams) (w : World) :
  asked q = POP3 \/ in_time srv ->
  exists r w' l,
    fetchEmails config srv q w = (Return r, w') /\
    emails r = Some l /\ newest_first l.
Proof.
  intros Hordered.
  destruct (fetchEmails_trace q w) as (r & w' & Hrun & _ & _ & _ & Hcases).
  exists r, w'.
  destruct Hcases as [(reason & -> & _) | [[-> _] | (details & Hsorted & -> & _)]].
  - exists []. split; [done|]. split; [done|]. constructor.
  - exists []. split; [done|]. split; [done|]. constructor.
  - specialize (Hsorted Hordered). eexists. split; [done|]. split; [reflexivity|].
    destruct (asked q).
    + by apply imap_since_newest_first.
    + by apply pop3_filtered_newest_first.
Qed.

(** X18.  A fetch ends closed, and only a success is cached.  After
    [fetchEmails], whatever happened, the client of the requested protocol
    is released and the connection status is DISCONNECTED.  A successful
    result is stored under the fetch key of the request, for two minutes
    when nothing matched and for three otherwise, so that a [get] of that
    key returns it until then; a failed result leaves the cache as it
    was. *)
Theorem fetch_ends_closed_and_caches_success (q : EmailQueryParams) (w : World) :
  exists r w',
    fetchEmails config srv q w = (Return r, w') /\
    currentProtocol w' = asked q /\
    handle (asked q) w' = false /\ connectionStatus w' = DISCONNECTED /\
    (success r = false -> emailCache w' = emailCache w) /\
    (success r = true ->
     exists ttl,
       ((r = noMatch /\ ttl = 2 * 60 * 1000) \/ (r <> noMatch /\ ttl = 3 * 60 * 1000))%Z /\
       emailCache w' = CacheService.set (clock w) (fetchKey q) r (Some ttl) (emailCache w) /\
       forall later,
         (CacheService.get later (fetchKey q) (emailCache w')).1 =
         (if (clock w + ttl <? later)%Z then None else Some r)).
Proof.
  destruct (fetchEmails_trace q w)
    as (r & w' & Hrun & Hproto & Hclosed & Hstatus & Hcases).
  exists r, w'. split; [done|]. split; [done|]. split; [done|]. split; [done|].
  destruct Hcases as [(reason & -> & Hsame) | [[-> Hsaved] | (details & _ & Hr & Hsaved & _)]].
  - split; [intros _; apply Hsame | done].
  - split; [done|]. intros _. exists (2 * 60 * 1000)%Z.
    destruct Hsaved as (_ & _ & _ & Hcache & _).
    split; [by left|]. split; [done|]. intros later. rewrite Hcache.
    by apply get_after_set.
  - split; [by rewrite Hr|]. intros _. exists (3 * 60 * 1000)%Z.
    destruct Hsaved as (_ & _ & _ & Hcache & _).
    split; [right; split; [rewrite Hr; apply fetched_not_noMatch | done]|].
    split; [done|]. intros later. rewrite Hcache. by apply get_after_set.
Qed.

(** X19.  The storage switch.  With local storage disabled [fetchEmails]
    writes no file.  With it enabled, a fetch that finds messages and
    succeeds writes exactly one file, named after the account and the time
    of the call; a fetch that fails or matches nothing writes none. *)
Theorem storage_switch_controls_saved_file (q : EmailQueryParams) (w : World) :
  exists r w',
    fetchEmails config srv q w = (Return r, w') /\
    (Config.enableLocalStorage config = false -> files w' = files w) /\
    (success r = false -> files w' = files w) /\
    (r = noMatch -> files w' = files w) /\
    (Config.enableLocalStorage config = true -> success r = true -> r <> noMatch ->
     files w' = files w ++ [saved_file q (clock w)]).
Proof.
  destruct (fetchEmails_trace q w) as (r & w' & Hrun & _ & _ & _ & Hcases).
  exists r, w'. split; [done|].
  destruct Hcases as [(reason & -> & Hsame) | [[-> Hsaved] | (details & _ & Hr & Hsaved & _)]].
  - destruct Hsame as (_ & _ & Hfiles & _). by repeat split.
  - destruct Hsaved as (_ & _ & Hfiles & _). rewrite app_nil_r in Hfiles. by repeat split.
  - destruct Hsaved as (_ & _ & Hfiles & _).
    split; [intros Hoff; rewrite Hoff in Hfiles; by rewrite app_nil_r in Hfiles|].
    split; [by rewrite Hr|].
    split; [intros Hnone; rewrite Hr in Hnone; by apply fetched_not_noMatch in Hnone|].
    intros Hon _ _. by rewrite Hon in Hfiles.
Qed.

Lemma completeIMAP_disk q key retrieved pending w reason :
  Config.enableLocalStorage config = true -> disk_failure w = Some reason ->
  (completeIMAP config srv q key retrieved pending w).1 = Throw reason /\
  emailCache (completeIMAP config srv q key retrieved pending w).2 = emailCache w.
Proof.
  intros Hon Hdisk.
  destruct (completeIMAP config srv q key retrieved pending w) as [out w'] eqn:Hrun.
  revert Hrun.
  destruct w as [ck uu dk fl lg ec ic ih ph cp cs].
  simpl in Hdisk. subst dk.
  destruct cp; [destruct ih | destruct ph]; trace; rewrite settle_run; trace;
    rewrite Hon; trace; by intros [= <- <-].
Qed.

Lemma completePOP3_disk q key retrieved w reason :
  Config.enableLocalStorage config = true -> disk_failure w = Some reason ->
  (completePOP3 config q key retrieved w).1 = Throw reason /\
  emailCache (completePOP3 config q key retrieved w).2 = emailCache w.
Proof.
  intros Hon Hdisk.
  destruct (completePOP3 config q key retrieved w) as [out w'] eqn:Hrun. revert Hrun.
  unfold completePOP3. unfold bind at 1.
  destruct (pop3TimeFilter_run q retrieved w) as [extra ->].
  destruct w as [ck uu dk fl lg ec ic ih ph cp cs].
  simpl in Hdisk. subst dk.
  destruct cp; [destruct ih | destruct ph]; trace; rewrite Hon; trace;
    by intros [= <- <-].
Qed.

(** X20.  A failing disk fails the fetch.  With local storage enabled and
    a disk that refuses writes, the block that completes a retrieval throws
    the error of the write (under either protocol, after the messages have
    been retrieved and the connection closed) and caches nothing; so
    [fetchEmails] succeeds only when nothing matched. *)
Theorem failing_disk_fails_the_fetch (q : EmailQueryParams) (w : World) (reason : string) :
  Config.enableLocalStorage config = true ->
  disk_failure w = Some reason ->
  (exists r w',
     fetchEmails config srv q w = (Return r, w') /\
     (success r = true -> r = noMatch)) /\
  (forall key retrieved pending w1,
     disk_failure w1 = Some reason ->
     (completeIMAP config srv q key retrieved pending w1).1 = Throw reason /\
     emailCache (completeIMAP config srv q key retrieved pending w1).2 = emailCache w1 /\
     (completePOP3 config q key retrieved w1).1 = Throw reason /\
     emailCache (completePOP3 config q key retrieved w1).2 = emailCache w1).
Proof.
  intros Hon Hdisk. split.
  - destruct (fetchEmails_trace q w) as (r & w' & Hrun & _ & _ & _ & Hcases).
    exists r, w'. split; [done|].
    destruct Hcases as [(e & -> & _) | [[-> _] | (details & _ & _ & _ & Hok)]]; try done.
    specialize (Hok Hon). congruence.
  - intros key retrieved pending w1 Hdisk1.
    destruct (completeIMAP_disk q key retrieved pending w1 reason Hon Hdisk1) as [? ?].
    destruct (completePOP3_disk q key retrieved w1 reason Hon Hdisk1) as [? ?].
    done.
Qed.

(** X21.  A [since] that is no date splits the variants.  When the request
    carries a [since] that moment cannot read as a date (the pattern of the
    query schema does not exclude that), the IMAP variant returns no message
    at all, while the block that completes a POP3 retrieval skips the time
    filter and keeps every retrieved message that passes the sender and
    recipient filters. *)
Theorem invalid_since_splits_the_variants (q : EmailQueryParams) (s : string) (w : World) :
  q_since q = Some s -> Js.truthy s = true -> moment_since s = None ->
  (asked q = IMAP ->
   exists r w', fetchEmails config srv q w = (Return r, w') /\ emails r = Some []) /\
  (forall key retrieved pending w1 r w2,
     completeIMAP config srv q key retrieved pending w1 = (Return r, w2) ->
     emails r = Some []) /\
  (forall key retrieved w1 r w2,
     completePOP3 config q key retrieved w1 = (Return r, w2) ->
     emails r =
       Some (containsFilter em_to (q_to q) (containsFilter em_from (q_from q) retrieved))).
Proof.
  intros Hsince Hgiven Hinvalid.
  assert (forall l, imap_since q l = []) as Himap.
  { intros l. unfold imap_since. rewrite Hsince. simpl. rewrite Hgiven, Hinvalid.
    apply sameOrAfter_never. }
  assert (forall now l, pop3_since q now l = l) as Hpop.
  { intros now l. unfold pop3_since. rewrite Hsince. simpl. by rewrite Hgiven, Hinvalid. }
  split; [|split].
  - intros Himap_asked.
    destruct (fetchEmails_trace q w) as (r & w' & Hrun & _ & _ & _ & Hcases).
    exists r, w'. split; [done|].
    destruct Hcases as [(e & -> & _) | [[-> _] | (details & _ & -> & _)]]; try done.
    rewrite Himap_asked. simpl. by rewrite Himap.
  - intros key retrieved pending w1 r w2 Hrun.
    apply completeIMAP_result in Hrun as ->. rewrite Hsince. simpl. rewrite Hgiven.
    simpl. by rewrite Himap.
  - intros key retrieved w1 r w2 Hrun.
    apply completePOP3_result in Hrun as ->. simpl. unfold pop3_filtered. by rewrite Hpop.
Qed.

(** X22.  No [since] means today, on one side only.  For a request
    without [since], the block that completes an IMAP retrieval applies no
    time filter: it returns every message the array of [fetchEmailDetails]
    holds, followed by the messages whose parse settles while the block
    runs.  Every message a POP3 fetch returns is dated at or after the start
    of the current day. *)
Theorem missing_since_means_today (q : EmailQueryParams) (w : World) :
  Js.truthy_opt (q_since q) = false ->
  (forall key retrieved pending w1 r w2,
     completeIMAP config srv q key retrieved pending w1 = (Return r, w2) ->
     emails r = Some (retrieved ++ (imap_collected config srv w1 pending).1)) /\
  (forall key retrieved w1 r w2,
     completePOP3 config q key retrieved w1 = (Return r, w2) ->
     exists l,
       emails r = Some l /\
       forall e, e ∈ l <->
         e ∈ retrieved /\ (startOfDay (clock w1) <= em_date e)%Z /\
         contains_ok em_from (q_from q) e /\ contains_ok em_to (q_to q) e) /\
  (asked q = POP3 ->
   exists r w' l,
     fetchEmails config srv q w = (Return r, w') /\ emails r = Some l /\
     forall e, e ∈ l -> (startOfDay (clock w) <= em_date e)%Z).
Proof.
  intros Habsent.
  assert (forall now l e,
            e ∈ pop3_filtered q now l <->
            e ∈ l /\ (startOfDay now <= em_date e)%Z /\
            contains_ok em_from (q_from q) e /\ contains_ok em_to (q_to q) e) as Hpop.
  { intros now l e. unfold pop3_filtered, pop3_since. rewrite Habsent.
    rewrite !elem_of_containsFilter, elem_of_sameOrAfter. tauto. }
  split; [|split].
  - intros key retrieved pending w1 r w2 Hrun.
    apply completeIMAP_result in Hrun as ->. by rewrite Habsent.
  - intros key retrieved w1 r w2 Hrun.
    apply completePOP3_result in Hrun as ->. simpl. eexists. split; [done|].
    intros e. apply Hpop.
  - intros Hpop_asked.
    destruct (fetchEmails_trace q w) as (r & w' & Hrun & _ & _ & _ & Hcases).
    exists r, w'.
    destruct Hcases as [(e & -> & _) | [[-> _] | (details & _ & -> & _)]].
    + exists []. split; [done|]. split; [done|]. intros e' He'. by apply elem_of_nil in He'.
    + exists []. split; [done|]. split; [done|]. intros e' He'. by apply elem_of_nil in He'.
    + rewrite Hpop_asked in Hrun |- *. eexists. split; [done|]. split; [reflexivity|].
      intros e He. apply Hpop in He. tauto.
Qed.

(** *** The connection test *)

(** X23.  What a connection test reports.  A test that misses the cache
    never throws.  It succeeds exactly when the server accepts the
    connection; the result names the server, the port and the SSL flag of
    the request, and is stored under the test key for five minutes when it
    succeeded and for one minute when it failed.  After a success the client
    is released and the status is DISCONNECTED; after a failure the client
    object is still held and the status is ERROR.  No file is written and no
    fetch result is cached. *)
Theorem connection_test_reports_the_connection (emailConfig : EmailQueryParams)
    (tests tests' : TestCache) (w : World) :
  CacheService.get (clock w) (testKey emailConfig) tests = (None, tests') ->
  exists result ttl w',
    testConnection srv emailConfig tests w =
    (Return (result,
             CacheService.set (clock w) (testKey emailConfig) result (Some ttl) tests'),
     w') /\
    ttl = (if ct_success result then 5 * 60 * 1000 else 1 * 60 * 1000)%Z /\
    (ct_success result = true <-> srv_connect srv (asked emailConfig) emailConfig = ConnectReady) /\
    ct_server result = imap_server emailConfig /\
    ct_port result = port emailConfig /\
    ct_ssl result = use_ssl emailConfig /\
    currentProtocol w' = asked emailConfig /\
    (if ct_success result
     then handle (asked emailConfig) w' = false /\ connectionStatus w' = DISCONNECTED
     else handle (asked emailConfig) w' = true /\ connectionStatus w' = ERROR) /\
    unsaved w w'.
Proof.
  intros Hmiss. unfold testConnection, asked. unfold bind at 1. unfold Date_now at 1, read at 1.
  rewrite Hmiss. cbn [fst snd].
  destruct w as [ck uu dk fl lg ec ic ih ph cp cs].
  destruct (default IMAP (protocol emailConfig)); trace.
  - destruct (srv_connect srv IMAP emailConfig) as [|d|e]; trace;
      eexists _, _, _; (split; [reflexivity|]); by settled.
  - destruct (srv_connect srv POP3 emailConfig) as [|d|e]; trace;
      eexists _, _, _; (split; [reflexivity|]); by settled.
Qed.

(** X24.  A connection test is replayed.  While an entry under the test
    key has not expired, a test of any request with that key (the same
    address, server and port, whatever its protocol, password or SSL flag)
    returns the stored result as it is, against any server: the server is
    not contacted, and the connection fields, the caches, the files and the
    log of errors and warnings stay as they are. *)
Theorem connection_test_is_replayed (emailConfig other : EmailQueryParams)
    (tests : TestCache) (w : World) (item : CacheService.Item ConnectionTestResult)
    (another : MailServer) :
  CacheService.cache tests !! testKey emailConfig = Some item ->
  (clock w <= CacheService.expireTime item)%Z ->
  testKey other = testKey emailConfig ->
  testConnection another other tests w = (Return (CacheService.data item, tests), w).
Proof.
  intros Hitem Hlive Hkey. unfold testConnection. unfold bind at 1. unfold Date_now, read.
  rewrite Hkey. unfold CacheService.get. rewrite Hitem.
  destruct (CacheService.expireTime item <? clock w)%Z eqn:Hexp; [|done].
  apply Z.ltb_lt in Hexp. lia.
Qed.

End FetchTrace.

(** The witness of [fetch_returns_newest_first]: an IMAP fetch of the
    mailbox of the examples, every parse settling before the fetch ends. *)
Lemma fetch_returns_newest_first_witness :
  (asked (SampleServer.query IMAP (Some 5%Z) None None) = POP3 \/
   in_time SampleServer.prompt) /\
  exists r w' l,
    SampleServer.fetchEmails SampleServer.prompt
      (SampleServer.query IMAP (Some 5%Z) None None) (Examples.start 1749420300000)
    = (Return r, w') /\
    emails r = Some l /\ newest_first l.
Proof.
  assert (asked (SampleServer.query IMAP (Some 5%Z) None None) = POP3 \/
          in_time SampleServer.prompt) as Hordered
    by (right; by intros msg).
  split; [exact Hordered|].
  exact (@fetch_returns_newest_first Sample.runtime Examples.config SampleServer.prompt
           (SampleServer.query IMAP (Some 5%Z) None None)
           (Examples.start 1749420300000) Hordered).
Defined.

(** The witness of [failing_disk_fails_the_fetch]: an IMAP fetch of the
    mailbox of the examples, every parse settling before the fetch ends, with
    local storage enabled, on a full disk. *)
Lemma failing_disk_fails_the_fetch_witness :
  Config.enableLocalStorage Examples.storing = true /\
  disk_failure (Examples.full_disk 1749420300000) = Some "ENOSPC: no space left on device" /\
  exists r w',
    @EmailService.fetchEmails Sample.runtime Examples.storing SampleServer.prompt
      (SampleServer.query IMAP (Some 5%Z) None None) (Examples.full_disk 1749420300000)
    = (Return r, w') /\
    (success r = true -> r = EmailService.noMatch).
Proof.
  split; [reflexivity|]. split; [reflexivity|].
  exact (proj1 (@failing_disk_fails_the_fetch Sample.runtime Examples.storing
                  SampleServer.prompt (SampleServer.query IMAP (Some 5%Z) None None)
                  (Examples.full_disk 1749420300000) "ENOSPC: no space left on device"
                  eq_refl eq_refl)).
Defined.

(** The witness of [invalid_since_splits_the_variants]: the text
    "2025/13/45 99:99" passes the pattern of the query schema and is no
    date; the IMAP fetch returns no message although every parse settles
    before the fetch ends. *)
Lemma invalid_since_splits_the_variants_witness :
  let q := SampleServer.query IMAP (Some 5%Z) (Some "2025/13/45 99:99") None in
  Validation.since_ok (q_since q) = true /\
  Js.truthy "2025/13/45 99:99" = true /\
  @moment_since Sample.runtime "2025/13/45 99:99" = None /\
  exists r w',
    SampleServer.fetchEmails SampleServer.prompt q (Examples.start 1749420300000)
    = (Return r, w') /\
    emails r = Some [].
Proof.
  cbv zeta. split; [reflexivity|]. split; [reflexivity|]. split; [reflexivity|].
  exact (proj1 (@invalid_since_splits_the_variants Sample.runtime Examples.config
                  SampleServer.prompt
                  (SampleServer.query IMAP (Some 5%Z) (Some "2025/13/45 99:99") None)
                  "2025/13/45 99:99" (Examples.start 1749420300000)
                  eq_refl eq_refl eq_refl) eq_refl).
Defined.

(** The witness of [missing_since_means_today]: a POP3 fetch without
    [since] of the mailbox of the examples. *)
Lemma missing_since_means_today_witness :
  let q := SampleServer.query POP3 (Some 5%Z) None None in
  Js.truthy_opt (q_since q) = false /\
  exists r w' l,
    SampleServer.fetchEmails SampleServer.server q (Examples.start 1749420300000)
    = (Return r, w') /\
    emails r = Some l /\
    forall e, e ∈ l ->
      (@startOfDay Sample.runtime (clock (Examples.start 1749420300000)) <= em_date e)%Z.
Proof.
  cbv zeta. split; [reflexivity|].
  exact (proj2 (proj2 (@missing_since_means_today Sample.runtime Examples.config
                         SampleServer.server
                         (SampleServer.query POP3 (Some 5%Z) None None)
                         (Examples.start 1749420300000) eq_refl)) eq_refl).
Defined.

(** ** Search criteria, account ids and the POP3 list (EmailService.ts) *)

Section Parsing.
Context `{JsRuntime}.
Import EmailService.

(** X25.  The search never asks for ALL.  [buildSearchCriteria] always
    returns, without changing anything: the criteria are the sender filter
    (when given), the recipient filter (when given) and exactly one SINCE,
    in that order.  The day of SINCE is the start of the day of [since] when
    the request has one, and the start of the current day otherwise.  The
    criterion ALL the list starts from is always dropped. *)
Theorem search_criteria_never_ask_for_all (q : EmailQueryParams) (w : World) :
  exists criteria day,
    buildSearchCriteria q w = (Return criteria, w) /\
    criteria =
      (if Js.truthy_opt (q_from q) then [FROM (Js.or_else (q_from q) "")] else []) ++
      (if Js.truthy_opt (q_to q) then [TO (Js.or_else (q_to q) "")] else []) ++
      [SINCE day] /\
    day = (if Js.truthy_opt (q_since q)
           then startOfDay <$> moment_since (Js.or_else (q_since q) "")
           else Some (startOfDay (clock w))) /\
    ALL ∉ criteria.
Proof.
  unfold buildSearchCriteria, bind, Date_now, read, ret.
  destruct (Js.truthy_opt (q_from q)), (Js.truthy_opt (q_to q)), (Js.truthy_opt (q_since q));
    eexists _, _; (split; [reflexivity|]); (split; [reflexivity|]); (split; [reflexivity|]);
    simpl; intros Hin;
    repeat (apply elem_of_cons in Hin as [Hin|Hin]; [discriminate|]);
    by apply elem_of_nil in Hin.
Qed.

Lemma includes_char_cons (k c : ascii) (s : string) :
  Js.includes (String c s) (String k "") = false <->
  k <> c /\ Js.includes s (String k "") = false.
Proof.
  simpl. rewrite orb_false_iff. destruct (ascii_dec k c) as [->|Hne]; simpl.
  - split; [intros [Hprefix _]; by destruct s | by intros [? _]].
  - split; [by intros [_ ?] | by intros [_ ?]].
Qed.

(** X26.  The account id is safe for a file name.  [generateAccountId]
    keeps the length of the address, replaces every [@] and every dot by an
    underscore and keeps every other character, so its result holds neither;
    it changes nothing on a text that holds neither, so applying it twice is
    applying it once. *)
Theorem account_id_has_no_at_or_dot (email : string) :
  String.length (generateAccountId email) = String.length email /\
  Js.includes (generateAccountId email) "@" = false /\
  Js.includes (generateAccountId email) "." = false /\
  (Js.includes email "@" = false -> Js.includes email "." = false ->
   generateAccountId email = email) /\
  generateAccountId (generateAccountId email) = generateAccountId email.
Proof.
  assert (forall s, Js.includes (generateAccountId s) "@" = false /\
                    Js.includes (generateAccountId s) "." = false) as Hfree.
  { induction s as [|c s [IHat IHdot]]; [done|].
    cbn [generateAccountId]. split; apply includes_char_cons; (split; [|done]).
    - destruct (Ascii.eqb c "@") eqn:Hat; simpl; [done|].
      destruct (Ascii.eqb c ".") eqn:Hdot; simpl; [done|].
      apply Ascii.eqb_neq in Hat. congruence.
    - destruct (Ascii.eqb c "@") eqn:Hat; simpl; [done|].
      destruct (Ascii.eqb c ".") eqn:Hdot; simpl; [done|].
      apply Ascii.eqb_neq in Hdot. congruence. }
  assert (forall s, Js.includes s "@" = false -> Js.includes s "." = false ->
                    generateAccountId s = s) as Hsame.
  { induction s as [|c s IH]; [done|]. intros Hat Hdot.
    apply includes_char_cons in Hat as [Hat Hat'].
    apply includes_char_cons in Hdot as [Hdot Hdot'].
    cbn [generateAccountId]. rewrite IH by done.
    destruct (Ascii.eqb c "@") eqn:Eat; [apply Ascii.eqb_eq in Eat; congruence|].
    destruct (Ascii.eqb c ".") eqn:Edot; [apply Ascii.eqb_eq in Edot; congruence|].
    done. }
  split; [|split; [apply Hfree | split; [apply Hfree | split; [apply Hsame|]]]].
  - induction email as [|c s IH]; [done|]. cbn [generateAccountId String.length]. by rewrite IH.
  - apply Hsame; apply Hfree.
Qed.

Lemma string_app_assoc (a b c : string) : (a +:+ b) +:+ c = a +:+ (b +:+ c).
Proof.
  induction a as [|x a IH]; [done|].
  change (String x ((a +:+ b) +:+ c) = String x (a +:+ (b +:+ c))). by f_equal.
Qed.

Lemma string_app_nil_r (a : string) : a +:+ "" = a.
Proof.
  induction a as [|x a IH]; [done|]. change (String x (a +:+ "") = String x a). by f_equal.
Qed.

Lemma rev_app_spec (s acc : string) : String.rev_app s acc = String.rev s +:+ acc.
Proof.
  unfold String.rev. revert acc. induction s as [|x s IH]; intros acc; simpl; [done|].
  rewrite (IH (String x acc)), (IH (String x "")). by rewrite string_app_assoc.
Qed.

Lemma rev_cons (c : ascii) (cur : string) :
  String.rev (String c cur) = String.rev cur +:+ String c "".
Proof. unfold String.rev at 1. simpl. apply rev_app_spec. Qed.

Lemma split_crlf_nonempty s cur : split_crlf s cur <> [].
Proof.
  revert cur. induction s as [|c rest IH]; intros cur; simpl; [done|].
  destruct rest as [|c' rest']; [done|].
  destruct (Ascii.eqb c "013" && Ascii.eqb c' "010"); [done | apply IH].
Qed.

Lemma join_cons sep p l : l <> [] -> Js.join sep (p :: l) = p +:+ sep +:+ Js.join sep l.
Proof. by destruct l. Qed.

Lemma split_crlf_step c c' rest' cur :
  split_crlf (String c (String c' rest')) cur =
  if Ascii.eqb c "013" && Ascii.eqb c' "010"
  then String.rev cur :: split_crlf rest' ""
  else split_crlf (String c' rest') (String c cur).
Proof. reflexivity. Qed.

Lemma split_crlf_join (n : nat) :
  forall s cur, String.length s <= n ->
    Js.join crlf (split_crlf s cur) = String.rev cur +:+ s.
Proof.
  induction n as [|n IH]; intros s cur Hlen.
  - destruct s; [|simpl in Hlen; lia]. simpl. by rewrite string_app_nil_r.
  - destruct s as [|c rest]; [simpl; by rewrite string_app_nil_r|].
    destruct rest as [|c' rest'].
    + simpl. by rewrite rev_cons.
    + rewrite split_crlf_step.
      destruct (Ascii.eqb c "013" && Ascii.eqb c' "010") eqn:Hsep.
      * apply andb_true_iff in Hsep as [->%Ascii.eqb_eq ->%Ascii.eqb_eq].
        rewrite join_cons by apply split_crlf_nonempty.
        rewrite IH by (simpl in Hlen; lia). reflexivity.
      * rewrite IH by (simpl in Hlen |- *; lia).
        rewrite rev_cons, string_app_assoc. reflexivity.
Qed.

Lemma omap_length_le {A B} (f : A -> option B) (l : list A) :
  length (omap f l) <= length l.
Proof.
  induction l as [|x l IH]; [done|].
  change (omap f (x :: l)) with (match f x with Some y => y :: omap f l | None => omap f l end).
  destruct (f x); simpl; lia.
Qed.

(** X27.  The LIST response is read line by line.  The lines
    [parsePOP3List] reads, joined again by CRLF, are the data it was given.
    The method always returns: every entry comes from a line of the form
    number, white space, number, the entries are in the order of their lines
    and the other lines are skipped; on empty data it returns no entry and
    logs one warning, on other data it logs nothing. *)
Theorem pop3_list_is_read_line_by_line (rawData : string) (w : World) :
  let lines := split_crlf rawData "" in
  Js.join crlf lines = rawData /\
  exists emailList w',
    parsePOP3List rawData w = (Return emailList, w') /\
    length emailList <= length lines /\
    (rawData = "" ->
     emailList = [] /\
     w' = set_logs (logs w ++ [{| level := LogWarn; text := "parsePOP3List: invalid dataStr";
                                  meta := [("dataStr", rawData)] |}]) w) /\
    (rawData <> "" -> emailList = omap entry_of_line lines /\ w' = w).
Proof.
  cbv zeta. split; [by rewrite (split_crlf_join (String.length rawData))|].
  unfold parsePOP3List. destruct rawData as [|c rest].
  - eexists _, _. split; [reflexivity|]. simpl. split; [lia|]. split; [done | by intros []].
  - eexists _, _. split; [reflexivity|]. split; [apply omap_length_le|].
    split; [intros [=] | done].
Qed.

Lemma omap_id_cons_Some {A} (x : A) (l : list (option A)) :
  omap id (Some x :: l) = x :: omap id l.
Proof. reflexivity. Qed.

(** The entries the array form of the list yields from index [k] on. *)
Lemma array_entries_numbered (k : nat) (items : list (option string)) :
  let out :=
    omap id
      (imap (fun index size =>
               if (k + index =? 0)%nat || negb (Js.truthy_opt size) then None
               else Some {| msgNumber := Some (Z.of_nat (k + index));
                            size := Some (Js.num_or (parseInt (Js.or_else size "")) 0) |})
            items) in
  Forall (fun entry =>
            exists index,
              msgNumber entry = Some (Z.of_nat index) /\ k <= index /\ 1 <= index /\
              is_Some (size entry)) out /\
  StronglySorted numbered_before out.
Proof.
  cbv zeta. revert k. induction items as [|x items IH]; intros k.
  - split; constructor.
  - rewrite imap_cons.
    rewrite (imap_ext _ (fun index size =>
               if (S k + index =? 0)%nat || negb (Js.truthy_opt size) then None
               else Some {| msgNumber := Some (Z.of_nat (S k + index));
                            size := Some (Js.num_or (parseInt (Js.or_else size "")) 0) |}))
      by (intros i y _; simpl; by rewrite Nat.add_succ_r).
    destruct (IH (S k)) as [Hall Hsorted].
    assert (Forall (fun entry =>
              exists index,
                msgNumber entry = Some (Z.of_nat index) /\ k <= index /\ 1 <= index /\
                is_Some (size entry))
              (omap id
                 (imap (fun index size =>
                          if (S k + index =? 0)%nat || negb (Js.truthy_opt size) then None
                          else Some {| msgNumber := Some (Z.of_nat (S k + index));
                                       size := Some (Js.num_or (parseInt (Js.or_else size "")) 0) |})
                       items))) as Hall'.
    { eapply Forall_impl; [exact Hall|]. intros e (i & ? & ? & ? & ?). exists i.
      repeat split; try done. lia. }
    rewrite Nat.add_0_r.
    destruct ((k =? 0)%nat || negb (Js.truthy_opt x)) eqn:Hskip; [by split|].
    rewrite omap_id_cons_Some. apply orb_false_iff in Hskip as [Hk _].
    apply Nat.eqb_neq in Hk. split.
    + constructor; [|exact Hall']. exists k. simpl. repeat split; try done; try lia.
    + constructor; [exact Hsorted|].
      eapply Forall_impl; [exact Hall|]. intros e (i & Hi & ? & ? & _).
      exists (Z.of_nat k), (Z.of_nat i). simpl. repeat split; try done. lia.
Qed.

Lemma sorted_reverse {A} (R : A -> A -> Prop) (l : list A) :
  StronglySorted R l -> StronglySorted (fun a b => R b a) (reverse l).
Proof.
  induction 1 as [|x l Hl IH Hx]; [constructor|].
  rewrite reverse_cons. apply StronglySorted_app. split; [|split; [done | repeat constructor]].
  intros a b Ha Hb. apply list_elem_of_singleton in Hb as ->.
  apply (proj1 (elem_of_reverse a l)) in Ha. exact (proj1 (Forall_forall _ _) Hx a Ha).
Qed.

Lemma sorted_slice {A} (R : A -> A -> Prop) (l : list A) (start : Z) (final : option Z) :
  StronglySorted R l -> StronglySorted R (Js.slice l start final).
Proof.
  intros Hsorted. unfold Js.slice.
  set (k := Z.to_nat (Js.rel_index _ start)). set (n := Z.to_nat _).
  rewrite <- (take_drop k l) in Hsorted. apply StronglySorted_app in Hsorted as (_ & _ & Hdrop).
  rewrite <- (take_drop n (drop k l)) in Hdrop. by apply StronglySorted_app in Hdrop as (_ & ? & _).
Qed.

(** X28.  The array form of the list.  When poplib hands the list over as
    an array, the [list] handler reads it without changing anything: index
    0 and empty slots are skipped, every entry carries its index (at least
    1) as message number and a size that is a number (0 when the slot does
    not parse), and the entries come in increasing message number.  The
    messages it then retrieves are the last [k] of them, taken from the
    highest number down. *)
Theorem pop3_array_list_is_numbered (items : list (option string)) (data : string)
    (w : World) (k : Z) :
  exists emailList,
    decodeList (LvArray items) data w = (Return emailList, w) /\
    Forall (fun entry =>
              exists index,
                msgNumber entry = Some (Z.of_nat index) /\ 1 <= index /\
                is_Some (size entry)) emailList /\
    StronglySorted numbered_before emailList /\
    StronglySorted (fun a b => numbered_before b a)
      (reverse (Js.slice emailList (- k) None)).
Proof.
  eexists. split; [reflexivity|].
  destruct (array_entries_numbered 0 items) as [Hall Hsorted]. simpl in Hall, Hsorted.
  split; [|split; [exact Hsorted|]].
  - eapply Forall_impl; [exact Hall|]. intros e (i & ? & _ & ? & ?). by exists i.
  - by apply sorted_reverse, sorted_slice.
Qed.

End Parsing.

(** The witness of [connection_test_reports_the_connection]: a first IMAP
    test of the account of the examples. *)
Lemma connection_test_reports_the_connection_witness :
  let q := SampleServer.query IMAP None None None in
  let untested : EmailService.TestCache := CacheService.new in
  CacheService.get (clock (Examples.start 0)) (EmailService.testKey q) untested
  = (None, untested) /\
  exists result w',
    EmailService.testConnection SampleServer.server q untested (Examples.start 0)
    = (Return (result, CacheService.set 0 (EmailService.testKey q) result
                         (Some (5 * 60 * 1000)%Z) untested), w') /\
    ct_success result = true /\ connectionStatus w' = DISCONNECTED.
Proof.
  cbv zeta. split; [reflexivity|].
  destruct (connection_test_reports_the_connection SampleServer.server
              (SampleServer.query IMAP None None None) CacheService.new CacheService.new
              (Examples.start 0) eq_refl)
    as (result & ttl & w' & Hrun & Httl & Hok & _ & _ & _ & _ & Hstate & _).
  assert (ct_success result = true) as Hpassed by (apply Hok; reflexivity).
  rewrite Hpassed in Httl, Hstate. subst ttl.
  exists result, w'. split; [exact Hrun|]. split; [exact Hpassed | apply Hstate].
Defined.

(** The witness of [connection_test_is_replayed]: five seconds after the
    IMAP test has passed, a POP3 test of the same account is answered from
    the cache, although the server is unreachable. *)
Lemma connection_test_is_replayed_witness :
  let q := SampleServer.query IMAP None None None in
  let other := SampleServer.query POP3 None None None in
  CacheService.cache SampleServer.tested_once !! EmailService.testKey q
  = Some SampleServer.passed_entry /\
  (clock (Examples.start 5000) <= CacheService.expireTime SampleServer.passed_entry)%Z /\
  EmailService.testKey other = EmailService.testKey q /\
  EmailService.testConnection SampleServer.unreachable other SampleServer.tested_once
    (Examples.start 5000)
  = (Return (SampleServer.passed, SampleServer.tested_once), Examples.start 5000).
Proof.
  cbv zeta.
  assert (CacheService.cache SampleServer.tested_once
            !! EmailService.testKey (SampleServer.query IMAP None None None)
          = Some SampleServer.passed_entry) as Hitem by (vm_compute; reflexivity).
  assert (clock (Examples.start 5000) <= CacheService.expireTime SampleServer.passed_entry)%Z
    as Hlive by (vm_compute; discriminate).
  split; [exact Hitem|]. split; [exact Hlive|]. split; [reflexivity|].
  exact (connection_test_is_replayed (SampleServer.query IMAP None None None)
           (SampleServer.query POP3 None None None) SampleServer.tested_once
           (Examples.start 5000) SampleServer.passed_entry SampleServer.unreachable
           Hitem Hlive eq_refl).
Defined.

(** ** The endpoints that fetch and detect (EmailController.ts) *)

Section Endpoints.
Context `{JsRuntime}.
Context (config : Config.t).
Context (srv : MailServer).
Context (invoiceService : InvoiceService.t).
Import EmailController.

Lemma detectSingleInvoice_returns email w :
  exists d w', InvoiceService.detectSingleInvoice config invoiceService email w = (Return d, w').
Proof.
  destruct (CacheService.get (clock w) (CacheService.getInvoiceDetectionKey (em_id email))
              (invoiceCache w)) as [[d|] c] eqn:Hget.
  - eexists _, _. by apply detect_hit.
  - destruct (detect_miss config invoiceService email w c Hget) as (r & w' & Hrun & _).
    by exists r, w'.
Qed.

Lemma for_each_cons {A B} (step : B -> A -> M B) x l acc w a w1 :
  step acc x w = (Return a, w1) ->
  EmailService.for_each step (x :: l) acc w = EmailService.for_each step l a w1.
Proof. intros Hstep. cbn [EmailService.for_each]. unfold bind. by rewrite Hstep. Qed.

(** The two loops over the fetched messages run the same detections. *)
Lemma detection_loops (fetched : list EmailMessage) :
  forall (results invoiceEmails : list Detection) (w : World),
  exists detections w',
    EmailService.for_each
      (fun results email =>
         let* detectionResult :=
           InvoiceService.detectSingleInvoice config invoiceService email in
         ret (results ++ [detectionResult]))
      fetched results w = (Return (results ++ detections), w') /\
    EmailService.for_each
      (fun invoiceEmails email =>
         let* detectionResult :=
           InvoiceService.detectSingleInvoice config invoiceService email in
         ret (if isInvoice detectionResult
              then invoiceEmails ++ [detectionResult]
              else invoiceEmails))
      fetched invoiceEmails w = (Return (invoiceEmails ++ List.filter isInvoice detections), w') /\
    length detections = length fetched.
Proof.
  induction fetched as [|email rest IH]; intros results invoiceEmails w.
  - exists [], w. simpl. by rewrite !app_nil_r.
  - destruct (detectSingleInvoice_returns email w) as (d & w1 & Hd).
    destruct (IH (results ++ [d])
                 (if isInvoice d then invoiceEmails ++ [d] else invoiceEmails) w1)
      as (detections & w' & Hall & Hinvoices & Hlen).
    exists (d :: detections), w'.
    rewrite (for_each_cons _ email rest results w (results ++ [d]) w1)
      by (unfold bind, ret; by rewrite Hd).
    rewrite (for_each_cons _ email rest invoiceEmails w
               (if isInvoice d then invoiceEmails ++ [d] else invoiceEmails) w1)
      by (unfold bind, ret; by rewrite Hd).
    rewrite Hall, Hinvoices. split; [by rewrite <- app_assoc|]. split; [|simpl; by rewrite Hlen].
    simpl. destruct (isInvoice d); [by rewrite <- app_assoc | done].
Qed.

Lemma successful_fetch_has_emails q w r w' :
  EmailService.fetchEmails config srv q w = (Return r, w') ->
  success r = true -> exists l, emails r = Some l.
Proof.
  intros Hrun Hok.
  destruct (fetchEmails_trace config srv q w) as (r0 & w0 & Hrun0 & _ & _ & _ & Hcases).
  rewrite Hrun in Hrun0. injection Hrun0 as <- <-.
  destruct Hcases as [(reason & -> & _) | [[-> _] | (details & _ & -> & _)]];
    [done | by eexists | by eexists].
Qed.


(** X30.  The invoice endpoint is the combined one, filtered.  On the same
    request and from the same state, [fetchInvoiceEmails] and
    [fetchAndDetectInvoices] both answer, do the same to the state, and
    answer with the same status, success flag and message.  When they carry
    data, the invoice emails of the first are the detections of the second
    that are classified as invoices, in the same order, and the two agree on
    [total], [invoiceCount] and [fetchInfo]. *)
Theorem invoice_endpoint_is_the_combined_one_filtered
    (validated : Checked EmailQueryParams) (w : World) :
  exists combined invoices w',
    fetchAndDetectInvoices config srv invoiceService validated w = (Return combined, w') /\
    fetchInvoiceEmails config srv invoiceService validated w = (Return invoices, w') /\
    res_status invoices = res_status combined /\
    res_success invoices = res_success combined /\
    res_message invoices = res_message combined /\
    match res_data combined, res_data invoices with
    | Some all, Some kept =>
        fi_invoiceEmails kept = List.filter isInvoice (fd_results all) /\
        fi_invoiceCount kept = fd_invoiceCount all /\
        fi_total kept = fd_total all /\
        fi_fetchInfo kept = fd_fetchInfo all
    | None, None => True
    | _, _ => False
    end.
Proof.
  destruct validated as [error|value].
  - eexists _, _, _. split; [reflexivity|]. split; [reflexivity|]. done.
  - destruct (fetchEmails_trace config srv value w) as (r & w1 & Hrun & _).
    destruct (success r) eqn:Hok.
    + destruct (successful_fetch_has_emails value w r w1 Hrun Hok) as [fetched Hemails].
      destruct (detection_loops fetched [] [] w1)
        as (detections & w' & Hall & Hinvoices & Hlen).
      eexists _, _, _. split; [|split].
      * unfold fetchAndDetectInvoices, try_catch. unfold bind at 1.
        rewrite Hrun, Hok, Hemails. unfold bind at 1. rewrite Hall. reflexivity.
      * unfold fetchInvoiceEmails, try_catch. unfold bind at 1.
        rewrite Hrun, Hok, Hemails. unfold bind at 1. rewrite Hinvoices. reflexivity.
      * cbn [app res_status res_success res_data res_message
             fd_results fd_total fd_invoiceCount fd_fetchInfo
             fi_invoiceEmails fi_total fi_invoiceCount fi_fetchInfo].
        unfold count. rewrite length_fmap, Hlen. done.
    + eexists _, _, _. split; [|split].
      * unfold fetchAndDetectInvoices, try_catch. unfold bind at 1.
        rewrite Hrun, Hok. destruct (emails r); reflexivity.
      * unfold fetchInvoiceEmails, try_catch. unfold bind at 1.
        rewrite Hrun, Hok. destruct (emails r); reflexivity.
      * done.
Qed.

End Endpoints.
